(** * The live preview pipeline of the HTML/CSS editor view

    A shallow embedding of the preview synchronisation engine of
    [src/HTMLCSSEditorView.ts] and of the [AnimationPerformanceMonitor]:

    - [Regex], [Sanitizer]: the regular expressions of
      [validateAndSanitizeHTML] and [validateAndSanitizeCSS], with the
      backtracking matcher and the global [replace] they are run with;
    - [Sass]: [compileSass] and its cache, in a state-and-exception monad;
    - [Assembler]: [generatePreviewContent];
    - [View]: the debounce scheduler ([onContentChange],
      [clearUpdateTimeout]), the renderer ([updatePreview],
      [renderPreviewContentToFrame]) and the monitor, run by an event loop
      with timers and animation-frame callbacks.

    Around the engine:

    - [ErrorPage]: [generateErrorContent] and [escapeHtml];
    - [ExportStyle], [ExportMarkup]: the sanitizers, the document, the
      preview and the file name of [src/export.ts];
    - [Rx]: the matcher for the patterns with groups;
    - [Animations]: [findAnimations] and the widget positions of
      [createAnimationDecorations];
    - [SassVariables]: [extractSassVariables];
    - [Settings]: [SettingsValidator] and [saveSettings].

    JavaScript strings are lists of UTF-16 code units.  DOM calls that
    only change the look of the editor chrome (status texts, CSS classes,
    button labels) are left out. *)

From Stdlib Require Import String Ascii List NArith ZArith Arith Lia Bool Permutation.
From Stdlib Require Floats Sorted.
Import ListNotations.

(** * Part I: the program *)

(** ** JavaScript strings *)
Module JS.
Local Open Scope N_scope.

Definition code_unit := N.
Definition jsstring := list code_unit.

(** An ASCII literal as a JavaScript string. *)
Definition js (s : string) : jsstring := map N_of_ascii (list_ascii_of_string s).

(** The same, for literals that hold double quotes: they are written as
    backticks. *)
Definition backtick : code_unit := 96.
Definition dquote : code_unit := 34.
Definition jsq (s : string) : jsstring :=
  map (fun u => if u =? backtick then dquote else u) (js s).

(** White space and line terminators: what [trim] strips and what [\s]
    matches. *)

Definition isWhiteSpace (u : code_unit) : bool :=
  (u =? 9) || (u =? 10) || (u =? 11) || (u =? 12) || (u =? 13) || (u =? 32)
  || (u =? 160) || (u =? 5760) || ((8192 <=? u) && (u <=? 8202))
  || (u =? 8232) || (u =? 8233) || (u =? 8239) || (u =? 8287)
  || (u =? 12288) || (u =? 65279).

Fixpoint trimStart (s : jsstring) : jsstring :=
  match s with
  | u :: s' => if isWhiteSpace u then trimStart s' else s
  | [] => []
  end.
Definition trimEnd (s : jsstring) : jsstring := rev (trimStart (rev s)).
Definition trim (s : jsstring) : jsstring := trimEnd (trimStart s).

(** A string is truthy when it is not empty. *)
Definition truthy (s : jsstring) : bool := match s with [] => false | _ => true end.
Definition eqb_str (a b : jsstring) : bool := if list_eq_dec N.eq_dec a b then true else false.

End JS.

(** ** Regular expressions

    The patterns of the sanitizer are sequences of single characters,
    character classes and starred classes, all with the flags [g] and [i].
    [match_at] is the backtracking matcher at one position: it returns the
    length of the first match in priority order (a greedy star tries the
    longest run first, a lazy one the shortest).  [Canonicalize] of the
    [i] flag only matters here for ASCII letters: a code unit above 127
    never canonicalizes to an ASCII one. *)
Module Regex.
Import JS.
Local Open Scope N_scope.

(** [Canonicalize] for the flag [i] without [u]: the upper case of an
    ASCII letter. *)
Definition canonicalize (u : code_unit) : code_unit :=
  if (97 <=? u) && (u <=? 122) then u - 32 else u.

(** [c], [[^c]], [\s] and [[\s\S]]. *)
Inductive charset :=
| Chr (c : code_unit)
| NotChr (c : code_unit)
| Space
| AnyChar.

Definition accepts (cs : charset) (u : code_unit) : bool :=
  match cs with
  | Chr c => canonicalize c =? canonicalize u
  | NotChr c => negb (canonicalize c =? canonicalize u)
  | Space => isWhiteSpace u
  | AnyChar => true
  end.

(** [x], [x*], [x*?] and [x+]. *)
Inductive atom :=
| One (cs : charset)
| Star (cs : charset)
| StarLazy (cs : charset)
| Plus (cs : charset).

Definition regex := list atom.

(** [x*] followed by the rest of the pattern [k]: one more [x] first,
    then the rest. *)
Fixpoint greedy (cs : charset) (k : jsstring -> option nat) (s : jsstring) : option nat :=
  match s with
  | u :: s' =>
      if accepts cs u then
        match greedy cs k s' with
        | Some n => Some (S n)
        | None => k s
        end
      else k s
  | [] => k s
  end.

(** [x*?] followed by [k]: the rest first, then one more [x]. *)
Fixpoint lazy (cs : charset) (k : jsstring -> option nat) (s : jsstring) : option nat :=
  match k s with
  | Some n => Some n
  | None =>
      match s with
      | u :: s' => if accepts cs u then option_map S (lazy cs k s') else None
      | [] => None
      end
  end.

Fixpoint match_at (re : regex) (s : jsstring) {struct re} : option nat :=
  match re with
  | [] => Some 0%nat
  | One cs :: re' =>
      match s with
      | u :: s' => if accepts cs u then option_map S (match_at re' s') else None
      | [] => None
      end
  | Star cs :: re' => greedy cs (match_at re') s
  | StarLazy cs :: re' => lazy cs (match_at re') s
  | Plus cs :: re' =>
      match s with
      | u :: s' => if accepts cs u then option_map S (greedy cs (match_at re') s') else None
      | [] => None
      end
  end.

(** A run of literal characters. *)
Definition lit (w : string) : regex := map (fun c => One (Chr c)) (js w).

(** [re.test(s)] for a pattern whose [lastIndex] is 0: is there a match at
    some position. *)

Fixpoint test (re : regex) (s : jsstring) : bool :=
  match match_at re s with
  | Some _ => true
  | None => match s with _ :: s' => test re s' | [] => false end
  end.

(** [s.replace(re, repl)] with the flag [g] and a replacement without [$]:
    the matches are looked for from left to right, each search starting
    where the previous match ended ([skip] counts the characters of the
    current match still to drop); after an empty match the next character
    is copied. *)
Fixpoint replace_from (re : regex) (repl : jsstring) (skip : nat) (s : jsstring) : jsstring :=
  match skip with
  | S k => match s with _ :: s' => replace_from re repl k s' | [] => [] end
  | O =>
      match match_at re s with
      | Some (S k) => repl ++ match s with _ :: s' => replace_from re repl k s' | [] => [] end
      | Some O => repl ++ match s with u :: s' => u :: replace_from re repl 0 s' | [] => [] end
      | None => match s with u :: s' => u :: replace_from re repl 0 s' | [] => [] end
      end
  end.
Definition replace (re : regex) (repl s : jsstring) : jsstring := replace_from re repl 0 s.

End Regex.

(** ** [validateAndSanitizeHTML] and [validateAndSanitizeCSS]

    Lines 1276-1327 of [HTMLCSSEditorView.ts].  Each pattern is a fresh
    literal, so [test] starts at position 0, and [replace] resets
    [lastIndex] itself.  The [console.warn] calls are left out. *)
Module Sanitizer.
Import JS Regex.
Local Open Scope N_scope.

(* /<script[^>]*>[\s\S]*?<\/script>/gi *)
Definition re_script : regex :=
  lit "<script" ++ [Star (NotChr 62); One (Chr 62); StarLazy AnyChar] ++ lit "</script>".
(* /<iframe[^>]*>[\s\S]*?<\/iframe>/gi *)
Definition re_iframe : regex :=
  lit "<iframe" ++ [Star (NotChr 62); One (Chr 62); StarLazy AnyChar] ++ lit "</iframe>".
(* /<object[^>]*>[\s\S]*?<\/object>/gi *)
Definition re_object : regex :=
  lit "<object" ++ [Star (NotChr 62); One (Chr 62); StarLazy AnyChar] ++ lit "</object>".
(* /<embed[^>]*>/gi *)
Definition re_embed : regex :=
  lit "<embed" ++ [Star (NotChr 62); One (Chr 62)].
(* /<form[^>]*>[\s\S]*?<\/form>/gi *)
Definition re_form : regex :=
  lit "<form" ++ [Star (NotChr 62); One (Chr 62); StarLazy AnyChar] ++ lit "</form>".

Definition dangerousPatternsHTML : list regex :=
  [re_script; re_iframe; re_object; re_embed; re_form].

Definition unsafe_element_comment : jsstring :=
  js "<!-- Unsafe element removed for security -->".

Definition validateAndSanitizeHTML (html : jsstring) : jsstring :=
  if negb (truthy (trim html)) then js "<p><em>No HTML content to preview</em></p>"
  else
    fold_left
      (fun sanitized pattern =>
         if test pattern sanitized
         then replace pattern unsafe_element_comment sanitized
         else sanitized)
      dangerousPatternsHTML html.

(* /@import\s+url\s*\([^)]*\)/gi *)
Definition re_import : regex :=
  lit "@import" ++ [Plus Space] ++ lit "url"
  ++ [Star Space; One (Chr 40); Star (NotChr 41); One (Chr 41)].
(* /javascript\s*:/gi *)
Definition re_javascript : regex := lit "javascript" ++ [Star Space; One (Chr 58)].
(* /expression\s*\(/gi *)
Definition re_expression : regex := lit "expression" ++ [Star Space; One (Chr 40)].
(* /behavior\s*:/gi *)
Definition re_behavior : regex := lit "behavior" ++ [Star Space; One (Chr 58)].

Definition dangerousPatternsCSS : list regex :=
  [re_import; re_javascript; re_expression; re_behavior].

Definition unsafe_css_comment : jsstring := js "/* Unsafe CSS removed */".

Definition validateAndSanitizeCSS (css : jsstring) : jsstring :=
  if negb (truthy (trim css)) then js "/* No CSS content */"
  else
    fold_left
      (fun sanitized pattern =>
         if test pattern sanitized
         then replace pattern unsafe_css_comment sanitized
         else sanitized)
      dangerousPatternsCSS css.

End Sanitizer.

(** ** [compileSass] and its cache

    Lines 2005-2072.  The updates of the status element and the timing
    with [performance.now] are left out. *)
Module Sass.
Import JS.

(** The value thrown by the compiler; only its [message] is read. *)
Record Error := { message : option jsstring }.

Inductive completion (A : Type) :=
| Returned (a : A)
| Thrown (e : Error).
Arguments Returned {A} a.
Arguments Thrown {A} e.

(** [Map<string, string>]: entries in insertion order, keys unique. *)
Definition Map := list (jsstring * jsstring).

Fixpoint map_get (k : jsstring) (m : Map) : option jsstring :=
  match m with
  | [] => None
  | (k', v) :: m' => if eqb_str k k' then Some v else map_get k m'
  end.
Definition map_has (k : jsstring) (m : Map) : bool :=
  match map_get k m with Some _ => true | None => false end.
Definition map_size (m : Map) : nat := length m.
Definition map_first_key (m : Map) : option jsstring :=
  match m with (k, _) :: _ => Some k | [] => None end.
Fixpoint map_delete (k : jsstring) (m : Map) : Map :=
  match m with
  | [] => []
  | (k', v) :: m' => if eqb_str k k' then m' else (k', v) :: map_delete k m'
  end.
Fixpoint map_set (k v : jsstring) (m : Map) : Map :=
  match m with
  | [] => [(k, v)]
  | (k', v') :: m' => if eqb_str k k' then (k', v) :: m' else (k', v') :: map_set k v m'
  end.

(** [viewState.isSassMode], [sassCache], and a log of the calls made to
    [sass.compileString] (kept to count invocations). *)
Record state := {
  isSassMode : bool;
  sassCache : Map;
  compilerCalls : list jsstring
}.

Definition set_cache (m : Map) (st : state) : state :=
  {| isSassMode := isSassMode st; sassCache := m; compilerCalls := compilerCalls st |}.
Definition set_mode (b : bool) (st : state) : state :=
  {| isSassMode := b; sassCache := sassCache st; compilerCalls := compilerCalls st |}.
Definition log_call (src : jsstring) (st : state) : state :=
  {| isSassMode := isSassMode st; sassCache := sassCache st;
     compilerCalls := compilerCalls st ++ [src] |}.

(** State and exceptions. *)
Definition M (A : Type) : Type := state -> completion A * state.
Definition ret {A} (a : A) : M A := fun st => (Returned a, st).
Definition bind {A B} (c : M A) (k : A -> M B) : M B :=
  fun st => match c st with
            | (Returned a, st') => k a st'
            | (Thrown e, st') => (Thrown e, st')
            end.
Definition try_catch {A} (body : M A) (handler : Error -> M A) : M A :=
  fun st => match body st with
            | (Returned a, st') => (Returned a, st')
            | (Thrown e, st') => handler e st'
            end.
Definition get : M state := fun st => (Returned st, st).
Definition modify (f : state -> state) : M unit := fun st => (Returned tt, f st).

Notation "x <- c ;; k" := (bind c (fun x => k))
  (at level 61, c at next level, right associativity).
Notation "c ;;; k" := (bind c (fun _ => k))
  (at level 61, right associativity).

(** [error.message || d] *)
Definition or_default (o : option jsstring) (d : jsstring) : jsstring :=
  match o with
  | Some s => if truthy s then s else d
  | None => d
  end.

(** [sass.compileString(source, options).css], or the exception it
    throws.  The compiler is not a function of the source alone: a text
    can call [random()] or read files with [@use], so the same text can get
    another answer the next time.  [compileString n source] is what the
    call gives when [n] calls have been made before it. *)
Definition Compiler : Type := nat -> jsstring -> completion jsstring.

Section Compile.
Variable compileString : Compiler.

Definition call_compileString (src : jsstring) : M jsstring :=
  fun st => (compileString (length (compilerCalls st)) src, log_call src st).

Definition compileSass (sassContent : jsstring) : M jsstring :=
  st <- get ;;
  if negb (isSassMode st) || negb (truthy (trim sassContent)) then ret sassContent
  else
    match map_get sassContent (sassCache st) with
    | Some css => ret css
    | None =>
        try_catch
          (css <- call_compileString sassContent ;;
           st1 <- get ;;
           (if (10 <? map_size (sassCache st1))%nat
            then match map_first_key (sassCache st1) with
                 | Some firstKey => modify (set_cache (map_delete firstKey (sassCache st1)))
                 | None => ret tt
                 end
            else ret tt) ;;;
           st2 <- get ;;
           modify (set_cache (map_set sassContent css (sassCache st2))) ;;;
           ret css)
          (fun error =>
             let errorMessage := or_default (message error) (js "Unknown error") in
             ret (js "/* Sass compilation error: " ++ errorMessage ++ js " */"
                  ++ [10%N] ++ sassContent))
    end.
End Compile.

Definition initial : state := {| isSassMode := false; sassCache := []; compilerCalls := [] |}.

End Sass.

(** Stand-ins for the external compiler, to run the model on concrete
    inputs.  [compileString] answers every call the same way: it rejects
    [.x { color: }] and returns every other text unchanged.  [flaky] fails
    on the first call made to it and returns the text unchanged from then
    on, as a compiler does once a file read by [@use] has appeared. *)
Module Stub.
Import JS.

Definition compileString : Sass.Compiler := fun _ src =>
  if eqb_str src (js ".x { color: }")
  then Sass.Thrown {| Sass.message := Some (js "Expected expression.") |}
  else Sass.Returned src.

Definition flaky : Sass.Compiler := fun n src =>
  if (n =? 0)%nat
  then Sass.Thrown {| Sass.message := Some (js "Can't find stylesheet to import.") |}
  else Sass.Returned src.

Definition eleven : list jsstring :=
  map js [".a{}"; ".b{}"; ".c{}"; ".d{}"; ".e{}"; ".f{}"; ".g{}"; ".h{}"; ".i{}"; ".j{}";
          ".k{}"]%string.

End Stub.

(** ** [generatePreviewContent]

    Lines 1214-1274. *)
Module Assembler.
Import JS Sanitizer.

(** The template literal of the source, line by line; a backtick stands
    for a double quote. *)
Fixpoint lines (l : list string) : jsstring :=
  match l with
  | [] => []
  | [s] => jsq s
  | s :: l' => jsq s ++ [10%N] ++ lines l'
  end.

(* from the doctype to the background colour *)
Definition shell_head : jsstring :=
  lines
    (["<!DOCTYPE html>";
     "<html lang=`en`>";
     "<head>";
     "    <meta charset=`UTF-8`>";
     "    <meta name=`viewport` content=`width=device-width, initial-scale=1.0`>";
     "    <title>HTML/CSS Preview</title>";
     "    <style>";
     "        /* Base styles */";
     "        body {";
     "            margin: 0;";
     "            padding: 4px;";
     "            font-family: -apple-system, BlinkMacSystemFont, 'Segoe UI', Roboto, sans-serif;";
     "            background-color: "])%string.

(* the rest of the base styles, up to the user CSS *)
Definition shell_base_rest : jsstring :=
  lines
    ([";";
     "            line-height: 1.6;";
     "            box-sizing: border-box;";
     "            overflow: hidden; /* Prevent scrollbars on tiny frames */";
     "        }";
     "        ";
     "        /* User CSS */";
     "        "])%string.

(* end of the style block, start of the body *)
Definition shell_body_open : jsstring :=
  lines
    (["";
     "    </style>";
     "</head>";
     "<body>";
     "    "])%string.

(* the guard script and the end of the document *)
Definition shell_guard : jsstring :=
  lines
    (["";
     "    ";
     "    <script>";
     "        // Prevent navigation away from preview";
     "        window.addEventListener('beforeunload', function(e) {";
     "            e.preventDefault();";
     "            return false;";
     "        });";
     "        ";
     "        // Handle link clicks to prevent navigation";
     "        document.addEventListener('click', function(e) {";
     "            if (e.target.tagName === 'A' && e.target.href) {";
     "                e.preventDefault();";
     "                // Link clicked - prevented default";
     "            }";
     "        });";
     "        ";
     "        // Error handling for the preview content";
     "        window.addEventListener('error', function(e) {";
     "            console.warn('Preview content error:', e.message);";
     "        });";
     "    </script>";
     "</body>";
     "</html>"])%string.

Definition document (previewBackground validatedCSS validatedHTML : jsstring) : jsstring :=
  shell_head ++ previewBackground ++ shell_base_rest ++ validatedCSS
  ++ shell_body_open ++ validatedHTML ++ shell_guard.

Section Generate.
Variable compileString : Sass.Compiler.

Definition generatePreviewContent (previewBackground htmlContent cssContent : jsstring)
  : Sass.M jsstring :=
  Sass.bind Sass.get (fun st =>
  Sass.bind (if Sass.isSassMode st
             then Sass.compileSass compileString cssContent
             else Sass.ret cssContent) (fun cssContent' =>
  let validatedHTML := validateAndSanitizeHTML htmlContent in
  let validatedCSS := validateAndSanitizeCSS cssContent' in
  Sass.ret (document previewBackground validatedCSS validatedHTML))).
End Generate.

End Assembler.

(** ** The view: scheduler, renderer, monitor and the event loop that
    runs their callbacks *)
Module View.
Import JS Assembler.

(** [previewFrame], [pipFrame] and the frame of [fullscreenOverlay]. *)
Inductive SinkKind := Primary | Floating | Fullscreen.

(** What happens when an iframe is touched: its [contentDocument] is a
    document that can be written, is [null], or the access throws. *)
Inductive FrameStatus := Healthy | NoDocument | Faulty.

(** The closures the view hands to [setTimeout] (the first three) and to
    [requestAnimationFrame]:
    - [() => { this.updatePreview(); }], the debounce job;
    - the closure of [manualRefreshPreview] that restores the button;
    - [() => { monitor.startMonitoring(this.previewFrame); }];
    - the callback of [updatePreview], which renders;
    - the deferred writes to the floating and the fullscreen frame, with
      the content they captured;
    - [monitor], the poll of the performance monitor. *)
Inductive Task :=
| UpdatePreviewJob
| RestoreRefreshButton
| StartMonitoringJob
| PreviewFrame
| PipFrameWrite (content : jsstring)
| FullscreenFrameWrite (content : jsstring)
| MonitorFrame.

Definition is_update_job (t : Task) : bool :=
  match t with UpdatePreviewJob => true | _ => false end.
Definition is_monitor (t : Task) : bool :=
  match t with MonitorFrame => true | _ => false end.

Record Timer := { timerId : nat; due : Z; timerTask : Task }.
Record FrameRequest := { requestId : nat; requestTask : Task }.

(** The host: a clock in milliseconds, the pending timers and the
    callbacks requested for the next animation frame.  Identifiers start
    at 1, so a handle is truthy exactly when it is not [null]. *)
Record Host := {
  now : Z;
  nextTimerId : nat;
  timers : list Timer;
  nextRequestId : nat;
  frameRequests : list FrameRequest
}.

Definition setTimeout (task : Task) (delay : Z) (h : Host) : nat * Host :=
  (nextTimerId h,
   {| now := now h;
      nextTimerId := S (nextTimerId h);
      timers := timers h ++ [{| timerId := nextTimerId h;
                                due := (now h + Z.max 0 delay)%Z;
                                timerTask := task |}];
      nextRequestId := nextRequestId h;
      frameRequests := frameRequests h |}).

Definition clearTimeout (id : nat) (h : Host) : Host :=
  {| now := now h;
     nextTimerId := nextTimerId h;
     timers := filter (fun t => negb (timerId t =? id)%nat) (timers h);
     nextRequestId := nextRequestId h;
     frameRequests := frameRequests h |}.

Definition requestAnimationFrame (task : Task) (h : Host) : nat * Host :=
  (nextRequestId h,
   {| now := now h;
      nextTimerId := nextTimerId h;
      timers := timers h;
      nextRequestId := S (nextRequestId h);
      frameRequests := frameRequests h ++ [{| requestId := nextRequestId h;
                                              requestTask := task |}] |}).

Definition cancelAnimationFrame (id : nat) (h : Host) : Host :=
  {| now := now h;
     nextTimerId := nextTimerId h;
     timers := timers h;
     nextRequestId := nextRequestId h;
     frameRequests := filter (fun r => negb (requestId r =? id)%nat) (frameRequests h) |}.

(** [this.plugin.settings], as far as the pipeline reads it. *)
Record Settings := {
  autoRefresh : bool;
  refreshDelay : Z;
  previewBackground : jsstring
}.

(** The frames.  [pipFrame] is [null] while the floating preview is
    closed; [fullscreenOverlay] is [null] while fullscreen is closed, and
    otherwise holds what [querySelector] finds in it. *)
Record Sinks := {
  previewFrame : FrameStatus;
  previewHasWindow : bool;
  pipFrame : option FrameStatus;
  fullscreenOverlay : option (option FrameStatus)
}.

Record AnimationSample := { startTime : Z; frameCount : Z }.
Definition Samples := list (jsstring * AnimationSample).

Record Monitor := { animations : Samples; rafId : option nat }.

(** What [getComputedStyle(el).animationName] gives for one of the
    elements selected in the preview document. *)
Inductive StyleLookup := StyleThrows | AnimationName (name : jsstring).

(** What can be observed: a document written into a frame
    ([doc.open(); doc.write(content); doc.close()]), the error page written
    by [renderPreviewError], a [console.error] of a failed write, an
    exception that leaves a callback. *)
Inductive Output :=
| Wrote (k : SinkKind) (content : jsstring)
| WroteErrorPage
| ConsoleError (k : SinkKind)
| Uncaught (k : SinkKind).

Record state := {
  host : Host;
  settings : Settings;
  sinks : Sinks;
  htmlContent : jsstring;
  cssContent : jsstring;
  updateTimeout : option nat;
  sass : Sass.state;
  monitor : Monitor;
  output : list Output
}.

Definition set_host (h : Host) (st : state) : state :=
  {| host := h; settings := settings st; sinks := sinks st;
     htmlContent := htmlContent st; cssContent := cssContent st;
     updateTimeout := updateTimeout st; sass := sass st; monitor := monitor st;
     output := output st |}.
Definition set_settings (s : Settings) (st : state) : state :=
  {| host := host st; settings := s; sinks := sinks st;
     htmlContent := htmlContent st; cssContent := cssContent st;
     updateTimeout := updateTimeout st; sass := sass st; monitor := monitor st;
     output := output st |}.
Definition set_sinks (s : Sinks) (st : state) : state :=
  {| host := host st; settings := settings st; sinks := s;
     htmlContent := htmlContent st; cssContent := cssContent st;
     updateTimeout := updateTimeout st; sass := sass st; monitor := monitor st;
     output := output st |}.
Definition set_content (html css : jsstring) (st : state) : state :=
  {| host := host st; settings := settings st; sinks := sinks st;
     htmlContent := html; cssContent := css;
     updateTimeout := updateTimeout st; sass := sass st; monitor := monitor st;
     output := output st |}.
Definition set_updateTimeout (t : option nat) (st : state) : state :=
  {| host := host st; settings := settings st; sinks := sinks st;
     htmlContent := htmlContent st; cssContent := cssContent st;
     updateTimeout := t; sass := sass st; monitor := monitor st;
     output := output st |}.
Definition set_sass (s : Sass.state) (st : state) : state :=
  {| host := host st; settings := settings st; sinks := sinks st;
     htmlContent := htmlContent st; cssContent := cssContent st;
     updateTimeout := updateTimeout st; sass := s; monitor := monitor st;
     output := output st |}.
Definition set_monitor (m : Monitor) (st : state) : state :=
  {| host := host st; settings := settings st; sinks := sinks st;
     htmlContent := htmlContent st; cssContent := cssContent st;
     updateTimeout := updateTimeout st; sass := sass st; monitor := m;
     output := output st |}.
Definition emit (o : Output) (st : state) : state :=
  {| host := host st; settings := settings st; sinks := sinks st;
     htmlContent := htmlContent st; cssContent := cssContent st;
     updateTimeout := updateTimeout st; sass := sass st; monitor := monitor st;
     output := output st ++ [o] |}.

(** ** The debounce scheduler (lines 1010-1064, and the end of
    [applySettings], lines 917-924) *)

Definition clearUpdateTimeout (st : state) : state :=
  match updateTimeout st with
  | Some id =>
      if (0 <? id)%nat
      then set_updateTimeout None (set_host (clearTimeout id (host st)) st)
      else st
  | None => st
  end.

(** [contentSize > 5000 ? Math.min(refreshDelay * 2, 1000) : refreshDelay] *)
Definition adaptiveDelay (contentSize refreshDelay : Z) : Z :=
  if (5000 <? contentSize)%Z then Z.min (refreshDelay * 2) 1000 else refreshDelay.

(** [html] and [css] are the texts of the two editors.  The throttled
    update of the export buttons is left out. *)
Definition onContentChange (html css : jsstring) (st : state) : state :=
  let st := set_content html css st in
  if autoRefresh (settings st) then
    let st := clearUpdateTimeout st in
    let contentSize := Z.of_nat (length (htmlContent st) + length (cssContent st)) in
    let delay := adaptiveDelay contentSize (refreshDelay (settings st)) in
    let (id, h) := setTimeout UpdatePreviewJob delay (host st) in
    set_updateTimeout (Some id) (set_host h st)
  else st.

Definition updatePreview (st : state) : state :=
  let (_, h) := requestAnimationFrame PreviewFrame (host st) in
  set_host h st.

Definition manualRefreshPreview (st : state) : state :=
  let st := clearUpdateTimeout st in
  let st := updatePreview st in
  let (_, h) := setTimeout RestoreRefreshButton 500 (host st) in
  set_host h st.

Definition applySettings (st : state) : state :=
  if autoRefresh (settings st) && (truthy (htmlContent st) || truthy (cssContent st)) then
    let st := clearUpdateTimeout st in
    let (id, h) := setTimeout UpdatePreviewJob (refreshDelay (settings st)) (host st) in
    set_updateTimeout (Some id) (set_host h st)
  else st.

(** ** The renderer (lines 1085-1162 and 3989-4000) *)

Definition renderPreviewContentToFrame (k : SinkKind) (frame : option FrameStatus)
    (content : jsstring) (st : state) : state :=
  match frame with
  | Some Healthy => emit (Wrote k content) st
  | Some NoDocument => st
  | Some Faulty | None => emit (ConsoleError k) st
  end.

Definition renderPreviewError (st : state) : state :=
  match previewFrame (sinks st) with
  | Healthy => emit WroteErrorPage st
  | NoDocument => st
  | Faulty => emit (ConsoleError Primary) st
  end.

Definition renderPreviewContent (content : jsstring) (st : state) : state :=
  match previewFrame (sinks st) with
  | Healthy => emit (Wrote Primary content) st
  | NoDocument => st
  | Faulty => renderPreviewError st
  end.

(** ** The animation performance monitor ([AnimationPerformanceMonitor]) *)

Fixpoint samples_get (name : jsstring) (m : Samples) : option AnimationSample :=
  match m with
  | [] => None
  | (n, a) :: m' => if eqb_str name n then Some a else samples_get name m'
  end.
Fixpoint samples_set (name : jsstring) (a : AnimationSample) (m : Samples) : Samples :=
  match m with
  | [] => [(name, a)]
  | (n, a') :: m' => if eqb_str name n then (n, a) :: m' else (n, a') :: samples_set name a m'
  end.

Definition count_frame (t : Z) (name : jsstring) (m : Samples) : Samples :=
  let m1 := match samples_get name m with
            | Some _ => m
            | None => samples_set name {| startTime := t; frameCount := 0 |} m
            end in
  match samples_get name m1 with
  | Some anim =>
      samples_set name {| startTime := startTime anim; frameCount := (frameCount anim + 1)%Z |} m1
  | None => m1
  end.

(** The [forEach] over the selected elements; [false] when a style
    lookup threw. *)
Fixpoint sample_elements (t : Z) (els : list StyleLookup) (m : Samples) : Samples * bool :=
  match els with
  | [] => (m, true)
  | StyleThrows :: _ => (m, false)
  | AnimationName name :: els' =>
      if truthy name && negb (eqb_str name (js "none"))
      then sample_elements t els' (count_frame t name m)
      else sample_elements t els' m
  end.

(** [if (!previewFrame.contentWindow) return;] then the first request. *)
Definition startMonitoring (st : state) : state :=
  if previewHasWindow (sinks st) then
    let (id, h) := requestAnimationFrame MonitorFrame (host st) in
    set_monitor {| animations := animations (monitor st); rafId := Some id |} (set_host h st)
  else st.

(** The closure [monitor].  [els] is what the style lookups give for the
    elements that [querySelectorAll] selects in this frame.  Reading
    [contentDocument] throws (caught), gives [null] (return) or a
    document; without a [contentWindow] every lookup throws.  The next
    poll is requested inside the [try] block, after the [forEach]. *)
Definition monitorCallback (els : list StyleLookup) (st : state) : state :=
  match previewFrame (sinks st) with
  | Faulty => st
  | NoDocument => st
  | Healthy =>
      let lookups := if previewHasWindow (sinks st) then els
                     else map (fun _ => StyleThrows) els in
      match sample_elements (now (host st)) lookups (animations (monitor st)) with
      | (m, true) =>
          let (id, h) := requestAnimationFrame MonitorFrame (host st) in
          set_monitor {| animations := m; rafId := Some id |} (set_host h st)
      | (m, false) =>
          set_monitor {| animations := m; rafId := rafId (monitor st) |} st
      end
  end.

Definition stopMonitoring (st : state) : state :=
  match rafId (monitor st) with
  | Some id =>
      if (0 <? id)%nat
      then set_monitor {| animations := animations (monitor st); rafId := None |}
             (set_host (cancelAnimationFrame id (host st)) st)
      else st
  | None => st
  end.

Definition reset (st : state) : state :=
  set_monitor {| animations := []; rafId := rafId (monitor st) |} st.

(** ** The callbacks *)
Section Run.
Variable compileString : Sass.Compiler.

(** The callback of [updatePreview]: generate, write the primary frame,
    set the timer that attaches the monitor, and request the deferred
    writes for the sinks that are there. *)
Definition previewFrameCallback (st : state) : state :=
  match generatePreviewContent compileString (previewBackground (settings st))
          (htmlContent st) (cssContent st) (sass st) with
  | (Sass.Returned content, sass') =>
      let st := set_sass sass' st in
      let st := renderPreviewContent content st in
      let (_, h) := setTimeout StartMonitoringJob 100 (host st) in
      let st := set_host h st in
      let st := match pipFrame (sinks st) with
                | Some _ =>
                    let (_, h) := requestAnimationFrame (PipFrameWrite content) (host st) in
                    set_host h st
                | None => st
                end in
      match fullscreenOverlay (sinks st) with
      | Some _ =>
          let (_, h) := requestAnimationFrame (FullscreenFrameWrite content) (host st) in
          set_host h st
      | None => st
      end
  | (Sass.Thrown _, sass') => emit (Uncaught Primary) (set_sass sass' st)
  end.

Definition run_task (els : list StyleLookup) (t : Task) (st : state) : state :=
  match t with
  | UpdatePreviewJob => updatePreview st
  | RestoreRefreshButton => st
  | StartMonitoringJob => startMonitoring st
  | PreviewFrame => previewFrameCallback st
  | PipFrameWrite content =>
      renderPreviewContentToFrame Floating (pipFrame (sinks st)) content st
  | FullscreenFrameWrite content =>
      match fullscreenOverlay (sinks st) with
      | None => emit (Uncaught Fullscreen) st
      | Some None => st
      | Some (Some frame) => renderPreviewContentToFrame Fullscreen (Some frame) content st
      end
  | MonitorFrame => monitorCallback els st
  end.

(** ** The host's event loop

    A tick is one millisecond: the timers that are due run in the order
    of their due times, a timer cleared by an earlier one does not run.
    An animation frame runs the callbacks requested before it. *)

Fixpoint insert_by_due (t : Timer) (l : list Timer) : list Timer :=
  match l with
  | [] => [t]
  | t' :: l' => if (due t <? due t')%Z then t :: l else t' :: insert_by_due t l'
  end.
Definition sort_by_due (l : list Timer) : list Timer := fold_right insert_by_due [] l.

Definition due_timers (h : Host) : list Timer :=
  sort_by_due (filter (fun t => (due t <=? now h)%Z) (timers h)).

Fixpoint fire (ts : list Timer) (st : state) : state :=
  match ts with
  | [] => st
  | t :: ts' =>
      if existsb (fun t' => (timerId t' =? timerId t)%nat) (timers (host st))
      then fire ts' (run_task [] (timerTask t) (set_host (clearTimeout (timerId t) (host st)) st))
      else fire ts' st
  end.

Definition advance (h : Host) : Host :=
  {| now := (now h + 1)%Z;
     nextTimerId := nextTimerId h;
     timers := timers h;
     nextRequestId := nextRequestId h;
     frameRequests := frameRequests h |}.

Definition tick (st : state) : state :=
  let st := set_host (advance (host st)) st in
  fire (due_timers (host st)) st.

Definition take_requests (h : Host) : Host :=
  {| now := now h;
     nextTimerId := nextTimerId h;
     timers := timers h;
     nextRequestId := nextRequestId h;
     frameRequests := [] |}.

Definition animationFrame (els : list StyleLookup) (st : state) : state :=
  let requests := frameRequests (host st) in
  fold_left (fun st r => run_task els (requestTask r) st) requests
            (set_host (take_requests (host st)) st).

(** What the user and the host do to the view.  Opening and closing the
    floating and the fullscreen preview are reduced to the change of
    [pipFrame] and [fullscreenOverlay]. *)
Inductive Event :=
| Edit (html css : jsstring)
| ToggleSassMode
| ManualRefresh
| ChangeSettings (s : Settings)
| Tick
| AnimationFrame (els : list StyleLookup)
| SetPreviewFrame (f : FrameStatus)
| SetPip (f : option FrameStatus)
| SetFullscreen (o : option (option FrameStatus))
| Cleanup.

Definition step (st : state) (e : Event) : state :=
  match e with
  | Edit html css => onContentChange html css st
  | ToggleSassMode =>
      let st := set_sass (Sass.set_mode (negb (Sass.isSassMode (sass st))) (sass st)) st in
      onContentChange (htmlContent st) (cssContent st) st
  | ManualRefresh => manualRefreshPreview st
  | ChangeSettings s => applySettings (set_settings s st)
  | Tick => tick st
  | AnimationFrame els => animationFrame els st
  | SetPreviewFrame f =>
      set_sinks {| previewFrame := f; previewHasWindow := previewHasWindow (sinks st);
                   pipFrame := pipFrame (sinks st);
                   fullscreenOverlay := fullscreenOverlay (sinks st) |} st
  | SetPip f =>
      set_sinks {| previewFrame := previewFrame (sinks st);
                   previewHasWindow := previewHasWindow (sinks st);
                   pipFrame := f;
                   fullscreenOverlay := fullscreenOverlay (sinks st) |} st
  | SetFullscreen o =>
      set_sinks {| previewFrame := previewFrame (sinks st);
                   previewHasWindow := previewHasWindow (sinks st);
                   pipFrame := pipFrame (sinks st);
                   fullscreenOverlay := o |} st
  | Cleanup => stopMonitoring (clearUpdateTimeout st)
  end.

Definition run (evs : list Event) (st : state) : state := fold_left step evs st.
End Run.

Definition DEFAULT_SETTINGS : Settings :=
  {| autoRefresh := true; refreshDelay := 300; previewBackground := js "#ffffff" |}.

(** A view that has been opened and has finished its first render. *)
Definition initial : state :=
  {| host := {| now := 0; nextTimerId := 1; timers := [];
                nextRequestId := 1; frameRequests := [] |};
     settings := DEFAULT_SETTINGS;
     sinks := {| previewFrame := Healthy; previewHasWindow := true;
                 pipFrame := None; fullscreenOverlay := None |};
     htmlContent := [];
     cssContent := [];
     updateTimeout := None;
     sass := Sass.initial;
     monitor := {| animations := []; rafId := None |};
     output := [] |}.

End View.

(** ** The error page

    Lines 1148-1212 of [HTMLCSSEditorView.ts]: [generateErrorContent] and
    [escapeHtml], with the part of the DOM that [escapeHtml] uses. *)
Module Dom.
Import JS.

(** A text node or an element with its children. *)
Unset Elimination Schemes.
Inductive Node :=
| Text (data : jsstring)
| Element (tagName : jsstring) (children : list Node).
Set Elimination Schemes.

Definition createElement (tagName : jsstring) : Node := Element tagName [].

(** The getter of [textContent]: the data of the text nodes below the
    node, in tree order. *)
Fixpoint textContent (n : Node) : jsstring :=
  match n with
  | Text data => data
  | Element _ children => concat (map textContent children)
  end.

(** The setter: the children are replaced by one text node holding the
    value, or by nothing when the value is empty. *)
Definition set_textContent (value : jsstring) (n : Node) : Node :=
  match n with
  | Text _ => Text value
  | Element tagName _ => Element tagName (if truthy value then [Text value] else [])
  end.

End Dom.

Module ErrorPage.
Import JS Assembler Dom.

(** What [renderPreviewError] is given: an [Error] with its [message],
    or another value with what [String] makes of it. *)
Inductive Caught :=
| ErrorObject (message : jsstring)
| OtherValue (asString : jsstring).

(** [error instanceof Error ? error.message : String(error)] *)
Definition errorMessage (error : Caught) : jsstring :=
  match error with
  | ErrorObject message => message
  | OtherValue asString => asString
  end.

Definition escapeHtml (text : jsstring) : jsstring :=
  let div := createElement (js "div") in
  let div := set_textContent text div in
  if truthy (textContent div) then textContent div else [].

(* from the start of the template to the background colour *)
Definition error_head : jsstring :=
  lines
    ([""; 
     "<!DOCTYPE html>";
     "<html lang=`en`>";
     "<head>";
     "    <meta charset=`UTF-8`>";
     "    <meta name=`viewport` content=`width=device-width, initial-scale=1.0`>";
     "    <title>Preview Error</title>";
     "    <style>";
     "        body {";
     "            margin: 0;";
     "            padding: 20px;";
     "            font-family: -apple-system, BlinkMacSystemFont, 'Segoe UI', Roboto, sans-serif;";
     "            background-color: "])%string.

(* the rest of the styles, up to the message *)
Definition error_mid : jsstring :=
  lines
    ([";";
     "            color: #333;";
     "        }";
     "        .error-container {";
     "            background: #fee;";
     "            border: 1px solid #fcc;";
     "            border-radius: 4px;";
     "            padding: 16px;";
     "            margin: 16px 0;";
     "        }";
     "        .error-title {";
     "            color: #c33;";
     "            font-weight: bold;";
     "            margin-bottom: 8px;";
     "        }";
     "        .error-message {";
     "            font-family: monospace;";
     "            font-size: 14px;";
     "            white-space: pre-wrap;";
     "        }";
     "    </style>";
     "</head>";
     "<body>";
     "    <div class=`error-container`>";
     "        <div class=`error-title`>Preview Error</div>";
     "        <div class=`error-message`>"])%string.

Definition error_tail : jsstring :=
  lines
    (["</div>";
     "    </div>";
     "</body>";
     "</html>"])%string.

Definition generateErrorContent (previewBackground errorMessage : jsstring) : jsstring :=
  error_head ++ previewBackground ++ error_mid ++ escapeHtml errorMessage ++ error_tail.

(** The document that [renderPreviewError] writes. *)
Definition errorContent (previewBackground : jsstring) (error : Caught) : jsstring :=
  generateErrorContent previewBackground (errorMessage error).

End ErrorPage.

(** ** The style sanitizer of the export

    [sanitizeCSS] of [export.ts], lines 138-152: the four patterns of
    [validateAndSanitizeCSS], each with a replacement text of its own. *)
Module ExportStyle.
Import JS Regex Sanitizer.

Definition import_comment : jsstring := js "/* @import removed for security */".
Definition javascript_comment : jsstring := js "/* javascript: removed */".
Definition expression_comment : jsstring := js "/* expression() removed */".
Definition behavior_comment : jsstring := js "/* behavior: removed */".

(** The text before the last [replace]. *)
Definition before_behavior (css : jsstring) : jsstring :=
  replace re_expression expression_comment
    (replace re_javascript javascript_comment
       (replace re_import import_comment css)).

Definition sanitizeCSS (css : jsstring) : jsstring :=
  if negb (truthy css) || negb (truthy (trim css)) then js "/* No CSS content */"
  else replace re_behavior behavior_comment (before_behavior css).

End ExportStyle.

(** ** Regular expressions with groups

    The patterns of [export.ts], of [findAnimations] and of
    [extractSassVariables] use capturing groups, alternatives, a
    back-reference, counted repetition and anchors.  [m] is the
    backtracking matcher of the language specification in
    continuation-passing style: the continuation gets the index reached,
    the rest of the input and the captures.  Quantifiers apply to
    character classes; the classes of the patterns hold ASCII characters
    only, for which [Canonicalize] of the flag [i] is the change of letter
    case. *)
Module Rx.
Import JS.
Local Open Scope N_scope.

Inductive cls :=
| Chr (c : code_unit)
| Range (lo hi : code_unit)
| Space
| Digit
| Any
| Or (a b : cls)
| Not (a : cls).

(** The other case of an ASCII letter. *)
Definition swapcase (u : code_unit) : code_unit :=
  if (65 <=? u) && (u <=? 90) then u + 32
  else if (97 <=? u) && (u <=? 122) then u - 32
  else u.

(** [i] is the flag [i]. *)
Fixpoint member (i : bool) (c : cls) (u : code_unit) : bool :=
  match c with
  | Chr a => (a =? u) || (i && (a =? swapcase u))
  | Range lo hi =>
      ((lo <=? u) && (u <=? hi)) || (i && ((lo <=? swapcase u) && (swapcase u <=? hi)))
  | Space => isWhiteSpace u
  | Digit => (48 <=? u) && (u <=? 57)
  | Any => true
  | Or a b => member i a u || member i b u
  | Not a => negb (member i a u)
  end.

(** [Eps] is the empty pattern, [Rep c min max greedy] a quantified
    class ([max] is [None] for no bound), [Opt a] is [(?:a)?], [Group n a]
    the [n]-th capturing group, [Ref n] the back-reference [\n], [Bol] and
    [Eol] are [^] and [$]. *)
Inductive rx :=
| Eps
| One (c : cls)
| Rep (c : cls) (min : nat) (max : option nat) (greedy : bool)
| Seq (a b : rx)
| Alt (a b : rx)
| Opt (a : rx)
| Group (n : nat) (a : rx)
| Ref (n : nat)
| Bol
| Eol.

Definition seq (l : list rx) : rx := fold_right Seq Eps l.
Definition lit (w : string) : rx := seq (map (fun u => One (Chr u)) (js w)).
Definition star (c : cls) : rx := Rep c 0 None true.
Definition star_lazy (c : cls) : rx := Rep c 0 None false.
Definition plus (c : cls) : rx := Rep c 1 None true.
Definition opt (c : cls) : rx := Rep c 0 (Some 1%nat) true.
Definition times (n : nat) (c : cls) : rx := Rep c n (Some n) true.

(** The captures, the latest first. *)
Definition caps := list (nat * jsstring).
Fixpoint cap_get (n : nat) (c : caps) : option jsstring :=
  match c with
  | [] => None
  | (n', v) :: c' => if (n =? n')%nat then Some v else cap_get n c'
  end.
Definition cap_set (n : nat) (v : jsstring) (c : caps) : caps := (n, v) :: c.

(** The index where the match ends, and the captures. *)
Definition result : Type := nat * caps.
Definition cont : Type := nat -> jsstring -> caps -> option result.

Definition exhausted (max : option nat) : bool :=
  match max with Some O => true | _ => false end.
Definition dec (max : option nat) : option nat := option_map pred max.

Section Match.
Variable i : bool.

(** [s] starts with [w], up to letter case under the flag [i]. *)
Fixpoint same (w s : jsstring) : bool :=
  match w with
  | [] => true
  | a :: w' =>
      match s with
      | u :: s' => ((a =? u) || (i && (a =? swapcase u))) && same w' s'
      | [] => false
      end
  end.

Fixpoint rep_greedy (c : cls) (min : nat) (max : option nat)
    (k : nat -> jsstring -> option result) (n : nat) (s : jsstring) {struct s}
  : option result :=
  if exhausted max then k n s
  else
    let stop := match min with O => k n s | S _ => None end in
    match s with
    | u :: s' =>
        if member i c u then
          match rep_greedy c (pred min) (dec max) k (S n) s' with
          | Some r => Some r
          | None => stop
          end
        else stop
    | [] => stop
    end.

Fixpoint rep_lazy (c : cls) (min : nat) (max : option nat)
    (k : nat -> jsstring -> option result) (n : nat) (s : jsstring) {struct s}
  : option result :=
  if exhausted max then k n s
  else
    let more := match s with
                | u :: s' =>
                    if member i c u then rep_lazy c (pred min) (dec max) k (S n) s' else None
                | [] => None
                end in
    match min with
    | O => match k n s with Some r => Some r | None => more end
    | S _ => more
    end.

Fixpoint m (r : rx) (k : cont) (idx : nat) (s : jsstring) (c : caps) {struct r}
  : option result :=
  match r with
  | Eps => k idx s c
  | One cl =>
      match s with
      | u :: s' => if member i cl u then k (S idx) s' c else None
      | [] => None
      end
  | Rep cl min max greedy =>
      (if greedy then rep_greedy else rep_lazy) cl min max (fun n s' => k n s' c) idx s
  | Seq a b => m a (m b k) idx s c
  | Alt a b =>
      match m a k idx s c with
      | Some r => Some r
      | None => m b k idx s c
      end
  | Opt a =>
      match m a (fun idx' s' c' => if (idx' =? idx)%nat then None else k idx' s' c') idx s c with
      | Some r => Some r
      | None => k idx s c
      end
  | Group n a =>
      m a (fun idx' s' c' => k idx' s' (cap_set n (firstn (idx' - idx) s) c')) idx s c
  | Ref n =>
      match cap_get n c with
      | None => k idx s c
      | Some w => if same w s then k (idx + length w)%nat (skipn (length w) s) c else None
      end
  | Bol => if (idx =? 0)%nat then k idx s c else None
  | Eol => match s with [] => k idx s c | _ :: _ => None end
  end.

(** What [exec] returns: [index], [match[0]] and the groups. *)
Record Match := { index : nat; matched : jsstring; groups : caps }.

(** [match[n]]; a group that took no part reads as the empty string
    where the code uses it. *)
Definition group (n : nat) (mt : Match) : jsstring :=
  match cap_get n (groups mt) with Some v => v | None => [] end.

(** The match that starts at [idx], where [s] is the input from [idx]
    on. *)
Definition match_here (r : rx) (idx : nat) (s : jsstring) : option Match :=
  match m r (fun idx' _ c => Some (idx', c)) idx s [] with
  | Some (idx', c) => Some {| index := idx; matched := firstn (idx' - idx) s; groups := c |}
  | None => None
  end.

(** The first match at or after [idx]. *)
Fixpoint search (r : rx) (idx : nat) (s : jsstring) : option Match :=
  match match_here r idx s with
  | Some mt => Some mt
  | None => match s with _ :: s' => search r (S idx) s' | [] => None end
  end.

(** [re.test(s)] for a pattern whose [lastIndex] is 0. *)
Definition test (r : rx) (s : jsstring) : bool :=
  match search r 0 s with Some _ => true | None => false end.

(** [s.replace(re, f)] with the flag [g]: [f] gives the text put in
    place of each match.  [skip] counts the characters of the current
    match still to drop; after an empty match the next character is
    copied. *)
Fixpoint replace_from (r : rx) (f : Match -> jsstring) (skip idx : nat) (s : jsstring)
  : jsstring :=
  match skip with
  | S k => match s with _ :: s' => replace_from r f k (S idx) s' | [] => [] end
  | O =>
      match match_here r idx s with
      | Some mt =>
          f mt ++ match s with
                  | u :: s' =>
                      match length (matched mt) with
                      | O => u :: replace_from r f 0 (S idx) s'
                      | S k => replace_from r f k (S idx) s'
                      end
                  | [] => []
                  end
      | None => match s with u :: s' => u :: replace_from r f 0 (S idx) s' | [] => [] end
      end
  end.
Definition replace_fn (r : rx) (f : Match -> jsstring) (s : jsstring) : jsstring :=
  replace_from r f 0 0 s.

(** The loop [while ((match = re.exec(s)) !== null)] with the flag [g],
    starting with [lastIndex] 0: the matches in order, or [None] when the
    loop does not end (after an empty match [lastIndex] stays where it
    is, and [exec] finds the same match again). *)
Fixpoint exec_from (r : rx) (skip idx : nat) (s : jsstring) : option (list Match) :=
  match skip with
  | S k => match s with _ :: s' => exec_from r k (S idx) s' | [] => Some [] end
  | O =>
      match match_here r idx s with
      | Some mt =>
          match length (matched mt) with
          | O => None
          | S k =>
              match s with
              | _ :: s' => option_map (cons mt) (exec_from r k (S idx) s')
              | [] => Some [mt]
              end
          end
      | None => match s with _ :: s' => exec_from r 0 (S idx) s' | [] => Some [] end
      end
  end.
Definition exec_all (r : rx) (s : jsstring) : option (list Match) := exec_from r 0 0 s.

End Match.

(** The replacement text of [replace] when it is a string: [$$] is a
    dollar sign, [$&] the match, [$n] with one digit the [n]-th group when
    the pattern has that many ([groups_count]), and anything else stands
    for itself. *)
Fixpoint substitute (groups_count : nat) (template : jsstring) (mt : Match) : jsstring :=
  match template with
  | [] => []
  | u :: t =>
      if u =? 36 then
        match t with
        | d :: t' =>
            if d =? 36 then 36 :: substitute groups_count t' mt
            else if d =? 38 then matched mt ++ substitute groups_count t' mt
            else if (49 <=? d) && (d <=? 57)
                    && (N.to_nat (d - 48) <=? groups_count)%nat
                 then group (N.to_nat (d - 48)) mt ++ substitute groups_count t' mt
                 else u :: substitute groups_count t mt
        | [] => [u]
        end
      else u :: substitute groups_count t mt
  end.

Definition replace_str (i : bool) (r : rx) (groups_count : nat) (template s : jsstring)
  : jsstring :=
  replace_fn i r (substitute groups_count template) s.

End Rx.

(** ** The export

    [export.ts]: [sanitizeHTML] (lines 112-133), [generateCompleteHTML]
    (lines 68-107), [getHTMLPreview] (lines 226-231) and the file name of
    [saveWithCustomName] (lines 205-221).  The style sanitizer is
    [ExportStyle.sanitizeCSS]. *)
Module ExportMarkup.
Import JS Assembler Rx.
Local Open Scope N_scope.

Definition gt : cls := Chr 62.

(* /<script[^>]*>([\s\S]*?)<\/script>/gi *)
Definition re_script : rx :=
  seq [lit "<script"; star (Not gt); One gt; Group 1 (star_lazy Any); lit "</script>"].
(* /<iframe[^>]*>[\s\S]*?<\/iframe>/gi *)
Definition re_iframe : rx :=
  seq [lit "<iframe"; star (Not gt); One gt; star_lazy Any; lit "</iframe>"].
(* /<(object|embed)[^>]*>[\s\S]*?<\/\1>/gi *)
Definition re_object_embed : rx :=
  seq [lit "<"; Group 1 (Alt (lit "object") (lit "embed")); star (Not gt); One gt;
       star_lazy Any; lit "</"; Ref 1; lit ">"].
(* /<embed[^>]*>/gi *)
Definition re_embed : rx := seq [lit "<embed"; star (Not gt); One gt].

(** [(match, content) => `<!-- Script removed for security: ${content.trim()} -->`] *)
Definition script_comment (mt : Match) : jsstring :=
  js "<!-- Script removed for security: " ++ trim (group 1 mt) ++ js " -->".

Definition iframe_comment : jsstring := js "<!-- Iframe removed for security -->".
Definition tag_comment : jsstring := js "<!-- $1 removed for security -->".
Definition embed_comment : jsstring := js "<!-- Embed removed for security -->".

Definition sanitizeHTML (html : jsstring) : jsstring :=
  if negb (truthy html) || negb (truthy (trim html)) then js "<p><em>No HTML content</em></p>"
  else
    let sanitized := replace_fn true re_script script_comment html in
    let sanitized := replace_str true re_iframe 0 iframe_comment sanitized in
    let sanitized := replace_str true re_object_embed 1 tag_comment sanitized in
    replace_str true re_embed 0 embed_comment sanitized.

(* from the doctype to the time stamp *)
Definition export_head : jsstring :=
  lines
    (["<!DOCTYPE html>";
     "<html lang=`en`>";
     "<head>";
     "    <meta charset=`UTF-8`>";
     "    <meta name=`viewport` content=`width=device-width, initial-scale=1.0`>";
     "    <meta name=`generator` content=`Obsidian HTML/CSS Editor Plugin`>";
     "    <meta name=`created` content=`"])%string.

(* the base styles, up to the user CSS *)
Definition export_base : jsstring :=
  lines
    (["`>";
     "    <title>HTML/CSS Export</title>";
     "    <style>";
     "        /* Base styles for better rendering */";
     "        * {";
     "            box-sizing: border-box;";
     "        }";
     "        ";
     "        body {";
     "            margin: 0;";
     "            padding: 16px;";
     "            font-family: -apple-system, BlinkMacSystemFont, 'Segoe UI', Roboto, Oxygen, Ubuntu, Cantarell, sans-serif;";
     "            line-height: 1.6;";
     "            color: #333;";
     "            background-color: #fff;";
     "        }";
     "        ";
     "        /* User CSS */";
     "        "])%string.

Definition export_body_open : jsstring :=
  lines
    ([""; 
     "    </style>";
     "</head>";
     "<body>";
     "    "])%string.

Definition export_tail : jsstring :=
  lines
    ([""; 
     "</body>";
     "</html>"])%string.

(** [timestamp] is [new Date().toISOString()]. *)
Definition generateCompleteHTML (timestamp htmlContent cssContent : jsstring) : jsstring :=
  let cleanHTML := sanitizeHTML htmlContent in
  let cleanCSS := ExportStyle.sanitizeCSS cssContent in
  export_head ++ timestamp ++ export_base ++ cleanCSS ++ export_body_open ++ cleanHTML
  ++ export_tail.

Definition getHTMLPreview (timestamp htmlContent cssContent : jsstring) : jsstring :=
  let completeHTML := generateCompleteHTML timestamp htmlContent cssContent in
  if (500 <? length completeHTML)%nat then firstn 500 completeHTML ++ js "..."
  else completeHTML.

(* the class of the pattern of [saveWithCustomName]: less-than, greater-than,
   colon, double quote, slash, backslash, bar, question mark and star *)
Definition forbidden : cls :=
  Or (Chr 60) (Or (Chr 62) (Or (Chr 58) (Or (Chr 34) (Or (Chr 47) (Or (Chr 92)
    (Or (Chr 124) (Or (Chr 63) (Chr 42)))))))).

(** [s.toLowerCase().endsWith(w)] for an ASCII [w] in lower case: no
    character outside ASCII has one of the characters of [.html] as its
    lower case, so only the last characters of [s] and their ASCII lower
    case matter. *)
Definition lower (u : code_unit) : code_unit :=
  if (65 <=? u) && (u <=? 90) then u + 32 else u.
Definition endsWith_lower (s w : jsstring) : bool :=
  (length w <=? length s)%nat
  && eqb_str (map lower (skipn (length s - length w) s)) w.

(** The name [saveWithCustomName] saves under. *)
Definition finalFilename (filename : jsstring) : jsstring :=
  let finalFilename :=
    if negb (endsWith_lower filename (js ".html")) then filename ++ js ".html"
    else filename in
  replace_str false (One forbidden) 0 (js "-") finalFilename.

End ExportMarkup.

(** ** The animations found in a style text

    [findAnimations] and [createAnimationDecorations], lines 460-507 of
    [part_000]. *)
Module Animations.
Import JS Rx.
Local Open Scope N_scope.

(* [a-zA-Z0-9_-] *)
Definition ident : cls :=
  Or (Range 97 122) (Or (Range 65 90) (Or (Range 48 57) (Or (Chr 95) (Chr 45)))).
(* [0-9.] *)
Definition number : cls := Or (Range 48 57) (Chr 46).

(* /@keyframes\s+([a-zA-Z0-9_-]+)/g *)
Definition keyframesRegex : rx := seq [lit "@keyframes"; plus Space; Group 1 (plus ident)].
(* /animation\s*:\s*([a-zA-Z0-9_-]+)\s+([0-9.]+s)/g *)
Definition animationRegex : rx :=
  seq [lit "animation"; star Space; lit ":"; star Space; Group 1 (plus ident); plus Space;
       Group 2 (seq [plus number; lit "s"])].

Record Animation := { from : nat; to : nat; name : jsstring; duration : jsstring }.

Definition keyframes_entry (mt : Match) : Animation :=
  {| from := index mt; to := index mt + length (matched mt);
     name := group 1 mt; duration := js "keyframes" |}.
Definition animation_entry (mt : Match) : Animation :=
  {| from := index mt; to := index mt + length (matched mt);
     name := group 1 mt; duration := group 2 mt |}.

(** [None] when one of the two loops does not end. *)
Definition findAnimations (text : jsstring) : option (list Animation) :=
  match exec_all false keyframesRegex text with
  | Some ks =>
      match exec_all false animationRegex text with
      | Some anims => Some (map keyframes_entry ks ++ map animation_entry anims)
      | None => None
      end
  | None => None
  end.

(** The positions at which [createAnimationDecorations] puts a timeline
    widget, in the order in which they are given to [Decoration.set]. *)
Definition widget_positions (text : jsstring) : option (list nat) :=
  match findAnimations text with
  | Some animations =>
      Some (map to (filter (fun a => negb (eqb_str (duration a) (js "keyframes"))) animations))
  | None => None
  end.

End Animations.

(** ** The variables of a Sass text

    [extractSassVariables], lines 2074-2087 of [HTMLCSSEditorView.ts]. *)
Module SassVariables.
Import JS Rx.
Local Open Scope N_scope.

(* [a-zA-Z_-] *)
Definition name_char : cls := Or (Range 97 122) (Or (Range 65 90) (Or (Chr 95) (Chr 45))).
(* [^;] *)
Definition not_semicolon : cls := Not (Chr 59).

(* /\$([a-zA-Z_-]+)\s*:\s*([^;]+);/g *)
Definition regex : rx :=
  seq [lit "$"; Group 1 (plus name_char); star Space; lit ":"; star Space;
       Group 2 (plus not_semicolon); lit ";"].

Record Variable_ := { label : jsstring; value : jsstring }.

Definition entry (mt : Match) : Variable_ :=
  {| label := js "$" ++ group 1 mt; value := trim (group 2 mt) |}.

(** [None] when the loop does not end. *)
Definition extractSassVariables (content : jsstring) : option (list Variable_) :=
  option_map (map entry) (exec_all false regex content).

End SassVariables.

(** ** The settings

    [part_001]: [DEFAULT_SETTINGS] (lines 486-500) and the class
    [SettingsValidator] (lines 508-782); [part_002]: [saveSettings]
    (lines 96-108).

    Numbers are binary64 floats.  A stored value is what [JSON.parse]
    gives or what the settings tab passes on.  Arrays and objects are one
    constructor; the validator tells them apart in one respect only,
    whether they can be converted to a primitive value.  An object read
    from JSON cannot when it has a property named [toString] (which is no
    function), and an array cannot when it holds such an object: a
    template literal or a comparison that needs the conversion then throws
    a [TypeError], and the [catch] branch of the function is taken.  The
    messages that [validateSettings] collects are only logged and are left
    out, but not the conversion that building them takes.

    The time stamps [new Date().toISOString()] are arguments, one for
    each call that is made.  Two library functions are left open, and
    everything holds whatever they return: [toLowerCase] on strings, and
    the comparison [currentVersion < 1] of [migrateSettings] on the values
    that can be converted to a number. *)
Module Settings.
Import JS Rx Floats.
Local Open Scope N_scope.

Inductive value :=
| Undefined
| Null
| Boolean (b : bool)
| Number (x : float)
| Text (s : jsstring)
| Other (convertible : bool).

Record HTMLCSSEditorSettings := {
  autoRefresh : bool;
  refreshDelay : float;
  fontSize : float;
  lineHeight : float;
  showLineNumbers : bool;
  previewPosition : jsstring;
  editorRatio : float;
  theme : jsstring;
  previewBackground : jsstring;
  enableAutocomplete : bool;
  enableCodeFolding : bool;
  version : float;
  lastUpdated : jsstring
}.

(** An object read as [Partial<HTMLCSSEditorSettings>] or [any]: the
    thirteen properties the code reads, [Undefined] when missing. *)
Module Raw.
Record t := {
  autoRefresh : value;
  refreshDelay : value;
  fontSize : value;
  lineHeight : value;
  showLineNumbers : value;
  previewPosition : value;
  editorRatio : value;
  theme : value;
  previewBackground : value;
  enableAutocomplete : value;
  enableCodeFolding : value;
  version : value;
  lastUpdated : value
}.
End Raw.

(** Settings of the declared type, read property by property. *)
Definition as_partial (s : HTMLCSSEditorSettings) : Raw.t :=
  {| Raw.autoRefresh := Boolean (autoRefresh s);
     Raw.refreshDelay := Number (refreshDelay s);
     Raw.fontSize := Number (fontSize s);
     Raw.lineHeight := Number (lineHeight s);
     Raw.showLineNumbers := Boolean (showLineNumbers s);
     Raw.previewPosition := Text (previewPosition s);
     Raw.editorRatio := Number (editorRatio s);
     Raw.theme := Text (theme s);
     Raw.previewBackground := Text (previewBackground s);
     Raw.enableAutocomplete := Boolean (enableAutocomplete s);
     Raw.enableCodeFolding := Boolean (enableCodeFolding s);
     Raw.version := Number (version s);
     Raw.lastUpdated := Text (lastUpdated s) |}.

(* the decimal constants of the source, as the doubles they denote *)
Definition f0_1 : float := 0x1.999999999999ap-4%float.
Definition f0_6 : float := 0x1.3333333333333p-1%float.
Definition f0_9 : float := 0x1.ccccccccccccdp-1%float.
Definition f1_4 : float := 0x1.6666666666666p+0%float.

(** [loaded] is the time at which the module was loaded. *)
Definition DEFAULT_SETTINGS (loaded : jsstring) : HTMLCSSEditorSettings :=
  {| autoRefresh := true;
     refreshDelay := 300%float;
     fontSize := 14%float;
     lineHeight := f1_4;
     showLineNumbers := true;
     previewPosition := js "vertical";
     editorRatio := f0_6;
     theme := js "inherit";
     previewBackground := js "#ffffff";
     enableAutocomplete := true;
     enableCodeFolding := true;
     version := 1%float;
     lastUpdated := loaded |}.

(* [A-Fa-f0-9] *)
Definition hex : cls := Or (Range 65 70) (Or (Range 97 102) (Range 48 57)).
(* [\d.] *)
Definition digit_or_dot : cls := Or Digit (Chr 46).
(* the optional last argument, a comma, blanks, [\d.]+ and blanks *)
Definition alpha : rx := Opt (seq [lit ","; star Space; plus digit_or_dot; star Space]).

(* /^#([A-Fa-f0-9]{6}|[A-Fa-f0-9]{3})$/ *)
Definition hexPattern : rx :=
  seq [Bol; lit "#"; Group 1 (Alt (times 6 hex) (times 3 hex)); Eol].
(* rgbPattern: ^rgba?\( then three \d+ with blanks around them and commas
   between, the optional last argument, \) and $ *)
Definition rgbPattern : rx :=
  seq [Bol; lit "rgb"; opt (Chr 97); lit "("; star Space; plus Digit; star Space; lit ",";
       star Space; plus Digit; star Space; lit ","; star Space; plus Digit; star Space;
       alpha; lit ")"; Eol].
(* hslPattern: the same with hsla? and with % after the second and the third
   number *)
Definition hslPattern : rx :=
  seq [Bol; lit "hsl"; opt (Chr 97); lit "("; star Space; plus Digit; star Space; lit ",";
       star Space; plus Digit; lit "%"; star Space; lit ","; star Space; plus Digit; lit "%";
       star Space; alpha; lit ")"; Eol].

Definition cssColors : list jsstring :=
  map js ["transparent"; "white"; "black"; "red"; "green"; "blue"; "yellow"; "cyan"; "magenta";
          "gray"; "grey"; "silver"; "maroon"; "olive"; "lime"; "aqua"; "teal"; "navy";
          "fuchsia"; "purple";
          "orange"; "pink"; "brown"; "gold"; "violet"; "indigo"; "turquoise"; "tan";
          "khaki"]%string.

(** [!v] is false. *)
Definition truthy_value (v : value) : bool :=
  match v with
  | Undefined | Null => false
  | Boolean b => b
  | Number x => negb (PrimFloat.eqb x 0 || PrimFloat.is_nan x)
  | Text s => truthy s
  | Other _ => true
  end.

(** Converting [v] to a string or to a number throws. *)
Definition conversion_throws (v : value) : bool :=
  match v with Other false => true | _ => false end.

(** [v === x] for a number [x]. *)
Definition is_number (v : value) (x : float) : bool :=
  match v with Number y => PrimFloat.eqb y x | _ => false end.

Section Library.
Variable toLowerCase : jsstring -> jsstring.
Variable less_than_one : value -> bool.

Definition isValidColor (color : jsstring) : bool :=
  if negb (truthy color) then false
  else if test false hexPattern color then true
  else if test false rgbPattern color then true
  else if test false hslPattern color then true
  else existsb (eqb_str (toLowerCase color)) cssColors.

(** The checks of [validateSettings].  A value that fails its check and
    is not [undefined] goes into a message, [`... ${value}`], and the
    conversion this takes can throw: [None] stands for the exception. *)
Definition reported {A} (v : value) (default : A) : option A :=
  match v with
  | Undefined => Some default
  | _ => if conversion_throws v then None else Some default
  end.

Definition boolean_setting (v : value) (default : bool) : option bool :=
  match v with
  | Boolean b => Some b
  | _ => reported v default
  end.

Definition number_setting (v : value) (lo hi default : float) : option float :=
  match v with
  | Number x => Some (if PrimFloat.leb lo x && PrimFloat.leb x hi then x else default)
  | _ => reported v default
  end.

Definition enum_setting (v : value) (allowed : list jsstring) (default : jsstring)
  : option jsstring :=
  match v with
  | Text s => Some (if existsb (eqb_str s) allowed then s else default)
  | _ => reported v default
  end.

Definition color_setting (v : value) (default : jsstring) : option jsstring :=
  match v with
  | Text s => Some (if isValidColor s then s else default)
  | _ => reported v default
  end.

Definition version_setting (v : value) (default : float) : float :=
  match v with
  | Number x => if PrimFloat.ltb 0 x then x else default
  | _ => default
  end.

Local Notation "x <- c ;; k" := (match c with Some x => k | None => None end)
  (at level 61, c at next level, right associativity).

(** The body of the [try] block; [now] is the time at which it ends. *)
Definition validated_settings (loaded now : jsstring) (settings : Raw.t)
  : option HTMLCSSEditorSettings :=
  let validated := DEFAULT_SETTINGS loaded in
  autoRefresh' <- boolean_setting (Raw.autoRefresh settings) (autoRefresh validated) ;;
  showLineNumbers' <-
    boolean_setting (Raw.showLineNumbers settings) (showLineNumbers validated) ;;
  enableAutocomplete' <-
    boolean_setting (Raw.enableAutocomplete settings) (enableAutocomplete validated) ;;
  enableCodeFolding' <-
    boolean_setting (Raw.enableCodeFolding settings) (enableCodeFolding validated) ;;
  refreshDelay' <-
    number_setting (Raw.refreshDelay settings) 100 2000 (refreshDelay validated) ;;
  fontSize' <- number_setting (Raw.fontSize settings) 10 24 (fontSize validated) ;;
  lineHeight' <- number_setting (Raw.lineHeight settings) 1 2 (lineHeight validated) ;;
  editorRatio' <-
    number_setting (Raw.editorRatio settings) f0_1 f0_9 (editorRatio validated) ;;
  previewPosition' <-
    enum_setting (Raw.previewPosition settings) [js "vertical"; js "horizontal"]
      (previewPosition validated) ;;
  theme' <-
    enum_setting (Raw.theme settings) [js "inherit"; js "light"; js "dark"]
      (theme validated) ;;
  previewBackground' <-
    color_setting (Raw.previewBackground settings) (previewBackground validated) ;;
  Some {| autoRefresh := autoRefresh';
          refreshDelay := refreshDelay';
          fontSize := fontSize';
          lineHeight := lineHeight';
          showLineNumbers := showLineNumbers';
          previewPosition := previewPosition';
          editorRatio := editorRatio';
          theme := theme';
          previewBackground := previewBackground';
          enableAutocomplete := enableAutocomplete';
          enableCodeFolding := enableCodeFolding';
          version := version_setting (Raw.version settings) (version validated);
          lastUpdated := now |}.

(** [with_time now s] is [{ ...s, lastUpdated: now }]. *)
Definition with_time (now : jsstring) (s : HTMLCSSEditorSettings) : HTMLCSSEditorSettings :=
  {| autoRefresh := autoRefresh s;
     refreshDelay := refreshDelay s;
     fontSize := fontSize s;
     lineHeight := lineHeight s;
     showLineNumbers := showLineNumbers s;
     previewPosition := previewPosition s;
     editorRatio := editorRatio s;
     theme := theme s;
     previewBackground := previewBackground s;
     enableAutocomplete := enableAutocomplete s;
     enableCodeFolding := enableCodeFolding s;
     version := version s;
     lastUpdated := now |}.

(** [now] is the time of the one call of [new Date()] that is made: at
    the end of the [try] block, or in the [catch] block. *)
Definition validateSettings (loaded now : jsstring) (settings : Raw.t)
  : HTMLCSSEditorSettings :=
  match validated_settings loaded now settings with
  | Some validated => validated
  | None => with_time now (DEFAULT_SETTINGS loaded)
  end.

(** [if (migrated.version === undefined) ...; if (migrated.lastUpdated
    === undefined) ...] *)
Definition migrateToVersion1 (now : jsstring) (settings : Raw.t) : Raw.t :=
  let version' :=
    match Raw.version settings with Undefined => Number 1 | v => v end in
  let lastUpdated' :=
    match Raw.lastUpdated settings with Undefined => Text now | v => v end in
  {| Raw.autoRefresh := Raw.autoRefresh settings;
     Raw.refreshDelay := Raw.refreshDelay settings;
     Raw.fontSize := Raw.fontSize settings;
     Raw.lineHeight := Raw.lineHeight settings;
     Raw.showLineNumbers := Raw.showLineNumbers settings;
     Raw.previewPosition := Raw.previewPosition settings;
     Raw.editorRatio := Raw.editorRatio settings;
     Raw.theme := Raw.theme settings;
     Raw.previewBackground := Raw.previewBackground settings;
     Raw.enableAutocomplete := Raw.enableAutocomplete settings;
     Raw.enableCodeFolding := Raw.enableCodeFolding settings;
     Raw.version := version';
     Raw.lastUpdated := lastUpdated' |}.

(** [migratedSettings.version = latestVersion; migratedSettings.lastUpdated
    = new Date().toISOString()] *)
Definition stamp (latestVersion : float) (now : jsstring) (settings : Raw.t) : Raw.t :=
  {| Raw.autoRefresh := Raw.autoRefresh settings;
     Raw.refreshDelay := Raw.refreshDelay settings;
     Raw.fontSize := Raw.fontSize settings;
     Raw.lineHeight := Raw.lineHeight settings;
     Raw.showLineNumbers := Raw.showLineNumbers settings;
     Raw.previewPosition := Raw.previewPosition settings;
     Raw.editorRatio := Raw.editorRatio settings;
     Raw.theme := Raw.theme settings;
     Raw.previewBackground := Raw.previewBackground settings;
     Raw.enableAutocomplete := Raw.enableAutocomplete settings;
     Raw.enableCodeFolding := Raw.enableCodeFolding settings;
     Raw.version := Number latestVersion;
     Raw.lastUpdated := Text now |}.

(** What [loadData] gives: nothing or a value that is no object, or an
    object. *)
Inductive any :=
| NotObject
| Object (properties : Raw.t).

(** [t1], [t2] and [t3] are the times of the three calls of
    [new Date()] on the way.  The comparison [currentVersion < 1] throws
    when the stored version cannot be converted to a number; the [catch]
    block then returns the defaults. *)
Definition migrateSettings (loaded t1 t2 t3 : jsstring) (settings : any)
  : HTMLCSSEditorSettings :=
  match settings with
  | NotObject => DEFAULT_SETTINGS loaded
  | Object settings =>
      let currentVersion :=
        if truthy_value (Raw.version settings) then Raw.version settings else Number 0 in
      let latestVersion := version (DEFAULT_SETTINGS loaded) in
      if is_number currentVersion latestVersion then validateSettings loaded t3 settings
      else
        let migratedSettings := settings in
        if conversion_throws currentVersion then DEFAULT_SETTINGS loaded
        else
          let migratedSettings :=
            if less_than_one currentVersion then migrateToVersion1 t1 migratedSettings
            else migratedSettings in
          let migratedSettings := stamp latestVersion t2 migratedSettings in
          validateSettings loaded t3 migratedSettings
  end.

(* the two messages of a number: for a value that is no number, and for one
   out of range *)
Definition number_errors (v : value) (lo hi : float) (type range : string) : list jsstring :=
  match v with
  | Undefined => []
  | Number x => if PrimFloat.ltb x lo || PrimFloat.ltb hi x then [js range] else []
  | _ => [js type]
  end.

Definition enum_errors (v : value) (allowed : list jsstring) (message : string)
  : list jsstring :=
  match v with
  | Undefined => []
  | Text s => if existsb (eqb_str s) allowed then [] else [jsq message]
  | _ => [jsq message]
  end.

Definition getValidationErrors (settings : Raw.t) : list jsstring :=
  match Raw.autoRefresh settings with
  | Undefined | Boolean _ => []
  | _ => [js "autoRefresh must be a boolean"]
  end
  ++ number_errors (Raw.refreshDelay settings) 100 2000
       "refreshDelay must be a number"
       "refreshDelay must be between 100-2000 milliseconds"
  ++ number_errors (Raw.fontSize settings) 10 24
       "fontSize must be a number" "fontSize must be between 10-24 pixels"
  ++ number_errors (Raw.lineHeight settings) 1 2
       "lineHeight must be a number" "lineHeight must be between 1.0-2.0"
  ++ number_errors (Raw.editorRatio settings) f0_1 f0_9
       "editorRatio must be a number" "editorRatio must be between 0.1-0.9"
  ++ enum_errors (Raw.previewPosition settings) [js "vertical"; js "horizontal"]
       "previewPosition must be `vertical` or `horizontal`"
  ++ enum_errors (Raw.theme settings) [js "inherit"; js "light"; js "dark"]
       "theme must be `inherit`, `light`, or `dark`"
  ++ match Raw.previewBackground settings with
     | Undefined => []
     | Text s =>
         if isValidColor s then [] else [js "previewBackground must be a valid CSS color"]
     | _ => [js "previewBackground must be a valid CSS color"]
     end.

(** [saveSettings], up to the call of [saveData]: the settings that are
    stored.  [t1] is the time inside [validateSettings], [t2] the one
    of [saveSettings]. *)
Definition saveSettings (loaded t1 t2 : jsstring) (settings : HTMLCSSEditorSettings)
  : HTMLCSSEditorSettings :=
  let validated := validateSettings loaded t1 (as_partial settings) in
  {| autoRefresh := autoRefresh validated;
     refreshDelay := refreshDelay validated;
     fontSize := fontSize validated;
     lineHeight := lineHeight validated;
     showLineNumbers := showLineNumbers validated;
     previewPosition := previewPosition validated;
     editorRatio := editorRatio validated;
     theme := theme validated;
     previewBackground := previewBackground validated;
     enableAutocomplete := enableAutocomplete validated;
     enableCodeFolding := enableCodeFolding validated;
     version := version validated;
     lastUpdated := t2 |}.

End Library.
End Settings.
(** * Part II: vocabulary of the specification *)

(** ** Where a pattern can match *)
Module Shape.
Import JS Regex.
Local Open Scope N_scope.

Definition gt : code_unit := 62.

(** Equal under the flag [i]. *)
Definition ceq (p u : code_unit) : bool := canonicalize p =? canonicalize u.

(** [s] starts with [w], in any case. *)
Fixpoint starts_ci (w s : jsstring) : bool :=
  match w with
  | [] => true
  | p :: w' => match s with u :: s' => ceq p u && starts_ci w' s' | [] => false end
  end.

(** [f] holds of [s] or of one of its suffixes. *)
Fixpoint anywhere (f : jsstring -> bool) (s : jsstring) : bool :=
  f s || match s with _ :: s' => anywhere f s' | [] => false end.

Definition occurs_ci (w s : jsstring) : bool := anywhere (starts_ci w) s.

(** [c] occurs after the first [>] of [s]. *)
Fixpoint closes (c s : jsstring) : bool :=
  match s with
  | u :: s' => if u =? gt then occurs_ci c s' else closes c s'
  | [] => false
  end.

(** [w] and [a] differ at a position both have. *)
Fixpoint clash (w a : jsstring) : bool :=
  match w, a with
  | p :: w', u :: a' => negb (ceq p u) || clash w' a'
  | _, _ => false
  end.

(** The non-empty suffixes. *)
Fixpoint tails (s : jsstring) : list jsstring :=
  match s with
  | [] => []
  | _ :: s' => s :: tails s'
  end.

Definition isSome {A} (o : option A) : bool := match o with Some _ => true | None => false end.

(** [o[^>]*>[\s\S]*?c] *)
Definition block (o c : jsstring) : regex :=
  map (fun u => One (Chr u)) o ++ [Star (NotChr gt); One (Chr gt); StarLazy AnyChar]
  ++ map (fun u => One (Chr u)) c.

(** A block can be matched at the head of [s]. *)
Definition opens (o c s : jsstring) : bool := starts_ci o s && closes c s.

(** What makes a pattern usable in the block lemmas. *)
Definition block_like (re : regex) : Prop :=
  (forall s, match_at re s <> Some 0%nat) /\
  (forall s n, match_at re s = Some n -> existsb (fun u => u =? gt) (firstn n s) = true).

(** The replacement text can neither begin nor continue the opening
    token [o] or the closing token [c], and [o] holds no [>]. *)
Definition token_ok (repl o c : jsstring) : bool :=
  forallb (fun p => negb (ceq p gt)) o
  && forallb (fun o' => clash o' repl) (tails o)
  && forallb (clash o) (tails repl)
  && match c with
     | [] => true
     | _ => forallb (fun c' => clash c' repl) (tails c) && forallb (clash c) (tails repl)
     end.

(** The only [>] of the replacement text is its last character. *)
Fixpoint ends_gt (repl : jsstring) : bool :=
  match repl with
  | [] => false
  | u :: r => match r with [] => u =? gt | _ => negb (u =? gt) && ends_gt r end
  end.

Definition charset_of (a : atom) : charset :=
  match a with One cs | Star cs | StarLazy cs | Plus cs => cs end.

(** The atom cannot read [d]. *)
Definition rejects (d : code_unit) (a : atom) : bool := negb (accepts (charset_of a) d).
Definition has (d : code_unit) (s : jsstring) : bool := existsb (fun u => u =? d) s.

(** Not an ASCII letter. *)
Definition plain (d : code_unit) : bool :=
  (d <? 65) || ((90 <? d) && (d <? 97)) || (122 <? d).

End Shape.

(** [String.prototype.includes] *)
Module Includes.
Import JS Shape.
Local Open Scope N_scope.

Fixpoint starts_with (w s : jsstring) : bool :=
  match w with
  | [] => true
  | p :: w' => match s with u :: s' => (p =? u) && starts_with w' s' | [] => false end
  end.
Definition includes (s w : jsstring) : bool := anywhere (starts_with w) s.

End Includes.

(** ** The sanitizer stage by stage, and the texts of the examples *)
Module SanitizerSpec.
Import JS Regex Sanitizer.
Local Open Scope N_scope.

(** The [forEach] of [validateAndSanitizeHTML], unrolled. *)
Definition sanitize_stages (html : jsstring) : jsstring :=
  replace re_form unsafe_element_comment
    (replace re_embed unsafe_element_comment
       (replace re_object unsafe_element_comment
          (replace re_iframe unsafe_element_comment
             (replace re_script unsafe_element_comment html)))).

(** [\s+url\s*\(], what follows [@import] up to the parenthesis. *)
Definition import_rest : regex :=
  [Plus Space] ++ lit "url" ++ [Star Space; One (Chr 40)].

(** The style comment without its first character. *)
Definition css_r1 : jsstring := js "* Unsafe CSS removed */".

(** The [forEach] of [validateAndSanitizeCSS], unrolled. *)
Definition style_stages (css : jsstring) : jsstring :=
  replace re_behavior unsafe_css_comment
    (replace re_expression unsafe_css_comment
       (replace re_javascript unsafe_css_comment
          (replace re_import unsafe_css_comment css))).

Definition script_example : jsstring := js "<script>alert(1)</script><p>ok</p>".
Definition open_form : jsstring := js "<form><input name=q>".

(** A form block whose closing tag lies inside an object block. *)
Definition split_form : jsstring :=
  js "<form action=x><input name=q><object></form></object>".

End SanitizerSpec.

(** ** Cache vocabulary *)
Module SassSpec.
Import JS Sass.

(** The eviction that precedes an insertion. *)
Definition evict (m : Map) : Map :=
  if (10 <? map_size m)%nat
  then match map_first_key m with Some k => map_delete k m | None => m end
  else m.

(** What [compileSass] returns when the compiler throws [e]. *)
Definition fallback (e : Error) (src : jsstring) : jsstring :=
  js "/* Sass compilation error: " ++ or_default (message e) (js "Unknown error")
  ++ js " */" ++ [10%N] ++ src.

Section Compile.
Variable compileString : Compiler.

(** Every cached entry is what an earlier call of the compiler returned
    for its key. *)
Definition cache_sound (st : state) : Prop :=
  forall k v, In (k, v) (sassCache st) ->
    exists n, nth_error (compilerCalls st) n = Some k /\ compileString n k = Returned v.

(** What [compileSass] makes of the answer of the call number [n]. *)
Definition answer (n : nat) (src : jsstring) : jsstring :=
  match compileString n src with
  | Returned css => css
  | Thrown e => fallback e src
  end.

(** Compiling a list of texts one after the other, keeping the results. *)
Fixpoint compile_all (srcs : list jsstring) (st : state) : list (completion jsstring) * state :=
  match srcs with
  | [] => ([], st)
  | s :: srcs' =>
      let (r, st') := compileSass compileString s st in
      let (rs, st'') := compile_all srcs' st' in
      (r :: rs, st'')
  end.

(** The states the view can put the compiler in. *)
Inductive reachable : state -> Prop :=
| reach_initial : reachable initial
| reach_mode st b : reachable st -> reachable (set_mode b st)
| reach_compile st src : reachable st -> reachable (snd (Sass.compileSass compileString src st)).
End Compile.

(** A compiler that answers a text the same way at every call. *)
Definition deterministic (compileString : Compiler) : Prop :=
  forall n n' src, compileString n src = compileString n' src.

Definition sass_on : state := set_mode true initial.

(** The calls made to the compiler by two successive [compileSass src]. *)
Definition calls_of_two (compileString : Compiler)
    (src : jsstring) (st : state) : list jsstring :=
  let st1 := snd (compileSass compileString src st) in
  let st2 := snd (compileSass compileString src st1) in
  skipn (length (compilerCalls st)) (compilerCalls st2).

End SassSpec.

(** ** Scheduler and renderer vocabulary, and the scenarios *)
Module ViewSpec.
Import JS Sanitizer Assembler View.

(** The debounce jobs among the timers. *)
Definition jobs (ts : list Timer) : list Timer :=
  filter (fun t => is_update_job (timerTask t)) ts.
Definition pending_jobs (st : state) : list Timer := jobs (timers (host st)).

(** Every pending debounce job is the one [updateTimeout] refers to. *)
Definition owned (u : option nat) (ts : list Timer) : Prop :=
  Forall (fun t => is_update_job (timerTask t) = true -> u = Some (timerId t)) ts.

(** The tasks that are given to [setTimeout]. *)
Definition timer_task (t : Task) : bool :=
  match t with
  | UpdatePreviewJob | RestoreRefreshButton | StartMonitoringJob => true
  | _ => false
  end.

(** Timer identifiers are distinct and below the next one to be given. *)
Definition Timers_ok (h : Host) : Prop :=
  NoDup (map timerId (timers h))
  /\ Forall (fun t => (timerId t < nextTimerId h)%nat) (timers h)
  /\ Forall (fun t => timer_task (timerTask t) = true) (timers h).

(** The invariant of the scheduler. *)
Definition Inv (st : state) : Prop :=
  (0 < nextTimerId (host st))%nat
  /\ (forall id, updateTimeout st = Some id -> (0 < id)%nat)
  /\ owned (updateTimeout st) (timers (host st))
  /\ (length (pending_jobs st) <= 1)%nat
  /\ Timers_ok (host st).

Definition settings_100 : Settings :=
  {| autoRefresh := true; refreshDelay := 100; previewBackground := js "#ffffff" |}.

(** Edits at t = 0, 10 and 20 ms, then 100 ms of quiet and one frame. *)
Definition burst : list Event :=
  [ChangeSettings settings_100; Edit (js "<p>a</p>") (js ".a{color:red}")]
  ++ repeat Tick 10 ++ [Edit (js "<p>ab</p>") (js ".a{color:red}")]
  ++ repeat Tick 10 ++ [Edit (js "<p>abc</p>") (js ".a{color:red}")]
  ++ repeat Tick 100 ++ [AnimationFrame []].

(** What a render leaves in the primary frame. *)
Definition primary_out (f : FrameStatus) (content : jsstring) : list Output :=
  match f with
  | Healthy => [Wrote Primary content]
  | NoDocument => []
  | Faulty => [ConsoleError Primary]
  end.

(** The content a render generates in state [st]. *)
Definition generated (compileString : Sass.Compiler) (st : state)
  : jsstring :=
  match fst (generatePreviewContent compileString (previewBackground (settings st))
               (htmlContent st) (cssContent st) (sass st)) with
  | Sass.Returned content => content
  | Sass.Thrown _ => []
  end.

(** The requests that will write a frame. *)
Definition is_render (t : Task) : bool :=
  match t with
  | PreviewFrame | PipFrameWrite _ | FullscreenFrameWrite _ => true
  | _ => false
  end.
Definition request_tasks (st : state) : list Task := map requestTask (frameRequests (host st)).
Definition render_requests (st : state) : list Task := filter is_render (request_tasks st).

(** What the callback of a timer requests for the next frame. *)
Definition spawned (window : bool) (t : Task) : list Task :=
  match t with
  | UpdatePreviewJob => [PreviewFrame]
  | StartMonitoringJob => if window then [MonitorFrame] else []
  | _ => []
  end.

(** Nothing the renderer reads or writes has changed. *)
Definition same_view (st st' : state) : Prop :=
  output st' = output st
  /\ htmlContent st' = htmlContent st
  /\ cssContent st' = cssContent st
  /\ settings st' = settings st
  /\ sinks st' = sinks st
  /\ sass st' = sass st
  /\ updateTimeout st' = updateTimeout st.

Definition is_due (t : Z) (tm : Timer) : bool := (due tm <=? t)%Z.

(** The delay of the job scheduled for the texts [html] and [css]. *)
Definition delay_of (base : Z) (html css : jsstring) : Z :=
  Z.max 0 (adaptiveDelay (Z.of_nat (length html + length css)) base).

(** Edits, each followed by a number of milliseconds. *)
Fixpoint burst_events (edits : list (jsstring * jsstring * nat)) : list Event :=
  match edits with
  | [] => []
  | (html, css, gap) :: rest => Edit html css :: repeat Tick gap ++ burst_events rest
  end.

(** Every edit is followed by the next one before its job is due. *)
Definition gaps_short (base : Z) (edits : list (jsstring * jsstring * nat)) : Prop :=
  Forall (fun e => (Z.of_nat (snd e) < delay_of base (fst (fst e)) (snd (fst e)))%Z) edits.

(** A floating preview that is open when the render runs and closed
    before the next animation frame. *)
Definition torn_down : list Event :=
  [SetPip (Some Healthy); Edit (js "<p>Hi</p>") (js ".a{color:red}")] ++ repeat Tick 300.

(** The same for the fullscreen preview. *)
Definition fullscreen_torn_down : list Event :=
  [SetFullscreen (Some (Some Healthy)); Edit (js "<p>Hi</p>") (js ".a{color:red}")]
  ++ repeat Tick 300.


(** What the style lookups of a poll give: without a [contentWindow]
    every one of them throws. *)
Definition lookups (els : list StyleLookup) (st : state) : list StyleLookup :=
  if previewHasWindow (sinks st) then els else map (fun _ => StyleThrows) els.








Definition spin : list StyleLookup := [AnimationName (js "spin")].




End ViewSpec.

(** ** What the cache serves *)
Module CacheSpec.
Import JS Sass SassSpec.

(** The text [src] has been given to the compiler before, in a call that
    returned [css]. *)
Definition answered_before (compileString : Compiler) (st : state) (src css : jsstring)
  : Prop :=
  exists i, nth_error (compilerCalls st) i = Some src /\ compileString i src = Returned css.

(** The cache after the eleven texts of [Stub.eleven]. *)
Definition full_cache : state := snd (compile_all Stub.compileString Stub.eleven sass_on).

End CacheSpec.

(** ** A view in which nothing asks for a render *)
Module QuietSpec.
Import JS View ViewSpec.

(** Edits, clock ticks and animation frames. *)
Definition passive (e : Event) : bool :=
  match e with
  | Edit _ _ | Tick | AnimationFrame _ => true
  | _ => false
  end.

(** Only polls of the monitor are requested for the next frame. *)
Definition polls_only (st : state) : bool := forallb is_monitor (request_tasks st).

(** Automatic refresh is off, no debounce job is pending, no render is
    requested, and the output is [o]. *)
Definition idle (o : list Output) (st : state) : Prop :=
  Inv st /\ autoRefresh (settings st) = false /\ pending_jobs st = []
  /\ polls_only st = true /\ output st = o.

Definition settings_off : Settings :=
  {| autoRefresh := false; refreshDelay := 300; previewBackground := js "#ffffff" |}.
Definition settings_2000 : Settings :=
  {| autoRefresh := true; refreshDelay := 2000; previewBackground := js "#ffffff" |}.

(** A text of 5001 code units. *)
Definition long_text : jsstring := repeat 97%N (N.to_nat 5001).

End QuietSpec.

(** ** Counting with several polling loops *)
Module MonitorSpec.
Import JS View ViewSpec.

(** The frames counted so far for the animation [name]. *)
Definition frames_of (name : jsstring) (m : Samples) : Z :=
  match samples_get name m with
  | Some a => frameCount a
  | None => 0%Z
  end.

(** The selected elements whose animation is [name]. *)
Definition shows (name : jsstring) (l : StyleLookup) : bool :=
  match l with
  | AnimationName n => eqb_str n name
  | StyleThrows => false
  end.
Definition sightings (name : jsstring) (els : list StyleLookup) : nat :=
  length (filter (shows name) els).

Definition no_throw (els : list StyleLookup) : bool :=
  forallb (fun l => match l with StyleThrows => false | AnimationName _ => true end) els.

(** Two renders, 150 ms apart, and the time for both monitors to start. *)
Definition two_renders : list Event :=
  [ManualRefresh; AnimationFrame []] ++ repeat Tick 150
  ++ [ManualRefresh; AnimationFrame []] ++ repeat Tick 100.

End MonitorSpec.

(** ** The documents that reach the frames *)
Module DocumentSpec.
Import JS Sanitizer Assembler View ViewSpec.

(** A document made by [generatePreviewContent]: the shell around a
    sanitized style text and a sanitized markup. *)
Definition assembled (content : jsstring) : Prop :=
  exists bg css html,
    content = document bg (validateAndSanitizeCSS css) (validateAndSanitizeHTML html).

Definition written_ok (o : Output) : Prop :=
  match o with
  | Wrote _ content => assembled content
  | _ => True
  end.

Definition carries_ok (t : Task) : Prop :=
  match t with
  | PipFrameWrite content | FullscreenFrameWrite content => assembled content
  | _ => True
  end.

Definition documents_ok (st : state) : Prop :=
  Forall written_ok (output st) /\ Forall carries_ok (request_tasks st).

(** A script block inside a style text. *)
Definition style_with_script : jsstring := js "</style><script>alert(1)</script><style>".

End DocumentSpec.

(** ** Vocabulary for the grouped patterns *)
Module RxSpec.
Import JS Rx.
Local Open Scope N_scope.

(** The least number of characters a match of the pattern holds. *)
Fixpoint min_len (r : rx) : nat :=
  match r with
  | Eps | Opt _ | Ref _ | Bol | Eol => 0
  | One _ => 1
  | Rep _ min _ _ => min
  | Seq a b => min_len a + min_len b
  | Alt a b => Nat.min (min_len a) (min_len b)
  | Group _ a => min_len a
  end.

(** Every quantifier [{min,max}] has [min <= max], as the syntax of
    patterns demands. *)
Definition bounded (min : nat) (max : option nat) : bool :=
  match max with Some b => (min <=? b)%nat | None => true end.
Fixpoint well_formed (r : rx) : bool :=
  match r with
  | Rep _ min max _ => bounded min max
  | Seq a b | Alt a b => well_formed a && well_formed b
  | Opt a | Group _ a => well_formed a
  | Eps | One _ | Ref _ | Bol | Eol => true
  end.

(** No match of the pattern starts with the character [u]. *)
Fixpoint head_rejects (i : bool) (r : rx) (u : code_unit) : bool :=
  match r with
  | One c => negb (member i c u)
  | Rep c min max _ => (0 <? min)%nat && bounded min max && negb (member i c u)
  | Seq a _ => head_rejects i a u
  | Alt a b => head_rejects i a u && head_rejects i b u
  | Group _ a => head_rejects i a u
  | Eps | Opt _ | Ref _ | Bol | Eol => false
  end.

(** Where a match ends. *)
Definition ends (mt : Match) : nat := (index mt + length (matched mt))%nat.

(** The matches lie one after the other between [lo] and [hi], none of
    them empty. *)
Fixpoint chain (lo : nat) (l : list Match) (hi : nat) : Prop :=
  match l with
  | [] => (lo <= hi)%nat
  | mt :: l' => (lo <= index mt)%nat /\ (index mt < ends mt)%nat /\ chain (ends mt) l' hi
  end.

Definition lt_sign : code_unit := 60.
Definition no_lt (s : jsstring) : bool := forallb (fun u => negb (u =? lt_sign)) s.

(** What follows the group in the pattern for [<object>] and [<embed>]
    blocks. *)
Definition after_tag : rx :=
  seq [star (Not (Chr 62)); One (Chr 62); star_lazy Any; lit "</"; Ref 1; lit ">"].

End RxSpec.

(** ** Vocabulary for the settings *)
Module SettingsSpec.
Import JS Rx Settings Floats.
Local Open Scope N_scope.

Definition in_range (lo hi x : float) : bool := PrimFloat.leb lo x && PrimFloat.leb x hi.

(** Every setting has one of the values the settings tab offers. *)
Definition valid (toLowerCase : jsstring -> jsstring) (s : HTMLCSSEditorSettings) : bool :=
  in_range 100 2000 (refreshDelay s)
  && in_range 10 24 (fontSize s)
  && in_range 1 2 (lineHeight s)
  && in_range f0_1 f0_9 (editorRatio s)
  && existsb (eqb_str (previewPosition s)) [js "vertical"; js "horizontal"]
  && existsb (eqb_str (theme s)) [js "inherit"; js "light"; js "dark"]
  && isValidColor toLowerCase (previewBackground s)
  && PrimFloat.ltb 0 (version s).

(** The values [validateSettings] checks and reports when they fail. *)
Definition checked (settings : Raw.t) : list value :=
  [Raw.autoRefresh settings; Raw.showLineNumbers settings; Raw.enableAutocomplete settings;
   Raw.enableCodeFolding settings; Raw.refreshDelay settings; Raw.fontSize settings;
   Raw.lineHeight settings; Raw.editorRatio settings; Raw.previewPosition settings;
   Raw.theme settings; Raw.previewBackground settings].

(** The settings with another time stamp. *)
Definition stamped (now : jsstring) (s : HTMLCSSEditorSettings) : HTMLCSSEditorSettings :=
  {| autoRefresh := autoRefresh s;
     refreshDelay := refreshDelay s;
     fontSize := fontSize s;
     lineHeight := lineHeight s;
     showLineNumbers := showLineNumbers s;
     previewPosition := previewPosition s;
     editorRatio := editorRatio s;
     theme := theme s;
     previewBackground := previewBackground s;
     enableAutocomplete := enableAutocomplete s;
     enableCodeFolding := enableCodeFolding s;
     version := version s;
     lastUpdated := now |}.

(* an ASCII lower case, for examples *)
Definition ascii_lower (s : jsstring) : jsstring := map ExportMarkup.lower s.

(** Stored settings in which the font size is out of range and the theme
    is an object with a property [toString]. *)
Definition broken_theme : Raw.t :=
  {| Raw.autoRefresh := Boolean false;
     Raw.refreshDelay := Number 500;
     Raw.fontSize := Number 99;
     Raw.lineHeight := Undefined;
     Raw.showLineNumbers := Undefined;
     Raw.previewPosition := Text (js "horizontal");
     Raw.editorRatio := Undefined;
     Raw.theme := Other false;
     Raw.previewBackground := Undefined;
     Raw.enableAutocomplete := Undefined;
     Raw.enableCodeFolding := Undefined;
     Raw.version := Number 1;
     Raw.lastUpdated := Undefined |}.

(** Stored settings in which the version is such an object. *)
Definition broken_version : Raw.t :=
  {| Raw.autoRefresh := Boolean false;
     Raw.refreshDelay := Number 500;
     Raw.fontSize := Undefined;
     Raw.lineHeight := Undefined;
     Raw.showLineNumbers := Undefined;
     Raw.previewPosition := Text (js "horizontal");
     Raw.editorRatio := Undefined;
     Raw.theme := Undefined;
     Raw.previewBackground := Undefined;
     Raw.enableAutocomplete := Undefined;
     Raw.enableCodeFolding := Undefined;
     Raw.version := Other false;
     Raw.lastUpdated := Undefined |}.

End SettingsSpec.

(** ** Vocabulary for the export, the animations and the Sass variables *)
Module FilenameSpec.
Import JS Rx ExportMarkup.
Local Open Scope N_scope.

(** What the file name pattern makes of a character. *)
Definition dash (u : code_unit) : code_unit := if member false forbidden u then 45 else u.

End FilenameSpec.

Module AnimationSpec.
Import JS Rx Animations.

(** The entries that get a timeline widget. *)
Definition shown (a : Animation) : bool := negb (eqb_str (duration a) (js "keyframes")).

End AnimationSpec.

Module SassVariableSpec.
Import JS Rx SassVariables.
Local Open Scope N_scope.

(** The label is [$] and a name of one or more of the characters of
    [name_char]; the value holds no semicolon. *)
Definition tidy (v : Variable_) : bool :=
  match label v with
  | 36 :: name => (0 <? length name)%nat && forallb (member false name_char) name
  | _ => false
  end
  && forallb (fun u => negb (u =? 59)) (value v).

End SassVariableSpec.

(** * Part III: properties *)

(** ** The matcher *)
Module RegexFacts.
Import JS Regex Shape.
Local Open Scope N_scope.

Lemma isSome_map {A B} (f : A -> B) (o : option A) : isSome (option_map f o) = isSome o.
Proof. destruct o; reflexivity. Qed.

Lemma isSome_greedy cs k s :
  isSome (greedy cs k s) =
  isSome (k s) || match s with u :: s' => accepts cs u && isSome (greedy cs k s') | [] => false end.
Proof.
  destruct s as [|u s']; simpl.
  - now rewrite orb_false_r.
  - destruct (accepts cs u); simpl.
    + destruct (greedy cs k s'); simpl.
      * now rewrite orb_true_r.
      * now rewrite orb_false_r.
    + now rewrite orb_false_r.
Qed.

Lemma isSome_lazy cs k s :
  isSome (lazy cs k s) =
  isSome (k s) || match s with u :: s' => accepts cs u && isSome (lazy cs k s') | [] => false end.
Proof.
  destruct s as [|u s']; simpl.
  - destruct (k []); reflexivity.
  - destruct (k (u :: s')); simpl; [reflexivity|].
    destruct (accepts cs u); simpl; [apply isSome_map | reflexivity].
Qed.

Lemma greedy_le cs k s n :
  (forall t m, k t = Some m -> (m <= length t)%nat) ->
  greedy cs k s = Some n -> (n <= length s)%nat.
Proof.
  intros Hk. revert n. induction s as [|u s IH]; simpl; intros n H.
  - apply Hk in H. exact H.
  - destruct (accepts cs u).
    + destruct (greedy cs k s) as [m|] eqn:E.
      * injection H as <-. specialize (IH _ eq_refl). lia.
      * apply Hk in H. exact H.
    + apply Hk in H. exact H.
Qed.

Lemma lazy_le cs k s n :
  (forall t m, k t = Some m -> (m <= length t)%nat) ->
  lazy cs k s = Some n -> (n <= length s)%nat.
Proof.
  intros Hk. revert n. induction s as [|u s IH]; simpl; intros n H.
  - destruct (k []) eqn:E; [|discriminate]. injection H as <-. now apply Hk in E.
  - destruct (k (u :: s)) eqn:E.
    + injection H as <-. now apply Hk in E.
    + destruct (accepts cs u); [|discriminate].
      destruct (lazy cs k s) as [m|]; [|discriminate].
      injection H as <-. specialize (IH _ eq_refl). lia.
Qed.

Lemma match_at_le re : forall s n, match_at re s = Some n -> (n <= length s)%nat.
Proof.
  induction re as [|a re IH]; intros s n H; simpl in H.
  - injection H as <-. lia.
  - destruct a as [cs|cs|cs|cs].
    + destruct s as [|u s]; [discriminate|]. destruct (accepts cs u); [|discriminate].
      destruct (match_at re s) as [m|] eqn:E; [|discriminate]. injection H as <-.
      apply IH in E. simpl. lia.
    + eapply greedy_le; eauto.
    + eapply lazy_le; eauto.
    + destruct s as [|u s]; [discriminate|]. destruct (accepts cs u); [|discriminate].
      destruct (greedy cs (match_at re) s) as [m|] eqn:E; [|discriminate]. injection H as <-.
      apply greedy_le in E; [simpl; lia | exact IH].
Qed.

(** A character that the pattern demands shows up in every match. *)
Lemma greedy_has cs k (f : code_unit -> bool) s n :
  (forall t m, k t = Some m -> existsb f (firstn m t) = true) ->
  greedy cs k s = Some n -> existsb f (firstn n s) = true.
Proof.
  intros Hk. revert n. induction s as [|u s IH]; simpl; intros n H.
  - now apply Hk in H.
  - destruct (accepts cs u).
    + destruct (greedy cs k s) as [m|] eqn:E.
      * injection H as <-. simpl. rewrite (IH _ eq_refl). apply orb_true_r.
      * now apply Hk in H.
    + now apply Hk in H.
Qed.

Lemma lazy_has cs k (f : code_unit -> bool) s n :
  (forall t m, k t = Some m -> existsb f (firstn m t) = true) ->
  lazy cs k s = Some n -> existsb f (firstn n s) = true.
Proof.
  intros Hk. revert n. induction s as [|u s IH]; simpl; intros n H.
  - destruct (k []) eqn:E; [|discriminate]. injection H as <-. now apply Hk in E.
  - destruct (k (u :: s)) eqn:E.
    + injection H as <-. now apply Hk in E.
    + destruct (accepts cs u); [|discriminate].
      destruct (lazy cs k s) as [m|]; [|discriminate].
      injection H as <-. simpl. rewrite (IH _ eq_refl). apply orb_true_r.
Qed.

Lemma match_at_has cs re : In (One cs) re ->
  forall s n, match_at re s = Some n -> existsb (accepts cs) (firstn n s) = true.
Proof.
  induction re as [|a re IH]; intros Hin s n H; [destruct Hin|].
  assert (Hk : In (One cs) re ->
               forall t m, match_at re t = Some m -> existsb (accepts cs) (firstn m t) = true)
    by (intros; eauto).
  simpl in H. destruct a as [c|c|c|c].
  - destruct s as [|u s]; [discriminate|]. destruct (accepts c u) eqn:A; [|discriminate].
    destruct (match_at re s) as [m|] eqn:E; [|discriminate]. injection H as <-.
    simpl. destruct Hin as [Heq|Hin].
    + injection Heq as ->. now rewrite A.
    + rewrite (Hk Hin _ _ E). apply orb_true_r.
  - destruct Hin as [Heq|Hin]; [discriminate|]. eapply greedy_has; eauto.
  - destruct Hin as [Heq|Hin]; [discriminate|]. eapply lazy_has; eauto.
  - destruct Hin as [Heq|Hin]; [discriminate|].
    destruct s as [|u s]; [discriminate|]. destruct (accepts c u); [|discriminate].
    destruct (greedy c (match_at re) s) as [m|] eqn:E; [|discriminate]. injection H as <-.
    simpl. erewrite greedy_has; eauto. apply orb_true_r.
Qed.

Lemma match_at_pos cs re s n : In (One cs) re -> match_at re s = Some n -> n <> 0%nat.
Proof.
  intros Hin H ->. apply (match_at_has _ _ Hin) in H. discriminate.
Qed.

Lemma match_at_nonempty cs re : In (One cs) re -> forall s, match_at re s <> Some 0%nat.
Proof. intros Hin s H. now apply (match_at_pos _ _ _ _ Hin H). Qed.

Lemma match_lit (w : jsstring) re s :
  match_at (map (fun u => One (Chr u)) w ++ re) s =
  if starts_ci w s then option_map (Nat.add (length w)) (match_at re (skipn (length w) s))
  else None.
Proof.
  revert s. induction w as [|p w IH]; intros s; simpl.
  - destruct (match_at re s); reflexivity.
  - destruct s as [|u s]; [reflexivity|]. fold (ceq p u). destruct (ceq p u); simpl; [|reflexivity].
    rewrite IH. destruct (starts_ci w s); [|reflexivity].
    destruct (match_at re (skipn (length w) s)); reflexivity.
Qed.

End RegexFacts.

(** ** Matches of the block patterns *)
Module ShapeFacts.
Import JS Regex Shape RegexFacts.
Local Open Scope N_scope.

Lemma anywhere_head f s : anywhere f s = false -> f s = false.
Proof. destruct s; simpl; intros H; apply orb_false_iff in H; tauto. Qed.

Lemma anywhere_tail f u s : anywhere f (u :: s) = false -> anywhere f s = false.
Proof. simpl. intros H; apply orb_false_iff in H; tauto. Qed.

Lemma anywhere_skipn f k : forall s, anywhere f s = false -> anywhere f (skipn k s) = false.
Proof.
  induction k as [|k IH]; intros s H; [exact H|].
  destruct s as [|u s]; [exact H|]. simpl skipn. apply IH. eapply anywhere_tail; eauto.
Qed.

Lemma anywhere_skipn_true f k : forall s, anywhere f (skipn k s) = true -> anywhere f s = true.
Proof.
  intros s H. destruct (anywhere f s) eqn:E; [reflexivity|].
  apply (anywhere_skipn f k) in E. congruence.
Qed.

Lemma anywhere_ext f g : (forall v, f v = g v) -> forall s, anywhere f s = anywhere g s.
Proof.
  intros H s. induction s as [|u s IH]; simpl; rewrite H; [reflexivity|]. now rewrite IH.
Qed.

Lemma anywhere_app f a t :
  anywhere f (a ++ t) = existsb (fun a' => f (a' ++ t)) (tails a) || anywhere f t.
Proof.
  induction a as [|u a IH]; [reflexivity|].
  change ((u :: a) ++ t) with (u :: (a ++ t)).
  simpl anywhere. simpl tails. simpl existsb. rewrite IH. now rewrite orb_assoc.
Qed.

Lemma test_anywhere re s : test re s = anywhere (fun v => isSome (match_at re v)) s.
Proof.
  induction s as [|u s IH]; simpl.
  - destruct (match_at re []); reflexivity.
  - destruct (match_at re (u :: s)); simpl; [reflexivity | exact IH].
Qed.

Lemma clash_starts w : forall a t, clash w a = true -> starts_ci w (a ++ t) = false.
Proof.
  induction w as [|p w IH]; intros a t H; [discriminate|].
  destruct a as [|u a]; [discriminate|]. simpl in *.
  destruct (ceq p u); simpl in *; [now apply IH | reflexivity].
Qed.

Lemma clash_tails_starts w a t :
  forallb (clash w) (tails a) = true -> existsb (fun a' => starts_ci w (a' ++ t)) (tails a) = false.
Proof.
  induction (tails a) as [|a' l IH]; simpl; intros H; [reflexivity|].
  apply andb_true_iff in H as [H1 H2]. rewrite (clash_starts _ _ _ H1). now apply IH.
Qed.

Lemma occurs_nil s : occurs_ci [] s = true.
Proof. destruct s; reflexivity. Qed.

Lemma closes_app_gt c a : existsb (fun u => u =? gt) a = true ->
  forall t, occurs_ci c t = true -> closes c (a ++ t) = true.
Proof.
  induction a as [|u a IH]; cbn [existsb app closes]; intros H t Ht; [discriminate|].
  destruct (u =? gt) eqn:E.
  - unfold occurs_ci in *. rewrite anywhere_app, Ht. apply orb_true_r.
  - now apply IH.
Qed.

Lemma closes_free o : forallb (fun p => negb (ceq p gt)) o = true ->
  forall c s, starts_ci o s = true -> closes c (skipn (length o) s) = closes c s.
Proof.
  induction o as [|p o IH]; intros Ho c s H; [reflexivity|].
  destruct s as [|u s]; [discriminate|].
  cbn [forallb starts_ci length skipn closes] in *.
  apply andb_true_iff in Ho as [Hp Ho]. apply andb_true_iff in H as [Hu H].
  destruct (u =? gt) eqn:E.
  - apply N.eqb_eq in E. subst u. rewrite Hu in Hp. discriminate.
  - now apply IH.
Qed.

Lemma accepts_gt u : accepts (Chr gt) u = (u =? gt).
Proof.
  unfold accepts. change (canonicalize gt) with gt. unfold canonicalize.
  destruct ((97 <=? u) && (u <=? 122)) eqn:E.
  - apply andb_true_iff in E as [E1 E2]. apply N.leb_le in E1, E2.
    assert (H1 : (gt =? u - 32) = false) by (apply N.eqb_neq; unfold gt; lia).
    assert (H2 : (u =? gt) = false) by (apply N.eqb_neq; unfold gt; lia).
    now rewrite H1, H2.
  - apply N.eqb_sym.
Qed.

Lemma accepts_notgt u : accepts (NotChr gt) u = negb (u =? gt).
Proof. change (accepts (NotChr gt) u) with (negb (accepts (Chr gt) u)). now rewrite accepts_gt. Qed.

Lemma tail_block c s :
  isSome (match_at ([Star (NotChr gt); One (Chr gt); StarLazy AnyChar]
                    ++ map (fun u => One (Chr u)) c) s) = closes c s.
Proof.
  cbn [app match_at].
  induction s as [|u s IH]; [reflexivity|].
  rewrite isSome_greedy, IH. rewrite accepts_notgt. cbn [closes].
  rewrite accepts_gt. destruct (u =? gt); simpl.
  - rewrite orb_false_r, isSome_map. clear IH.
    unfold occurs_ci. induction s as [|v s IH].
    + cbn [lazy]. pose proof (match_lit c [] []) as M. rewrite app_nil_r in M. rewrite M.
      simpl. rewrite orb_false_r. destruct (starts_ci c []); reflexivity.
    + rewrite isSome_lazy. cbn [accepts andb]. rewrite IH. cbn [anywhere]. f_equal.
      pose proof (match_lit c [] (v :: s)) as M. rewrite app_nil_r in M. rewrite M.
      destruct (starts_ci c (v :: s)); reflexivity.
  - reflexivity.
Qed.

Lemma tail_embed s : isSome (match_at [Star (NotChr gt); One (Chr gt)] s) = closes [] s.
Proof.
  cbn [match_at].
  induction s as [|u s IH]; [reflexivity|].
  rewrite isSome_greedy, IH. rewrite accepts_notgt. cbn [closes].
  rewrite accepts_gt. destruct (u =? gt); simpl.
  - now rewrite occurs_nil.
  - reflexivity.
Qed.

Lemma block_opens o c : forallb (fun p => negb (ceq p gt)) o = true ->
  forall s, isSome (match_at (block o c) s) = opens o c s.
Proof.
  intros Ho s. unfold block, opens. rewrite match_lit.
  destruct (starts_ci o s) eqn:E; [|reflexivity].
  rewrite isSome_map, tail_block. simpl. now apply closes_free.
Qed.

Lemma embed_opens o : forallb (fun p => negb (ceq p gt)) o = true ->
  forall s, isSome (match_at (map (fun u => One (Chr u)) o ++ [Star (NotChr gt); One (Chr gt)]) s)
            = opens o [] s.
Proof.
  intros Ho s. unfold opens. rewrite match_lit.
  destruct (starts_ci o s) eqn:E; [|reflexivity].
  rewrite isSome_map, tail_embed. simpl. now apply closes_free.
Qed.

End ShapeFacts.

(** ** The global [replace], position by position *)
Module ScanFacts.
Import JS Regex Shape RegexFacts ShapeFacts.
Local Open Scope N_scope.

Lemma replace_id re repl s : test re s = false -> replace re repl s = s.
Proof.
  unfold replace. induction s as [|u s IH]; simpl; intros H.
  - destruct (match_at re []); [discriminate | reflexivity].
  - destruct (match_at re (u :: s)); [discriminate|]. now rewrite IH.
Qed.

Section Scan.
Variables (re : regex) (repl : jsstring).
Hypothesis match_nonempty : forall s, match_at re s <> Some 0%nat.

Lemma replace_nil : replace re repl [] = [].
Proof.
  unfold replace. simpl. destruct (match_at re []) as [[|k]|] eqn:E.
  - now apply match_nonempty in E.
  - apply match_at_le in E. simpl in E. lia.
  - reflexivity.
Qed.

Lemma replace_from_skipn k : forall s,
  replace_from re repl k s = replace re repl (skipn k s).
Proof.
  induction k as [|k IH]; intros s; [reflexivity|].
  destruct s as [|u s]; simpl.
  - symmetry. apply replace_nil.
  - apply IH.
Qed.

Lemma replace_miss u s :
  match_at re (u :: s) = None -> replace re repl (u :: s) = u :: replace re repl s.
Proof. unfold replace. simpl. now intros ->. Qed.

Lemma replace_hit s k :
  match_at re s = Some (S k) ->
  replace re repl s = repl ++ replace re repl (skipn (S k) s).
Proof.
  intros H. pose proof (match_at_le _ _ _ H) as Hle.
  destruct s as [|u s]; [simpl in Hle; lia|].
  unfold replace at 1. simpl. rewrite H. now rewrite replace_from_skipn.
Qed.

(** Induction along the positions the scanner visits. *)
Lemma scan_ind (P : jsstring -> Prop) :
  P [] ->
  (forall u s, match_at re (u :: s) = None -> P s -> P (u :: s)) ->
  (forall s k, match_at re s = Some (S k) -> P (skipn (S k) s) -> P s) ->
  forall s, P s.
Proof.
  intros Hnil Hmiss Hhit s.
  remember (length s) as n eqn:Hn.
  revert s Hn. induction n as [n IH] using lt_wf_ind. intros s Hn.
  destruct (match_at re s) as [[|k]|] eqn:E.
  - now apply match_nonempty in E.
  - apply (Hhit s k E). pose proof (match_at_le _ _ _ E) as Hle.
    apply (IH (length (skipn (S k) s))); [|reflexivity].
    rewrite length_skipn. lia.
  - destruct s as [|u s]; [exact Hnil|].
    apply Hmiss; [exact E|]. apply (IH (length s)); [simpl in Hn; lia | reflexivity].
Qed.

Lemma replace_blank :
  forallb isWhiteSpace repl = false ->
  forall s, forallb isWhiteSpace (replace re repl s) = true -> replace re repl s = s.
Proof.
  intros Hr. apply (scan_ind (fun s => forallb isWhiteSpace (replace re repl s) = true ->
                                       replace re repl s = s)).
  - intros _. apply replace_nil.
  - intros u s E IH. rewrite (replace_miss _ _ E). simpl. intros H.
    apply andb_true_iff in H as [_ H]. now rewrite IH.
  - intros s k E _. rewrite (replace_hit _ _ E), forallb_app, Hr. discriminate.
Qed.

(** *** Tokens of the input survive, tokens of the output were in the input *)
Section Token.
Variable w : jsstring.
Hypothesis w_clash : forallb (fun w' => clash w' repl) (tails w) = true.

Lemma starts_replace : forall s, starts_ci w (replace re repl s) = true -> starts_ci w s = true.
Proof.
  revert w_clash. induction w as [|p w' IH]; intros Hc s H; [reflexivity|].
  cbn [tails forallb] in Hc. apply andb_true_iff in Hc as [Hc1 Hc2].
  destruct (match_at re s) as [[|k]|] eqn:E.
  - now apply match_nonempty in E.
  - rewrite (replace_hit _ _ E), (clash_starts _ _ _ Hc1) in H. discriminate.
  - destruct s as [|u s]; [rewrite replace_nil in H; discriminate|].
    rewrite (replace_miss _ _ E) in H. cbn [starts_ci] in *.
    apply andb_true_iff in H as [H1 H2]. rewrite H1. simpl. now apply IH.
Qed.

Hypothesis repl_clash : forallb (clash w) (tails repl) = true.

Lemma occurs_replace : forall s, occurs_ci w (replace re repl s) = true -> occurs_ci w s = true.
Proof.
  apply (scan_ind (fun s => occurs_ci w (replace re repl s) = true -> occurs_ci w s = true)).
  - now rewrite replace_nil.
  - intros u s E IH. rewrite (replace_miss _ _ E).
    pose proof (starts_replace (u :: s)) as Hs. rewrite (replace_miss _ _ E) in Hs.
    unfold occurs_ci in *. cbn [anywhere]. intros H.
    apply orb_true_iff in H as [H|H].
    + now rewrite Hs.
    + rewrite IH; [apply orb_true_r | exact H].
  - intros s k E IH. rewrite (replace_hit _ _ E). unfold occurs_ci in *.
    rewrite anywhere_app, clash_tails_starts by exact repl_clash. simpl. intros H.
    apply (anywhere_skipn_true _ (S k)). now apply IH.
Qed.
End Token.

(** *** Block patterns: an opening token, the first [>], a closing token *)
Section Block.
Variables o c : jsstring.
Hypothesis match_has_gt :
  forall s n, match_at re s = Some n -> existsb (fun u => u =? gt) (firstn n s) = true.
Hypothesis repl_gt : forall t, closes c (repl ++ t) = occurs_ci c t.
Hypothesis c_foreign : forall s, occurs_ci c (replace re repl s) = true -> occurs_ci c s = true.
Hypothesis o_clash : forallb (fun o' => clash o' repl) (tails o) = true.
Hypothesis o_repl_clash : forallb (clash o) (tails repl) = true.

Lemma closes_replace : forall s, closes c (replace re repl s) = true -> closes c s = true.
Proof.
  apply (scan_ind (fun s => closes c (replace re repl s) = true -> closes c s = true)).
  - now rewrite replace_nil.
  - intros u s E IH. rewrite (replace_miss _ _ E). cbn [closes].
    destruct (u =? gt); [apply c_foreign | exact IH].
  - intros s k E _. rewrite (replace_hit _ _ E), repl_gt. intros H.
    rewrite <- (firstn_skipn (S k) s). apply closes_app_gt.
    + now apply match_has_gt.
    + now apply c_foreign.
Qed.

Lemma opens_replace : forall s,
  anywhere (fun v => negb (isSome (match_at re v)) && opens o c v) s = false ->
  anywhere (opens o c) (replace re repl s) = false.
Proof.
  apply (scan_ind (fun s =>
    anywhere (fun v => negb (isSome (match_at re v)) && opens o c v) s = false ->
    anywhere (opens o c) (replace re repl s) = false)).
  - intros _. rewrite replace_nil. unfold opens. simpl. now rewrite andb_false_r.
  - intros u s E IH H. rewrite (replace_miss _ _ E). cbn [anywhere].
    rewrite (IH (anywhere_tail _ _ _ H)), orb_false_r.
    apply anywhere_head in H. rewrite E in H. simpl in H.
    rewrite <- (replace_miss _ _ E). unfold opens in *.
    destruct (starts_ci o (replace re repl (u :: s))) eqn:E1; [|reflexivity].
    destruct (closes c (replace re repl (u :: s))) eqn:E2; [|reflexivity].
    apply (starts_replace _ o_clash) in E1. apply closes_replace in E2.
    rewrite E1, E2 in H. discriminate.
  - intros s k E IH H. rewrite (replace_hit _ _ E), anywhere_app.
    rewrite (IH (anywhere_skipn _ _ _ H)), orb_false_r.
    unfold opens. clear -o_repl_clash.
    induction (tails repl) as [|a l IHl]; [reflexivity|].
    cbn [forallb existsb] in *. apply andb_true_iff in o_repl_clash as [H1 H2].
    rewrite (clash_starts _ _ _ H1). simpl. now apply IHl.
Qed.
End Block.
End Scan.

End ScanFacts.

(** ** One stage of the markup sanitizer *)
Module MarkupFacts.
Import JS Regex Shape RegexFacts ShapeFacts ScanFacts Sanitizer.
Local Open Scope N_scope.

Lemma blank_forallb s : negb (truthy (trim s)) = forallb isWhiteSpace s.
Proof.
  assert (Hts : forall t, trimStart t = [] <-> forallb isWhiteSpace t = true).
  { induction t as [|u t IH]; simpl; [tauto|].
    destruct (isWhiteSpace u); simpl; [exact IH | split; discriminate]. }
  assert (Hsub : forall t, forallb isWhiteSpace t = false ->
                           forallb isWhiteSpace (trimStart t) = false).
  { induction t as [|u t IH]; simpl; [discriminate|].
    destruct (isWhiteSpace u) eqn:E; simpl; [exact IH | now rewrite E]. }
  assert (Hrev : forall t, forallb isWhiteSpace (rev t) = forallb isWhiteSpace t).
  { induction t as [|u t IH]; simpl; [reflexivity|].
    rewrite forallb_app, IH. simpl. rewrite andb_true_r. apply andb_comm. }
  unfold trim, trimEnd.
  destruct (forallb isWhiteSpace s) eqn:E.
  - apply Hts in E. rewrite E. reflexivity.
  - apply Hsub in E. rewrite <- Hrev in E.
    destruct (trimStart (rev (trimStart s))) as [|u t] eqn:T.
    + apply Hts in T. congruence.
    + destruct (rev (u :: t)) eqn:R; [|reflexivity].
      apply (f_equal (@rev _)) in R. rewrite rev_involutive in R. discriminate.
Qed.

Lemma has_gt_block_like re : In (One (Chr gt)) re -> block_like re.
Proof.
  intros Hin. split.
  - intros s H. now apply (match_at_pos _ _ _ _ Hin) in H.
  - intros s n H. apply (match_at_has _ _ Hin) in H.
    induction (firstn n s) as [|u l IH]; [exact H|].
    cbn [existsb] in *. rewrite accepts_gt in H.
    destruct (u =? gt); [reflexivity | exact (IH H)].
Qed.

Lemma ends_gt_closes repl c t : ends_gt repl = true -> closes c (repl ++ t) = occurs_ci c t.
Proof.
  induction repl as [|u r IH]; [discriminate|].
  cbn [ends_gt app closes]. destruct r as [|v r].
  - now intros ->.
  - intros H. apply andb_true_iff in H as [Hu Hr]. apply negb_true_iff in Hu.
    rewrite Hu. now apply IH.
Qed.

Lemma keep_closed re repl o c :
  block_like re -> ends_gt repl = true -> token_ok repl o c = true ->
  forall s,
    anywhere (fun v => negb (isSome (match_at re v)) && opens o c v) s = false ->
    anywhere (opens o c) (replace re repl s) = false.
Proof.
  intros [Hne Hgt] Hr Hok. unfold token_ok in Hok.
  apply andb_true_iff in Hok as [Hok Hc]. apply andb_true_iff in Hok as [Hok H3].
  apply andb_true_iff in Hok as [H1 H2].
  apply (opens_replace re repl Hne o c Hgt); auto.
  - intros t. now apply ends_gt_closes.
  - destruct c as [|p c]; [intros; apply occurs_nil|].
    apply andb_true_iff in Hc as [Hc1 Hc2]. now apply occurs_replace.
Qed.

Lemma anywhere_weaken (f g : jsstring -> bool) :
  (forall v, f v = true -> g v = true) ->
  forall s, anywhere g s = false -> anywhere f s = false.
Proof.
  intros Hfg s. induction s as [|u s IH]; cbn [anywhere]; intros H;
    apply orb_false_iff in H as [H1 H2].
  - destruct (f []) eqn:E; [apply Hfg in E; congruence | reflexivity].
  - rewrite (IH H2). destruct (f (u :: s)) eqn:E; [apply Hfg in E; congruence | reflexivity].
Qed.

(** One stage of the [forEach] loop, for a pattern whose matches are
    described by [opens o c]. *)
Section Stage.
Variables (repl : jsstring) (re : regex) (o c : jsstring).
Hypothesis re_block : block_like re.
Hypothesis repl_ends : ends_gt repl = true.
Hypothesis re_opens : forall s, isSome (match_at re s) = opens o c s.
Hypothesis tok : token_ok repl o c = true.

Lemma test_opens s : test re s = anywhere (opens o c) s.
Proof. rewrite test_anywhere. now apply anywhere_ext. Qed.

Lemma stage_clean s : test re (replace re repl s) = false.
Proof.
  rewrite test_opens. apply keep_closed; auto.
  induction s as [|u s IH]; cbn [anywhere].
  - rewrite re_opens. now destruct (opens o c []).
  - rewrite IH, re_opens. now destruct (opens o c (u :: s)).
Qed.

Lemma stage_keeps re' : block_like re' ->
  forall s, test re s = false -> test re (replace re' repl s) = false.
Proof.
  intros Hb s. rewrite !test_opens. intros H. apply keep_closed; auto.
  revert H. apply anywhere_weaken. intros v Hv. apply andb_true_iff in Hv. tauto.
Qed.
End Stage.

End MarkupFacts.

(** ** The markup sanitizer leaves nothing to remove *)
Module MarkupProof.
Import JS Regex Shape RegexFacts ShapeFacts ScanFacts Sanitizer SanitizerSpec MarkupFacts.
Local Open Scope N_scope.

Lemma guarded_replace repl (l : list regex) : forall s,
  fold_left (fun sanitized pattern =>
               if test pattern sanitized then replace pattern repl sanitized else sanitized)
            l s
  = fold_left (fun sanitized pattern => replace pattern repl sanitized) l s.
Proof.
  induction l as [|re l IH]; intros s; [reflexivity|]. cbn [fold_left].
  destruct (test re s) eqn:E; [apply IH|]. rewrite (replace_id re repl s E). apply IH.
Qed.

Lemma script_block : block_like re_script.
Proof. apply has_gt_block_like. unfold re_script. apply in_or_app. right. simpl. tauto. Qed.
Lemma iframe_block : block_like re_iframe.
Proof. apply has_gt_block_like. unfold re_iframe. apply in_or_app. right. simpl. tauto. Qed.
Lemma object_block : block_like re_object.
Proof. apply has_gt_block_like. unfold re_object. apply in_or_app. right. simpl. tauto. Qed.
Lemma embed_block : block_like re_embed.
Proof. apply has_gt_block_like. unfold re_embed. apply in_or_app. right. simpl. tauto. Qed.
Lemma form_block : block_like re_form.
Proof. apply has_gt_block_like. unfold re_form. apply in_or_app. right. simpl. tauto. Qed.

Lemma script_opens s : isSome (match_at re_script s) = opens (js "<script") (js "</script>") s.
Proof. exact (block_opens (js "<script") (js "</script>") eq_refl s). Qed.
Lemma iframe_opens s : isSome (match_at re_iframe s) = opens (js "<iframe") (js "</iframe>") s.
Proof. exact (block_opens (js "<iframe") (js "</iframe>") eq_refl s). Qed.
Lemma object_opens s : isSome (match_at re_object s) = opens (js "<object") (js "</object>") s.
Proof. exact (block_opens (js "<object") (js "</object>") eq_refl s). Qed.
Lemma embed_opens' s : isSome (match_at re_embed s) = opens (js "<embed") [] s.
Proof. exact (embed_opens (js "<embed") eq_refl s). Qed.
Lemma form_opens s : isSome (match_at re_form s) = opens (js "<form") (js "</form>") s.
Proof. exact (block_opens (js "<form") (js "</form>") eq_refl s). Qed.

Lemma comment_ends_gt : ends_gt unsafe_element_comment = true.
Proof. reflexivity. Qed.

Lemma sanitize_nonblank html :
  forallb isWhiteSpace html = false -> validateAndSanitizeHTML html = sanitize_stages html.
Proof.
  intros H. unfold validateAndSanitizeHTML. rewrite blank_forallb, H.
  now rewrite guarded_replace.
Qed.

Lemma stages_clean html :
  Forall (fun re => test re (sanitize_stages html) = false) dangerousPatternsHTML.
Proof.
  unfold sanitize_stages, dangerousPatternsHTML.
  pose proof comment_ends_gt as Hc.
  repeat constructor.
  - apply (stage_keeps _ _ _ _ Hc script_opens eq_refl _ form_block).
    apply (stage_keeps _ _ _ _ Hc script_opens eq_refl _ embed_block).
    apply (stage_keeps _ _ _ _ Hc script_opens eq_refl _ object_block).
    apply (stage_keeps _ _ _ _ Hc script_opens eq_refl _ iframe_block).
    apply (stage_clean _ _ _ _ script_block Hc script_opens eq_refl).
  - apply (stage_keeps _ _ _ _ Hc iframe_opens eq_refl _ form_block).
    apply (stage_keeps _ _ _ _ Hc iframe_opens eq_refl _ embed_block).
    apply (stage_keeps _ _ _ _ Hc iframe_opens eq_refl _ object_block).
    apply (stage_clean _ _ _ _ iframe_block Hc iframe_opens eq_refl).
  - apply (stage_keeps _ _ _ _ Hc object_opens eq_refl _ form_block).
    apply (stage_keeps _ _ _ _ Hc object_opens eq_refl _ embed_block).
    apply (stage_clean _ _ _ _ object_block Hc object_opens eq_refl).
  - apply (stage_keeps _ _ _ _ Hc embed_opens' eq_refl _ form_block).
    apply (stage_clean _ _ _ _ embed_block Hc embed_opens' eq_refl).
  - apply (stage_clean _ _ _ _ form_block Hc form_opens eq_refl).
Qed.

Lemma stages_nonblank html :
  forallb isWhiteSpace html = false -> forallb isWhiteSpace (sanitize_stages html) = false.
Proof.
  intros H. unfold sanitize_stages.
  assert (K : forall re, block_like re -> forall s, forallb isWhiteSpace s = false ->
              forallb isWhiteSpace (replace re unsafe_element_comment s) = false).
  { intros re [Hne _] s Hs.
    destruct (forallb isWhiteSpace (replace re unsafe_element_comment s)) eqn:E; [|reflexivity].
    assert (Hr : forallb isWhiteSpace unsafe_element_comment = false) by reflexivity.
    rewrite (replace_blank re unsafe_element_comment Hne Hr s E) in E. congruence. }
  apply (K _ form_block), (K _ embed_block), (K _ object_block), (K _ iframe_block),
        (K _ script_block), H.
Qed.

Lemma markup_clean html :
  Forall (fun re => test re (validateAndSanitizeHTML html) = false) dangerousPatternsHTML.
Proof.
  destruct (forallb isWhiteSpace html) eqn:E.
  - unfold validateAndSanitizeHTML. rewrite blank_forallb, E.
    repeat constructor; vm_compute; reflexivity.
  - rewrite (sanitize_nonblank _ E). apply stages_clean.
Qed.

Lemma markup_nonblank html : forallb isWhiteSpace (validateAndSanitizeHTML html) = false.
Proof.
  destruct (forallb isWhiteSpace html) eqn:E.
  - unfold validateAndSanitizeHTML. rewrite blank_forallb, E. reflexivity.
  - rewrite (sanitize_nonblank _ E). now apply stages_nonblank.
Qed.

Lemma fold_clean repl (l : list regex) s :
  Forall (fun re => test re s = false) l ->
  fold_left (fun sanitized pattern =>
               if test pattern sanitized then replace pattern repl sanitized else sanitized)
            l s = s.
Proof.
  induction 1 as [|re l H _ IH]; [reflexivity|]. cbn [fold_left]. now rewrite H.
Qed.

Theorem markup_idempotent html :
  validateAndSanitizeHTML (validateAndSanitizeHTML html) = validateAndSanitizeHTML html.
Proof.
  unfold validateAndSanitizeHTML at 1.
  rewrite blank_forallb, markup_nonblank. cbn [negb].
  apply fold_clean, markup_clean.
Qed.

End MarkupProof.

(** ** Patterns that cannot read the replacement text *)
Module HeaderFacts.
Import JS Regex Shape RegexFacts ShapeFacts ScanFacts Sanitizer MarkupFacts.
Local Open Scope N_scope.

Lemma accepts_plain d u : plain d = true -> accepts (Chr d) u = (u =? d).
Proof.
  unfold plain, accepts, canonicalize. intros H.
  destruct ((97 <=? d) && (d <=? 122)) eqn:Ed; destruct ((97 <=? u) && (u <=? 122)) eqn:Eu;
    destruct (u =? d) eqn:E;
    repeat match goal with
      | H : (_ || _) = true |- _ => apply orb_true_iff in H; destruct H
      | H : (_ && _) = true |- _ => apply andb_true_iff in H; destruct H
      | H : (_ && _) = false |- _ => apply andb_false_iff in H; destruct H
      | H : (_ =? _) = true |- _ => apply N.eqb_eq in H
      | H : (_ =? _) = false |- _ => apply N.eqb_neq in H
      | H : (_ <=? _) = true |- _ => apply N.leb_le in H
      | H : (_ <=? _) = false |- _ => apply N.leb_gt in H
      | H : (_ <? _) = true |- _ => apply N.ltb_lt in H
      end;
    first [ apply N.eqb_eq; lia | apply N.eqb_neq; lia ].
Qed.

(** A pattern ending in [[^d]*d] matches where its header matches and a
    [d] follows. *)
Lemma tail_has d s : plain d = true ->
  isSome (match_at [Star (NotChr d); One (Chr d)] s) = has d s.
Proof.
  intros Hd. cbn [match_at]. induction s as [|u s IH]; [reflexivity|].
  rewrite isSome_greedy, IH. unfold has. cbn [existsb].
  change (accepts (NotChr d) u) with (negb (accepts (Chr d) u)).
  rewrite (accepts_plain _ _ Hd). destruct (u =? d); reflexivity.
Qed.

Lemma header_tail d (Hd : plain d = true) H :
  forallb (rejects d) H = true ->
  forall s, isSome (match_at (H ++ [Star (NotChr d); One (Chr d)]) s)
            = isSome (match_at H s) && has d s.
Proof.
  induction H as [|a H IH]; intros Hr s.
  - now apply tail_has.
  - cbn [forallb] in Hr. apply andb_true_iff in Hr as [Ha Hr]. specialize (IH Hr).
    assert (Hu : forall u, accepts (charset_of a) u = true -> (u =? d) = false).
    { intros u Hu. destruct (u =? d) eqn:E; [|reflexivity]. apply N.eqb_eq in E. subst u.
      unfold rejects in Ha. rewrite Hu in Ha. discriminate. }
    set (T := [Star (NotChr d); One (Chr d)]) in *.
    destruct a as [cs|cs|cs|cs]; cbn [app match_at charset_of] in *.
    + destruct s as [|u s]; [reflexivity|]. destruct (accepts cs u) eqn:A; [|reflexivity].
      rewrite !isSome_map, IH. unfold has. cbn [existsb]. now rewrite (Hu _ A).
    + induction s as [|u s IHs]; [apply IH|].
      rewrite !(isSome_greedy cs _ (u :: s)), IHs, IH. unfold has. cbn [existsb].
      destruct (accepts cs u) eqn:A; cbn [andb].
      * rewrite (Hu _ A). cbn [orb]. now rewrite andb_orb_distrib_l.
      * now rewrite !orb_false_r.
    + induction s as [|u s IHs].
      * rewrite !(isSome_lazy cs _ []), IH. now rewrite !orb_false_r.
      * rewrite !(isSome_lazy cs _ (u :: s)), IHs, IH. unfold has. cbn [existsb].
        destruct (accepts cs u) eqn:A; cbn [andb].
        -- rewrite (Hu _ A). cbn [orb]. now rewrite andb_orb_distrib_l.
        -- now rewrite !orb_false_r.
    + destruct s as [|u s]; [reflexivity|]. destruct (accepts cs u) eqn:A; [|reflexivity].
      rewrite !isSome_map. unfold has. cbn [existsb]. rewrite (Hu _ A). cbn [orb].
      clear u A. induction s as [|u s IHs]; [apply IH|].
      rewrite !(isSome_greedy cs _ (u :: s)), IHs, IH. unfold has. cbn [existsb].
      destruct (accepts cs u) eqn:A; cbn [andb].
      * rewrite (Hu _ A). cbn [orb]. now rewrite andb_orb_distrib_l.
      * now rewrite !orb_false_r.
Qed.

Section Header.
Variables (re : regex) (r0 : code_unit) (r1 : jsstring).
Hypothesis match_nonempty : forall s, match_at re s <> Some 0%nat.
Let repl := r0 :: r1.

Lemma greedy_replace cs k :
  accepts cs r0 = false ->
  (forall s, isSome (k (replace re repl s)) = true -> isSome (k s) = true) ->
  forall s, isSome (greedy cs k (replace re repl s)) = true -> isSome (greedy cs k s) = true.
Proof.
  intros Hr Hk.
  apply (scan_ind re match_nonempty (fun s =>
           isSome (greedy cs k (replace re repl s)) = true -> isSome (greedy cs k s) = true)).
  - rewrite replace_nil by exact match_nonempty. auto.
  - intros u s E IH. pose proof (Hk (u :: s)) as Hk'.
    rewrite (replace_miss _ _ _ _ E) in *. rewrite !(isSome_greedy cs k (u :: _)).
    intros H. apply orb_true_iff in H as [H|H].
    + now rewrite Hk'.
    + apply andb_true_iff in H as [H1 H2]. rewrite H1, (IH H2). apply orb_true_r.
  - intros s n E _. pose proof (Hk s) as Hk'.
    rewrite (replace_hit _ _ match_nonempty _ _ E) in *. unfold repl in *.
    cbn [app] in *. rewrite isSome_greedy, Hr. cbn [andb]. rewrite orb_false_r.
    intros H. specialize (Hk' H). destruct s; rewrite isSome_greedy, Hk'; reflexivity.
Qed.

Lemma lazy_replace cs k :
  accepts cs r0 = false ->
  (forall s, isSome (k (replace re repl s)) = true -> isSome (k s) = true) ->
  forall s, isSome (lazy cs k (replace re repl s)) = true -> isSome (lazy cs k s) = true.
Proof.
  intros Hr Hk.
  apply (scan_ind re match_nonempty (fun s =>
           isSome (lazy cs k (replace re repl s)) = true -> isSome (lazy cs k s) = true)).
  - rewrite replace_nil by exact match_nonempty. auto.
  - intros u s E IH. pose proof (Hk (u :: s)) as Hk'.
    rewrite (replace_miss _ _ _ _ E) in *. rewrite !(isSome_lazy cs k (u :: _)).
    intros H. apply orb_true_iff in H as [H|H].
    + now rewrite Hk'.
    + apply andb_true_iff in H as [H1 H2]. rewrite H1, (IH H2). apply orb_true_r.
  - intros s n E _. pose proof (Hk s) as Hk'.
    rewrite (replace_hit _ _ match_nonempty _ _ E) in *. unfold repl in *.
    cbn [app] in *. rewrite isSome_lazy, Hr. cbn [andb]. rewrite orb_false_r.
    intros H. specialize (Hk' H). destruct s; rewrite isSome_lazy, Hk'; reflexivity.
Qed.

Lemma header_replace H : forallb (rejects r0) H = true ->
  forall s, isSome (match_at H (replace re repl s)) = true -> isSome (match_at H s) = true.
Proof.
  induction H as [|a H IH]; intros Hr s; [reflexivity|].
  cbn [forallb] in Hr. apply andb_true_iff in Hr as [Ha Hr]. specialize (IH Hr).
  unfold rejects in Ha. apply negb_true_iff in Ha.
  assert (Hone : forall cs, accepts cs r0 = false -> forall k,
            (forall s, isSome (k (replace re repl s)) = true -> isSome (k s) = true) ->
            forall s,
            isSome (match replace re repl s with
                    | u :: s' => if accepts cs u then option_map S (k s') else None
                    | [] => None end) = true ->
            isSome (match s with
                    | u :: s' => if accepts cs u then option_map S (k s') else None
                    | [] => None end) = true).
  { intros cs Hcs k Hk t.
    destruct (match_at re t) as [[|n]|] eqn:E.
    - now apply match_nonempty in E.
    - rewrite (replace_hit _ _ match_nonempty _ _ E). unfold repl. cbn [app].
      rewrite Hcs. discriminate.
    - destruct t as [|u t]; [rewrite replace_nil by exact match_nonempty; auto|].
      rewrite (replace_miss _ _ _ _ E). destruct (accepts cs u); [|auto].
      rewrite !isSome_map. apply Hk. }
  destruct a as [cs|cs|cs|cs]; cbn [match_at charset_of] in *.
  - now apply Hone.
  - now apply greedy_replace.
  - now apply lazy_replace.
  - apply (Hone cs Ha (greedy cs (match_at H))). now apply greedy_replace.
Qed.

Lemma has_replace d : has d repl = false ->
  forall s, has d (replace re repl s) = true -> has d s = true.
Proof.
  intros Hd.
  apply (scan_ind re match_nonempty (fun s =>
           has d (replace re repl s) = true -> has d s = true)).
  - rewrite replace_nil by exact match_nonempty. auto.
  - intros u s E IH. rewrite (replace_miss _ _ _ _ E).
    change (has d (u :: replace re repl s)) with ((u =? d) || has d (replace re repl s)).
    change (has d (u :: s)) with ((u =? d) || has d s).
    destruct (u =? d); [reflexivity | exact IH].
  - intros s n E IH. rewrite (replace_hit _ _ match_nonempty _ _ E).
    assert (Happ : forall a b, has d (a ++ b) = has d a || has d b)
      by (intros; apply existsb_app).
    rewrite Happ, Hd. cbn [orb]. intros H. specialize (IH H).
    rewrite <- (firstn_skipn (S n) s), Happ, IH. apply orb_true_r.
Qed.

(** A pattern that begins with the literal [w], whose header [hd] cannot
    read the first character of the replacement, and that may demand
    more of the text that follows ([tl]). *)
Section Keep.
Variables (w : jsstring) (rest : regex) (tl : jsstring -> bool).
Let hd := map (fun u => One (Chr u)) w ++ rest.
Let found v := isSome (match_at hd v) && tl v.
Hypothesis hd_rejects : forallb (rejects r0) hd = true.
Hypothesis w_clash : forallb (clash w) (tails repl) = true.
Hypothesis tl_replace : forall s, tl (replace re repl s) = true -> tl s = true.

Lemma found_replace : forall s,
  anywhere (fun v => negb (isSome (match_at re v)) && found v) s = false ->
  anywhere found (replace re repl s) = false.
Proof.
  apply (scan_ind re match_nonempty (fun s =>
    anywhere (fun v => negb (isSome (match_at re v)) && found v) s = false ->
    anywhere found (replace re repl s) = false)).
  - intros H. rewrite replace_nil by exact match_nonempty. cbn [anywhere] in *.
    destruct (match_at re []) as [n|] eqn:E.
    + pose proof (match_at_le _ _ _ E) as L. destruct n; [now apply match_nonempty in E|].
      simpl in L. lia.
    + exact H.
  - intros u s E IH H. rewrite (replace_miss _ _ _ _ E). cbn [anywhere].
    rewrite (IH (anywhere_tail _ _ _ H)), orb_false_r.
    apply anywhere_head in H. rewrite E in H. cbn [isSome negb andb] in H.
    rewrite <- (replace_miss _ repl _ _ E). unfold found in *.
    destruct (isSome (match_at hd (replace re repl (u :: s)))) eqn:E1; [|reflexivity].
    destruct (tl (replace re repl (u :: s))) eqn:E2; [|reflexivity].
    apply (header_replace _ hd_rejects) in E1. apply tl_replace in E2.
    rewrite E1, E2 in H. discriminate.
  - intros s n E IH H. rewrite (replace_hit _ _ match_nonempty _ _ E), anywhere_app.
    rewrite (IH (anywhere_skipn _ _ _ H)), orb_false_r.
    unfold found, hd. generalize (replace re repl (skipn (S n) s)) as t. intros t.
    clear - w_clash. revert w_clash.
    induction (tails repl) as [|a l IHl]; [reflexivity|].
    cbn [forallb existsb]. intros Hc. apply andb_true_iff in Hc as [H1 H2].
    rewrite match_lit, (clash_starts _ _ _ H1). cbn [isSome andb orb]. now apply IHl.
Qed.
End Keep.
End Header.

End HeaderFacts.

(** ** The style sanitizer leaves nothing to remove *)
Module StyleProof.
Import JS Regex Shape RegexFacts ShapeFacts ScanFacts Sanitizer SanitizerSpec MarkupFacts MarkupProof HeaderFacts.
Local Open Scope N_scope.

Section Stage.
Variables (r0 : code_unit) (r1 : jsstring).
Variables (re : regex) (w : jsstring) (rest : regex) (tl : jsstring -> bool).
Hypothesis re_found : forall s,
  isSome (match_at re s) = isSome (match_at (map (fun u => One (Chr u)) w ++ rest) s) && tl s.
Hypothesis hd_rejects : forallb (rejects r0) (map (fun u => One (Chr u)) w ++ rest) = true.
Hypothesis w_clash : forallb (clash w) (tails (r0 :: r1)) = true.
Hypothesis tl_replace : forall re', (forall s, match_at re' s <> Some 0%nat) ->
  forall s, tl (replace re' (r0 :: r1) s) = true -> tl s = true.

Lemma style_stage_keeps re' : (forall s, match_at re' s <> Some 0%nat) ->
  forall s, anywhere (fun v => negb (isSome (match_at re' v)) && isSome (match_at re v)) s = false ->
            test re (replace re' (r0 :: r1) s) = false.
Proof.
  intros Hne s H. rewrite test_anywhere.
  rewrite (anywhere_ext _ _ re_found).
  apply (found_replace re' r0 r1 Hne w rest tl hd_rejects w_clash (tl_replace re' Hne)).
  rewrite <- H. apply anywhere_ext. intros v. now rewrite re_found.
Qed.

Lemma style_stage_clean : (forall s, match_at re s <> Some 0%nat) ->
  forall s, test re (replace re (r0 :: r1) s) = false.
Proof.
  intros Hne s. apply style_stage_keeps; [exact Hne|].
  induction s as [|u s IH]; cbn [anywhere].
  - now destruct (match_at re []).
  - rewrite IH. now destruct (match_at re (u :: s)).
Qed.

Lemma style_stage_other re' : (forall s, match_at re' s <> Some 0%nat) ->
  forall s, test re s = false -> test re (replace re' (r0 :: r1) s) = false.
Proof.
  intros Hne s H. apply style_stage_keeps; [exact Hne|].
  rewrite test_anywhere in H. revert H. apply anywhere_weaken.
  intros v Hv. apply andb_true_iff in Hv. tauto.
Qed.
End Stage.

Lemma import_nonempty s : match_at re_import s <> Some 0%nat.
Proof. apply (match_at_nonempty (Chr 40)). unfold re_import. simpl. tauto. Qed.
Lemma javascript_nonempty s : match_at re_javascript s <> Some 0%nat.
Proof. apply (match_at_nonempty (Chr 58)). unfold re_javascript. simpl. tauto. Qed.
Lemma expression_nonempty s : match_at re_expression s <> Some 0%nat.
Proof. apply (match_at_nonempty (Chr 40)). unfold re_expression. simpl. tauto. Qed.
Lemma behavior_nonempty s : match_at re_behavior s <> Some 0%nat.
Proof. apply (match_at_nonempty (Chr 58)). unfold re_behavior. simpl. tauto. Qed.

Lemma import_found s :
  isSome (match_at re_import s)
  = isSome (match_at (map (fun u => One (Chr u)) (js "@import") ++ import_rest) s) && has 41 s.
Proof.
  exact (header_tail 41 eq_refl
           (map (fun u => One (Chr u)) (js "@import") ++ import_rest) eq_refl s).
Qed.

Lemma plain_found re s : isSome (match_at re s) = isSome (match_at re s) && true.
Proof. now rewrite andb_true_r. Qed.

Lemma style_nonblank_stages css :
  forallb isWhiteSpace css = false -> validateAndSanitizeCSS css = style_stages css.
Proof.
  intros H. unfold validateAndSanitizeCSS. rewrite blank_forallb, H.
  now rewrite guarded_replace.
Qed.

Lemma style_stages_clean css :
  Forall (fun re => test re (style_stages css) = false) dangerousPatternsCSS.
Proof.
  unfold style_stages, dangerousPatternsCSS.
  change unsafe_css_comment with (47 :: css_r1).
  assert (T41 : forall re', (forall s, match_at re' s <> Some 0%nat) ->
            forall s, has 41 (replace re' (47 :: css_r1) s) = true -> has 41 s = true).
  { intros re' Hne. now apply has_replace. }
  assert (Ttrue : forall re' : regex, (forall s, match_at re' s <> Some 0%nat) ->
            forall s : jsstring, (fun _ : jsstring => true) (replace re' (47 :: css_r1) s) = true ->
                                 (fun _ : jsstring => true) s = true) by auto.
  pose proof (style_stage_other 47 css_r1 re_import (js "@import") import_rest (has 41)
                import_found eq_refl eq_refl T41) as Ki.
  pose proof (style_stage_clean 47 css_r1 re_import (js "@import") import_rest (has 41)
                import_found eq_refl eq_refl T41 import_nonempty) as Ci.
  pose proof (style_stage_other 47 css_r1 re_javascript (js "javascript")
                [Star Space; One (Chr 58)] (fun _ => true)
                (plain_found re_javascript) eq_refl eq_refl Ttrue) as Kj.
  pose proof (style_stage_clean 47 css_r1 re_javascript (js "javascript")
                [Star Space; One (Chr 58)] (fun _ => true)
                (plain_found re_javascript) eq_refl eq_refl Ttrue javascript_nonempty) as Cj.
  pose proof (style_stage_other 47 css_r1 re_expression (js "expression")
                [Star Space; One (Chr 40)] (fun _ => true)
                (plain_found re_expression) eq_refl eq_refl Ttrue) as Ke.
  pose proof (style_stage_clean 47 css_r1 re_expression (js "expression")
                [Star Space; One (Chr 40)] (fun _ => true)
                (plain_found re_expression) eq_refl eq_refl Ttrue expression_nonempty) as Ce.
  pose proof (style_stage_clean 47 css_r1 re_behavior (js "behavior")
                [Star Space; One (Chr 58)] (fun _ => true)
                (plain_found re_behavior) eq_refl eq_refl Ttrue behavior_nonempty) as Cb.
  repeat constructor.
  - apply (Ki _ behavior_nonempty), (Ki _ expression_nonempty), (Ki _ javascript_nonempty), Ci.
  - apply (Kj _ behavior_nonempty), (Kj _ expression_nonempty), Cj.
  - apply (Ke _ behavior_nonempty), Ce.
  - apply Cb.
Qed.

Lemma style_stages_nonblank css :
  forallb isWhiteSpace css = false -> forallb isWhiteSpace (style_stages css) = false.
Proof.
  intros H. unfold style_stages.
  assert (K : forall re, (forall s, match_at re s <> Some 0%nat) ->
              forall s, forallb isWhiteSpace s = false ->
              forallb isWhiteSpace (replace re unsafe_css_comment s) = false).
  { intros re Hne s Hs.
    destruct (forallb isWhiteSpace (replace re unsafe_css_comment s)) eqn:E; [|reflexivity].
    assert (Hr : forallb isWhiteSpace unsafe_css_comment = false) by reflexivity.
    rewrite (replace_blank re unsafe_css_comment Hne Hr s E) in E. congruence. }
  apply (K _ behavior_nonempty), (K _ expression_nonempty), (K _ javascript_nonempty),
        (K _ import_nonempty), H.
Qed.

Lemma style_clean css :
  Forall (fun re => test re (validateAndSanitizeCSS css) = false) dangerousPatternsCSS.
Proof.
  destruct (forallb isWhiteSpace css) eqn:E.
  - unfold validateAndSanitizeCSS. rewrite blank_forallb, E.
    repeat constructor; vm_compute; reflexivity.
  - rewrite (style_nonblank_stages _ E). apply style_stages_clean.
Qed.

Lemma style_nonblank css : forallb isWhiteSpace (validateAndSanitizeCSS css) = false.
Proof.
  destruct (forallb isWhiteSpace css) eqn:E.
  - unfold validateAndSanitizeCSS. rewrite blank_forallb, E. reflexivity.
  - rewrite (style_nonblank_stages _ E). now apply style_stages_nonblank.
Qed.

Theorem style_idempotent css :
  validateAndSanitizeCSS (validateAndSanitizeCSS css) = validateAndSanitizeCSS css.
Proof.
  unfold validateAndSanitizeCSS at 1.
  rewrite blank_forallb, style_nonblank. cbn [negb].
  apply fold_clean, style_clean.
Qed.

End StyleProof.

(** ** The sanitizer: idempotence, script and form blocks *)
Module SanitizerClaims.
Import JS Regex Shape Includes RegexFacts ShapeFacts ScanFacts Sanitizer SanitizerSpec MarkupFacts MarkupProof StyleProof Assembler.
Local Open Scope N_scope.

Lemma starts_with_app_l w : forall a b, starts_with w a = true -> starts_with w (a ++ b) = true.
Proof.
  induction w as [|p w IH]; intros a b H; [reflexivity|].
  destruct a as [|u a]; [discriminate|]. cbn [starts_with app] in *.
  apply andb_true_iff in H as [H1 H2]. now rewrite H1, (IH _ _ H2).
Qed.

Lemma includes_l a b w : includes a w = true -> includes (a ++ b) w = true.
Proof.
  unfold includes. induction a as [|u a IH]; cbn [anywhere app]; intros H.
  - rewrite orb_false_r in H. pose proof (starts_with_app_l w [] b H) as Hb.
    cbn [app] in Hb. destruct b; cbn [anywhere]; now rewrite Hb.
  - apply orb_true_iff in H as [H|H].
    + pose proof (starts_with_app_l w (u :: a) b H) as Hb. cbn [app] in Hb. now rewrite Hb.
    + rewrite (IH H). apply orb_true_r.
Qed.

Lemma includes_r a b w : includes b w = true -> includes (a ++ b) w = true.
Proof. unfold includes. rewrite anywhere_app. intros ->. apply orb_true_r. Qed.

(** C7.  Sanitizing sanitized markup changes nothing, and the same for
    styles. *)
Theorem sanitizers_idempotent :
  (forall m, validateAndSanitizeHTML (validateAndSanitizeHTML m) = validateAndSanitizeHTML m)
  /\ (forall s, validateAndSanitizeCSS (validateAndSanitizeCSS s) = validateAndSanitizeCSS s).
Proof. split; [exact markup_idempotent | exact style_idempotent]. Qed.

(** C10, counterexample.  A [<form>] tag without a closing tag passes
    through the sanitizer.  And a form block that is complete in the input
    is not always removed: when its closing tag lies inside an object
    block, the object stage takes the closing tag away before the form
    stage runs, and the opening tag and the input field stay. *)
Lemma open_form_survives :
  validateAndSanitizeHTML open_form = open_form
  /\ includes (validateAndSanitizeHTML open_form) (js "<form>") = true
  /\ test re_form split_form = true
  /\ validateAndSanitizeHTML split_form
     = js "<form action=x><input name=q>" ++ unsafe_element_comment.
Proof. vm_compute. repeat split; reflexivity. Qed.

(** C10, amended.  For every markup, the sanitized markup holds no
    complete form block: nowhere does [<form] (in any case) come with its
    first [>] followed by [</form>].  The form stage runs last, on what
    the script, iframe, object and embed stages have left, and replaces
    each block its pattern matches there, inner content included, by the
    comment used for the other elements; on a markup in which none of the
    four earlier patterns matches, that is each form block of the markup
    itself.  A [<form>] tag that is not closed when the form stage runs,
    in the markup or because an earlier stage has removed the closing tag,
    is left in place. *)
Theorem form_blocks_removed :
  (forall m, test re_form (validateAndSanitizeHTML m) = false)
  /\ (forall m, anywhere (opens (js "<form") (js "</form>")) (validateAndSanitizeHTML m) = false)
  /\ (forall m, truthy (trim m) = true ->
        validateAndSanitizeHTML m
        = replace re_form unsafe_element_comment
            (replace re_embed unsafe_element_comment
               (replace re_object unsafe_element_comment
                  (replace re_iframe unsafe_element_comment
                     (replace re_script unsafe_element_comment m)))))
  /\ (forall m, truthy (trim m) = true ->
        test re_script m = false -> test re_iframe m = false ->
        test re_object m = false -> test re_embed m = false ->
        validateAndSanitizeHTML m = replace re_form unsafe_element_comment m)
  /\ (forall s n, match_at re_form s = Some n ->
        replace re_form unsafe_element_comment s
        = unsafe_element_comment ++ replace re_form unsafe_element_comment (skipn n s))
  /\ (forall s u, match_at re_form (u :: s) = None ->
        replace re_form unsafe_element_comment (u :: s)
        = u :: replace re_form unsafe_element_comment s).
Proof.
  assert (H : forall m, test re_form (validateAndSanitizeHTML m) = false).
  { intros m. pose proof (markup_clean m) as Hc. rewrite Forall_forall in Hc.
    apply Hc. unfold dangerousPatternsHTML. simpl. tauto. }
  assert (Hs : forall re m, (if test re m then replace re unsafe_element_comment m else m)
                            = replace re unsafe_element_comment m).
  { intros re m. destruct (test re m) eqn:E; [reflexivity|]. symmetry. now apply replace_id. }
  assert (Hst : forall m, truthy (trim m) = true ->
            validateAndSanitizeHTML m
            = replace re_form unsafe_element_comment
                (replace re_embed unsafe_element_comment
                   (replace re_object unsafe_element_comment
                      (replace re_iframe unsafe_element_comment
                         (replace re_script unsafe_element_comment m))))).
  { intros m Hb. unfold validateAndSanitizeHTML. rewrite Hb. cbn [negb].
    unfold dangerousPatternsHTML. cbn [fold_left]. now rewrite !Hs. }
  split; [exact H|]. split; [|split; [exact Hst|split; [|split]]].
  - intros m.
    rewrite (anywhere_ext _ (fun v => isSome (match_at re_form v))
               (fun v => eq_sym (form_opens v))).
    rewrite <- test_anywhere. apply H.
  - intros m Hb H1 H2 H3 H4. rewrite (Hst m Hb).
    now rewrite (replace_id re_script), (replace_id re_iframe), (replace_id re_object),
      (replace_id re_embed).
  - intros s n Hm. destruct form_block as [Hne _]. destruct n as [|n].
    + now apply Hne in Hm.
    + now apply replace_hit.
  - intros s u Hm. now apply replace_miss.
Qed.

Lemma form_blocks_removed_witness :
  validateAndSanitizeHTML (js "<p>a</p><form a=b>x<i>y</i></form>z")
  = js "<p>a</p>" ++ unsafe_element_comment ++ js "z".
Proof.
  rewrite (proj1 (proj2 (proj2 (proj2 form_blocks_removed)))
             (js "<p>a</p><form a=b>x<i>y</i></form>z") eq_refl eq_refl eq_refl eq_refl eq_refl).
  vm_compute. reflexivity.
Defined.

(** C2, counterexample.  For the markup
    [<script>alert(1)</script><p>ok</p>] the assembled document does not
    contain [alert(1)], and it does contain a [<script>] tag, that of the
    guard script. *)
Lemma script_text_not_retained :
  let doc := document (js "#ffffff") (validateAndSanitizeCSS []) (validateAndSanitizeHTML script_example) in
  generatePreviewContent Stub.compileString (js "#ffffff") script_example [] Sass.initial
  = (Sass.Returned doc, Sass.initial)
  /\ validateAndSanitizeHTML script_example = unsafe_element_comment ++ js "<p>ok</p>"
  /\ includes doc (js "alert(1)") = false
  /\ includes doc (js "<script>") = true.
Proof. vm_compute. repeat split; reflexivity. Qed.

(** C2, amended.  For every markup, the sanitized markup holds no
    script block; each one is replaced by the fixed comment
    [<!-- Unsafe element removed for security -->], which does not keep
    the script's text.  For [<script>alert(1)</script><p>ok</p>] the
    sanitized markup is that comment followed by [<p>ok</p>]; the
    assembled document contains both, and the [<script>] tag of its own
    guard script. *)
Theorem script_blocks_replaced :
  (forall m, test re_script (validateAndSanitizeHTML m) = false)
  /\ (forall s n, match_at re_script s = Some n ->
        replace re_script unsafe_element_comment s
        = unsafe_element_comment ++ replace re_script unsafe_element_comment (skipn n s))
  /\ validateAndSanitizeHTML script_example = unsafe_element_comment ++ js "<p>ok</p>"
  /\ includes (validateAndSanitizeHTML script_example) (js "alert(1)") = false
  /\ (forall compileString bg css,
        let doc := document bg (validateAndSanitizeCSS css)
                     (validateAndSanitizeHTML script_example) in
        generatePreviewContent compileString bg script_example css Sass.initial
        = (Sass.Returned doc, Sass.initial)
        /\ includes doc (js "<p>ok</p>") = true
        /\ includes doc unsafe_element_comment = true
        /\ includes doc (js "<script>") = true).
Proof.
  split; [|split; [|split; [|split]]].
  - intros m. pose proof (markup_clean m) as Hc. now apply Forall_inv in Hc.
  - intros s n Hm. destruct script_block as [Hne _]. destruct n as [|n].
    + now apply Hne in Hm.
    + now apply replace_hit.
  - vm_compute. reflexivity.
  - vm_compute. reflexivity.
  - intros compileString bg css. cbv zeta. split; [reflexivity|].
    assert (E : validateAndSanitizeHTML script_example = unsafe_element_comment ++ js "<p>ok</p>")
      by (vm_compute; reflexivity).
    unfold document. rewrite E. repeat split.
    + do 5 apply includes_r. apply includes_l, includes_r. vm_compute. reflexivity.
    + do 5 apply includes_r. do 2 apply includes_l. vm_compute. reflexivity.
    + do 6 apply includes_r. vm_compute. reflexivity.
Qed.

Lemma script_blocks_replaced_witness :
  replace re_script unsafe_element_comment script_example
  = unsafe_element_comment
    ++ replace re_script unsafe_element_comment (skipn 25 script_example).
Proof.
  exact (proj1 (proj2 script_blocks_replaced) script_example 25%nat eq_refl).
Defined.

End SanitizerClaims.

(** ** The four outcomes of [compileSass] *)
Module SassFacts.
Import JS Sass SassSpec.

Lemma eqb_str_eq a b : eqb_str a b = true <-> a = b.
Proof. unfold eqb_str. destruct (list_eq_dec N.eq_dec a b); split; congruence. Qed.

Lemma eqb_str_refl a : eqb_str a a = true.
Proof. now apply eqb_str_eq. Qed.

Lemma map_get_set_same k v m : map_get k (map_set k v m) = Some v.
Proof.
  induction m as [|[k' v'] m IH]; simpl.
  - now rewrite eqb_str_refl.
  - destruct (eqb_str k k') eqn:E; simpl; rewrite E; [reflexivity | exact IH].
Qed.

Lemma map_get_set_other k k' v m : k' <> k -> map_get k' (map_set k v m) = map_get k' m.
Proof.
  intros Hne. induction m as [|[k2 v2] m IH]; simpl.
  - destruct (eqb_str k' k) eqn:E; [apply eqb_str_eq in E; contradiction | reflexivity].
  - destruct (eqb_str k k2) eqn:E; simpl.
    + apply eqb_str_eq in E. subst k2.
      destruct (eqb_str k' k) eqn:E2; [apply eqb_str_eq in E2; contradiction | reflexivity].
    + destruct (eqb_str k' k2); [reflexivity | exact IH].
Qed.

Lemma map_set_fresh k v m : map_get k m = None -> map_set k v m = m ++ [(k, v)].
Proof.
  induction m as [|[k' v'] m IH]; simpl; intros H; [reflexivity|].
  destruct (eqb_str k k'); [discriminate|]. now rewrite IH.
Qed.

Lemma map_get_In k v m : map_get k m = Some v -> In (k, v) m.
Proof.
  induction m as [|[k' v'] m IH]; simpl; intros H; [discriminate|].
  destruct (eqb_str k k') eqn:E.
  - apply eqb_str_eq in E. injection H as ->. subst. now left.
  - right. now apply IH.
Qed.

Lemma In_map_delete x k m : In x (map_delete k m) -> In x m.
Proof.
  induction m as [|[k' v'] m IH]; simpl; intros H; [exact H|].
  destruct (eqb_str k k'); [now right|]. destruct H as [H|H]; [now left | right; now apply IH].
Qed.

Lemma In_map_set x k v m : In x (map_set k v m) -> x = (k, v) \/ In x m.
Proof.
  induction m as [|[k' v'] m IH]; simpl; intros H.
  - destruct H as [H|[]]. now left.
  - destruct (eqb_str k k') eqn:E.
    + apply eqb_str_eq in E. subst k'. destruct H as [H|H]; [now left | right; now right].
    + destruct H as [H|H]; [right; now left|]. apply IH in H. tauto.
Qed.

Lemma map_set_size k v m : (map_size (map_set k v m) <= S (map_size m))%nat.
Proof.
  unfold map_size. induction m as [|[k' v'] m IH]; simpl; [lia|].
  destruct (eqb_str k k'); simpl; lia.
Qed.

Section Compile.
Variable compileString : Compiler.

Lemma compileSass_skip src st :
  isSassMode st = false \/ truthy (trim src) = false ->
  Sass.compileSass compileString src st = (Returned src, st).
Proof.
  intros H. unfold Sass.compileSass, bind, get.
  destruct H as [-> | ->]; [reflexivity | now rewrite orb_true_r].
Qed.

Lemma compileSass_hit src st css :
  isSassMode st = true -> truthy (trim src) = true ->
  map_get src (sassCache st) = Some css ->
  Sass.compileSass compileString src st = (Returned css, st).
Proof.
  intros Hm Hb Hg. unfold Sass.compileSass, bind, get. now rewrite Hm, Hb, Hg.
Qed.

Lemma compileSass_miss_ok src st css :
  isSassMode st = true -> truthy (trim src) = true ->
  map_get src (sassCache st) = None ->
  compileString (length (compilerCalls st)) src = Returned css ->
  Sass.compileSass compileString src st
  = (Returned css, set_cache (map_set src css (evict (sassCache st))) (log_call src st)).
Proof.
  intros Hm Hb Hg Hc.
  unfold Sass.compileSass, bind, get, try_catch, call_compileString, modify, ret, evict.
  rewrite Hm, Hb, Hg. cbn [negb orb]. rewrite Hc. cbn [log_call sassCache].
  destruct (10 <? map_size (sassCache st))%nat; [|reflexivity].
  destruct (map_first_key (sassCache st)); reflexivity.
Qed.

Lemma compileSass_miss_fail src st e :
  isSassMode st = true -> truthy (trim src) = true ->
  map_get src (sassCache st) = None ->
  compileString (length (compilerCalls st)) src = Thrown e ->
  Sass.compileSass compileString src st = (Returned (fallback e src), log_call src st).
Proof.
  intros Hm Hb Hg Hc.
  unfold Sass.compileSass, bind, get, try_catch, call_compileString, ret.
  rewrite Hm, Hb, Hg. cbn [negb orb]. now rewrite Hc.
Qed.

(** The four ways a call can go. *)
Lemma compileSass_cases src st :
  (Sass.compileSass compileString src st = (Returned src, st)
   /\ (isSassMode st = false \/ truthy (trim src) = false))
  \/ (exists css, Sass.compileSass compileString src st = (Returned css, st)
      /\ isSassMode st = true /\ truthy (trim src) = true
      /\ map_get src (sassCache st) = Some css)
  \/ (exists css, Sass.compileSass compileString src st
                  = (Returned css, set_cache (map_set src css (evict (sassCache st)))
                                     (log_call src st))
      /\ isSassMode st = true /\ truthy (trim src) = true
      /\ map_get src (sassCache st) = None
      /\ compileString (length (compilerCalls st)) src = Returned css)
  \/ (exists e, Sass.compileSass compileString src st = (Returned (fallback e src), log_call src st)
      /\ isSassMode st = true /\ truthy (trim src) = true
      /\ map_get src (sassCache st) = None
      /\ compileString (length (compilerCalls st)) src = Thrown e).
Proof.
  destruct (isSassMode st) eqn:Hm; [|left; split; [apply compileSass_skip|]; auto].
  destruct (truthy (trim src)) eqn:Hb; [|left; split; [apply compileSass_skip|]; auto].
  destruct (map_get src (sassCache st)) as [css|] eqn:Hg.
  - right; left. exists css. split; [now apply compileSass_hit | auto].
  - destruct (compileString (length (compilerCalls st)) src) as [css|e] eqn:Hc.
    + right; right; left. exists css. split; [now apply compileSass_miss_ok | auto].
    + right; right; right. exists e. split; [now apply compileSass_miss_fail | auto].
Qed.

Lemma compileSass_returns src st : exists out, fst (Sass.compileSass compileString src st) = Returned out.
Proof.
  destruct (compileSass_cases src st) as [[H _]|[(c & H & _)|[(c & H & _)|(e & H & _)]]];
    rewrite H; simpl; eauto.
Qed.

Lemma In_evict x m : In x (evict m) -> In x m.
Proof.
  unfold evict. destruct (10 <? map_size m)%nat; [|auto].
  destruct (map_first_key m); [apply In_map_delete | auto].
Qed.

Lemma evict_size m : (map_size m <= 11 -> map_size (evict m) <= 10)%nat.
Proof.
  unfold evict, map_size. destruct m as [|[k v] m]; simpl; [lia|].
  destruct (10 <? S (length m))%nat eqn:E.
  - simpl. rewrite SassFacts.eqb_str_refl. lia.
  - apply Nat.ltb_ge in E. simpl. lia.
Qed.

Lemma nth_error_log {A} (l : list A) a n x :
  nth_error l n = Some x -> nth_error (l ++ [a]) n = Some x.
Proof.
  intros H. rewrite nth_error_app1; [exact H|]. apply nth_error_Some. congruence.
Qed.

Lemma nth_error_last {A} (l : list A) a : nth_error (l ++ [a]) (length l) = Some a.
Proof. rewrite nth_error_app2, Nat.sub_diag by lia. reflexivity. Qed.

Lemma compileSass_sound src st :
  cache_sound compileString st ->
  cache_sound compileString (snd (Sass.compileSass compileString src st)).
Proof.
  intros Hs.
  destruct (compileSass_cases src st)
    as [[H _]|[(c & H & _)|[(c & H & _ & _ & _ & Hc)|(e & H & _)]]];
    rewrite H; cbn [snd]; auto.
  - intros k v Hin. cbn [sassCache set_cache compilerCalls log_call] in *.
    apply In_map_set in Hin as [Heq|Hin].
    + injection Heq as -> ->. exists (length (compilerCalls st)).
      split; [apply nth_error_last | exact Hc].
    + apply In_evict in Hin. destruct (Hs _ _ Hin) as (n & Hn & Hv).
      exists n. split; [now apply nth_error_log | exact Hv].
  - intros k v Hin. cbn [sassCache log_call compilerCalls] in *.
    destruct (Hs _ _ Hin) as (n & Hn & Hv).
    exists n. split; [now apply nth_error_log | exact Hv].
Qed.

Lemma compileSass_bound src st :
  (map_size (sassCache st) <= 11 -> map_size (sassCache (snd (Sass.compileSass compileString src st))) <= 11)%nat.
Proof.
  intros Hb.
  destruct (compileSass_cases src st) as [[H _]|[(c & H & _)|[(c & H & _)|(e & H & _)]]];
    rewrite H; simpl; auto.
  pose proof (map_set_size src c (evict (sassCache st))).
  pose proof (evict_size _ Hb). lia.
Qed.

Lemma reachable_sound st : reachable compileString st -> cache_sound compileString st.
Proof.
  induction 1 as [|st b _ IH|st src _ IH].
  - intros k v [].
  - exact IH.
  - now apply compileSass_sound.
Qed.

Lemma reachable_bound st : reachable compileString st -> (map_size (sassCache st) <= 11)%nat.
Proof.
  induction 1 as [|st b _ IH|st src _ IH].
  - simpl. lia.
  - exact IH.
  - now apply compileSass_bound.
Qed.

(** A deterministic compiler has not returned, and so nothing is cached
    for, a text on which it throws. *)
Lemma reachable_miss st src e n :
  deterministic compileString -> reachable compileString st ->
  compileString n src = Thrown e -> map_get src (sassCache st) = None.
Proof.
  intros Hd Hr Hc. destruct (map_get src (sassCache st)) as [v|] eqn:E; [|reflexivity].
  apply map_get_In in E. destruct (reachable_sound _ Hr _ _ E) as (i & _ & Hv).
  rewrite (Hd i n) in Hv. congruence.
Qed.

End Compile.

End SassFacts.

(** ** The cache: bound, hits and failures *)
Module SassClaims.
Import JS Sass SassSpec SassFacts.

(** C1 (the code at the failing input).  With the cache empty and Sass
    mode on, compiling the eleven distinct texts [.a{}] ... [.k{}] leaves
    eleven entries in the cache, the first-inserted [.a{}] among them: the
    test [sassCache.size > 10] runs before [set].  Only the twelfth
    insertion evicts [.a{}], and the cache then again holds eleven. *)
Theorem cache_holds_eleven :
  let st := snd (compile_all Stub.compileString Stub.eleven sass_on) in
  map_size (sassCache st) = 11%nat
  /\ map fst (sassCache st) = Stub.eleven
  /\ map_has (js ".a{}") (sassCache st) = true
  /\ map fst (sassCache (snd (compileSass Stub.compileString (js ".l{}") st)))
     = tl Stub.eleven ++ [js ".l{}"].
Proof. vm_compute. repeat split; reflexivity. Qed.

(** C3, counterexample.  Two successive [compileSass] calls do not always
    invoke the compiler exactly once: on a blank text it is never invoked,
    and on a text it rejects it is invoked by both calls.  Nor does the
    second call always return what the first returned: with a compiler
    that fails the first time and not the second, the first call returns
    the fallback text and the second the compiled text. *)
Lemma two_calls_not_one :
  calls_of_two Stub.compileString (js "   ") sass_on = []
  /\ calls_of_two Stub.compileString (js ".x { color: }") sass_on
     = [js ".x { color: }"; js ".x { color: }"]
  /\ (let r1 := compileSass Stub.flaky (js "@use 'a';") sass_on in
      let r2 := compileSass Stub.flaky (js "@use 'a';") (snd r1) in
      fst r1 = Returned (js "/* Sass compilation error: Can't find stylesheet to import. */"
                         ++ [10%N] ++ js "@use 'a';")
      /\ fst r2 = Returned (js "@use 'a';")
      /\ calls_of_two Stub.flaky (js "@use 'a';") sass_on = [js "@use 'a';"; js "@use 'a';"]).
Proof. vm_compute. repeat split; reflexivity. Qed.

Lemma skipn_length_app {A} (a b : list A) : skipn (length a) (a ++ b) = b.
Proof. induction a; simpl; auto. Qed.

(** C3, amended.  For every compiler, source text and state: when Sass
    mode is off, the text is blank or the text is cached, two successive
    [compileSass] calls do not invoke the compiler and the second returns
    what the first returned; when the text is not cached and the compiler
    accepts it, the compiler is invoked exactly once, by the first call,
    and the second call returns the same output, from the cache; when the
    compiler throws, the first call returns the fallback text, nothing is
    cached, and the second call invokes the compiler again and returns
    what comes of that second answer, which need not be the first.  With
    a compiler that answers a text the same way at every call, the second
    call always returns what the first returned. *)
Theorem compile_twice compileString src st :
  let r1 := compileSass compileString src st in
  let r2 := compileSass compileString src (snd r1) in
  let n := length (compilerCalls st) in
  (if negb (isSassMode st) || negb (truthy (trim src))
   then calls_of_two compileString src st = []
        /\ fst r1 = Returned src /\ fst r2 = fst r1
   else match map_get src (sassCache st) with
        | Some css =>
            calls_of_two compileString src st = []
            /\ fst r1 = Returned css /\ fst r2 = fst r1
        | None =>
            match compileString n src with
            | Returned css =>
                calls_of_two compileString src st = [src]
                /\ fst r1 = Returned css /\ fst r2 = fst r1
            | Thrown e =>
                calls_of_two compileString src st = [src; src]
                /\ fst r1 = Returned (fallback e src)
                /\ fst r2 = Returned (answer compileString (S n) src)
            end
        end)
  /\ (deterministic compileString -> fst r2 = fst r1).
Proof.
  unfold calls_of_two. cbv zeta.
  assert (Hnil : skipn (length (compilerCalls st)) (compilerCalls st) = []).
  { rewrite <- (app_nil_r (compilerCalls st)) at 2. apply skipn_length_app. }
  destruct (compileSass_cases compileString src st)
    as [[H Hc]|[(c & H & Hm & Hb & Hg)|[(c & H & Hm & Hb & Hg & Hc)|(e & H & Hm & Hb & Hg & Hc)]]];
    rewrite H; cbn [fst snd].
  - rewrite H. cbn [fst snd]. split; [|reflexivity].
    destruct Hc as [-> | ->]; [|rewrite orb_true_r]; cbn [negb orb]; auto.
  - rewrite H. cbn [fst snd]. split; [|reflexivity].
    rewrite Hm, Hb, Hg. cbn [negb orb]. auto.
  - rewrite (compileSass_hit compileString src _ c); cbn [isSassMode set_cache log_call sassCache];
      auto using map_get_set_same.
    cbn [fst snd compilerCalls set_cache log_call]. split; [|reflexivity].
    rewrite skipn_length_app, Hm, Hb, Hg, Hc. cbn [negb orb]. auto.
  - assert (Hn : length (compilerCalls (log_call src st)) = S (length (compilerCalls st))).
    { cbn [log_call compilerCalls]. rewrite length_app. cbn. lia. }
    assert (H2 : compileSass compileString src (log_call src st)
                 = (Returned (answer compileString (S (length (compilerCalls st))) src),
                    match compileString (S (length (compilerCalls st))) src with
                    | Returned css =>
                        set_cache (map_set src css (evict (sassCache st)))
                          (log_call src (log_call src st))
                    | Thrown _ => log_call src (log_call src st)
                    end)).
    { unfold answer.
      destruct (compileString (S (length (compilerCalls st))) src) as [css'|e'] eqn:Hc'.
      - rewrite (compileSass_miss_ok compileString src (log_call src st) css');
          [reflexivity| | | |]; auto. now rewrite Hn.
      - rewrite (compileSass_miss_fail compileString src (log_call src st) e');
          [reflexivity| | | |]; auto. now rewrite Hn. }
    rewrite H2. cbn [fst snd]. split.
    + rewrite Hm, Hb, Hg, Hc. cbn [negb orb]. split; [|auto].
      destruct (compileString (S (length (compilerCalls st))) src);
        cbn [compilerCalls set_cache log_call];
        now rewrite <- app_assoc, skipn_length_app.
    + intros Hd. unfold answer.
      now rewrite (Hd (S (length (compilerCalls st))) (length (compilerCalls st)) src), Hc.
Qed.

(** C6.  When the compiler throws on a non-blank text in Sass mode that
    is not cached, [compileSass] returns (it does not throw) the original
    text prefixed with the comment [/* Sass compilation error: <message> */]
    and a line break, the cache is left as it was and holds no entry for
    the text.  The text is not cached, in particular, in every state that
    can be reached with a compiler that answers a text the same way at
    every call.  The message is the compiler's own whenever that is
    non-empty.  [compileSass] never throws, whatever the text and the
    state. *)
Theorem compile_failure compileString st src e :
  isSassMode st = true ->
  truthy (trim src) = true ->
  compileString (length (compilerCalls st)) src = Thrown e ->
  map_get src (sassCache st) = None
  \/ (deterministic compileString /\ reachable compileString st) ->
  compileSass compileString src st
  = (Returned (js "/* Sass compilation error: "
               ++ or_default (message e) (js "Unknown error")
               ++ js " */" ++ [10%N] ++ src),
     log_call src st)
  /\ sassCache (snd (compileSass compileString src st)) = sassCache st
  /\ map_has src (sassCache (snd (compileSass compileString src st))) = false
  /\ (forall m, message e = Some m -> m <> [] ->
      or_default (message e) (js "Unknown error") = m)
  /\ (forall src' st', exists out, fst (compileSass compileString src' st') = Returned out).
Proof.
  intros Hm Hb Hc Hr.
  assert (Hg : map_get src (sassCache st) = None).
  { destruct Hr as [Hg|[Hd Hr]]; [exact Hg|]. exact (reachable_miss _ _ _ _ _ Hd Hr Hc). }
  rewrite (compileSass_miss_fail compileString src st e Hm Hb Hg Hc).
  cbn [snd log_call sassCache]. unfold map_has. rewrite Hg.
  repeat split.
  - intros m -> Hne. destruct m; [contradiction | reflexivity].
  - intros. apply compileSass_returns.
Qed.

Lemma compile_failure_witness :
  compileSass Stub.compileString (js ".x { color: }") sass_on
  = (Returned (js "/* Sass compilation error: Expected expression. */" ++ [10%N]
               ++ js ".x { color: }"),
     log_call (js ".x { color: }") sass_on).
Proof.
  pose proof (compile_failure Stub.compileString sass_on (js ".x { color: }")
                {| message := Some (js "Expected expression.") |}
                eq_refl eq_refl eq_refl (or_introl eq_refl)) as [H _].
  exact H.
Defined.

End SassClaims.

(** ** The debounce invariant *)
Module SchedulerFacts.
Import JS Assembler View ViewSpec.

Lemma Inv_same st st' :
  nextTimerId (host st') = nextTimerId (host st) ->
  timers (host st') = timers (host st) ->
  updateTimeout st' = updateTimeout st ->
  Inv st -> Inv st'.
Proof.
  unfold Inv, pending_jobs, Timers_ok. intros -> -> ->. auto.
Qed.

Lemma NoDup_map_filter {A B} (f : A -> B) (p : A -> bool) l :
  NoDup (map f l) -> NoDup (map f (filter p l)).
Proof.
  induction l as [|a l IH]; cbn [map filter]; intros H; [constructor|].
  inversion H as [|x xs Hx Hn]; subst. destruct (p a); cbn [map]; [|auto].
  constructor; [|auto]. intros Hin. apply Hx.
  apply in_map_iff in Hin as (b & Hb & Hin). apply filter_In in Hin as [Hin _].
  rewrite <- Hb. now apply in_map.
Qed.

Lemma Timers_ok_clear id h : Timers_ok h -> Timers_ok (clearTimeout id h).
Proof.
  intros (H1 & H2 & H3). unfold Timers_ok. cbn [clearTimeout timers nextTimerId].
  repeat split.
  - now apply NoDup_map_filter.
  - rewrite Forall_forall in *. intros t Ht. apply filter_In in Ht. now apply H2.
  - rewrite Forall_forall in *. intros t Ht. apply filter_In in Ht. now apply H3.
Qed.

Lemma Timers_ok_set task delay h :
  timer_task task = true -> Timers_ok h -> Timers_ok (snd (setTimeout task delay h)).
Proof.
  intros Ht (H1 & H2 & H3). unfold Timers_ok. cbn [setTimeout snd timers nextTimerId].
  repeat split.
  - rewrite map_app. cbn [map timerId]. apply NoDup_app; [exact H1 | | ].
    + constructor; [intros [] | constructor].
    + intros x Hx [<-|[]]. apply in_map_iff in Hx as (t & Hid & Hin).
      rewrite Forall_forall in H2. specialize (H2 _ Hin). lia.
  - apply Forall_app. split.
    + rewrite Forall_forall in *. intros t Hin. specialize (H2 _ Hin). lia.
    + constructor; [cbn; lia | constructor].
  - apply Forall_app. split; [exact H3|]. constructor; [exact Ht | constructor].
Qed.

Lemma owned_filter u f ts : owned u ts -> owned u (filter f ts).
Proof.
  unfold owned. rewrite !Forall_forall. intros H t Ht. apply filter_In in Ht. now apply H.
Qed.

Lemma jobs_filter_le f ts : (length (jobs (filter f ts)) <= length (jobs ts))%nat.
Proof.
  unfold jobs. induction ts as [|t ts IH]; simpl; [lia|].
  destruct (f t); simpl; destruct (is_update_job (timerTask t)); simpl; lia.
Qed.

Lemma jobs_app a b : jobs (a ++ b) = jobs a ++ jobs b.
Proof. apply filter_app. Qed.

Lemma owned_none_jobs ts : owned None ts -> jobs ts = [].
Proof.
  unfold owned, jobs. induction 1 as [|t ts H _ IH]; simpl; [reflexivity|].
  destruct (is_update_job (timerTask t)); [now specialize (H eq_refl) | exact IH].
Qed.

Lemma owned_clear id ts :
  owned (Some id) ts -> jobs (filter (fun t => negb (timerId t =? id)%nat) ts) = [].
Proof.
  unfold owned, jobs. induction 1 as [|t ts H _ IH]; simpl; [reflexivity|].
  destruct (timerId t =? id)%nat eqn:E; simpl; [exact IH|].
  destruct (is_update_job (timerTask t)); [|exact IH].
  specialize (H eq_refl). injection H as ->. now rewrite Nat.eqb_refl in E.
Qed.

Lemma jobs_nil_owned u ts : jobs ts = [] -> owned u ts.
Proof.
  unfold owned, jobs. induction ts as [|t ts IH]; simpl; intros H; constructor.
  - destruct (is_update_job (timerTask t)); [discriminate | discriminate].
  - apply IH. destruct (is_update_job (timerTask t)); [discriminate | exact H].
Qed.

Ltac proj := cbn [host timers nextTimerId now settings htmlContent cssContent updateTimeout
                  set_host set_updateTimeout set_content set_settings set_sinks set_sass
                  set_monitor emit clearTimeout setTimeout requestAnimationFrame
                  cancelAnimationFrame take_requests advance fst snd].

Lemma clearUpdateTimeout_spec st :
  Inv st ->
  let st' := clearUpdateTimeout st in
  pending_jobs st' = []
  /\ nextTimerId (host st') = nextTimerId (host st)
  /\ now (host st') = now (host st)
  /\ settings st' = settings st
  /\ htmlContent st' = htmlContent st /\ cssContent st' = cssContent st
  /\ Inv st'.
Proof.
  intros (Hn & Hp & Ho & Hl & Hu). unfold clearUpdateTimeout. cbv zeta.
  destruct (updateTimeout st) as [id|] eqn:E.
  - specialize (Hp id eq_refl). apply Nat.ltb_lt in Hp. rewrite Hp.
    pose proof (owned_clear _ _ Ho) as Hj. pose proof (Timers_ok_clear id _ Hu) as Hu'.
    unfold Inv, pending_jobs. proj. rewrite Hj.
    repeat split; auto; try discriminate; try apply Hu'. now apply jobs_nil_owned.
  - pose proof (owned_none_jobs _ Ho) as Hj. unfold Inv, pending_jobs. rewrite E, Hj.
    repeat split; auto; apply Hu.
Qed.

Lemma schedule_spec task delay st :
  timer_task task = true ->
  Inv st -> pending_jobs st = [] ->
  Inv (set_updateTimeout (Some (fst (setTimeout task delay (host st))))
         (set_host (snd (setTimeout task delay (host st))) st)).
Proof.
  intros Ht (Hn & Hp & Ho & Hl & Hu) Hj.
  pose proof (Timers_ok_set task delay _ Ht Hu) as Hu'.
  unfold Inv, pending_jobs in *. split; [|split; [|split; [|split]]].
  - proj. lia.
  - proj. intros id Hid. injection Hid as <-. exact Hn.
  - proj. apply Forall_app. split.
    + now apply jobs_nil_owned.
    + constructor; [|constructor]. reflexivity.
  - proj. rewrite jobs_app, Hj. unfold jobs. cbn [filter timerTask app length].
    destruct (is_update_job task); cbn [length]; lia.
  - exact Hu'.
Qed.

Lemma add_other_timer task delay st :
  is_update_job task = false -> timer_task task = true -> Inv st ->
  Inv (set_host (snd (setTimeout task delay (host st))) st).
Proof.
  intros Ht Hk (Hn & Hp & Ho & Hl & Hu).
  pose proof (Timers_ok_set task delay _ Hk Hu) as Hu'.
  unfold Inv, pending_jobs in *. split; [|split; [|split; [|split]]].
  - proj. lia.
  - exact Hp.
  - proj. apply Forall_app. split; [exact Ho|]. constructor; [|constructor].
    cbn [timerTask]. rewrite Ht. discriminate.
  - proj. rewrite jobs_app. unfold jobs at 2. cbn [filter timerTask].
    rewrite Ht, app_nil_r. exact Hl.
  - exact Hu'.
Qed.

Lemma remove_timer id st : Inv st -> Inv (set_host (clearTimeout id (host st)) st).
Proof.
  intros (Hn & Hp & Ho & Hl & Hu). pose proof (Timers_ok_clear id _ Hu) as Hu'.
  unfold Inv, pending_jobs in *. split; [|split; [|split; [|split]]].
  - exact Hn.
  - exact Hp.
  - proj. now apply owned_filter.
  - proj. pose proof (jobs_filter_le (fun t => negb (timerId t =? id)%nat) (timers (host st))).
    lia.
  - exact Hu'.
Qed.

Lemma onContentChange_Inv html css st : Inv st -> Inv (onContentChange html css st).
Proof.
  intros H. unfold onContentChange.
  assert (H0 : Inv (set_content html css st)) by (revert H; now apply Inv_same).
  destruct (autoRefresh (settings (set_content html css st))); [|exact H0].
  destruct (clearUpdateTimeout_spec _ H0) as (Hj & _ & _ & _ & _ & _ & Hi).
  cbv zeta. exact (schedule_spec UpdatePreviewJob _ _ eq_refl Hi Hj).
Qed.

Lemma updatePreview_Inv st : Inv st -> Inv (updatePreview st).
Proof. now apply Inv_same. Qed.

Lemma applySettings_Inv st : Inv st -> Inv (applySettings st).
Proof.
  intros H. unfold applySettings.
  destruct (autoRefresh (settings st) && (truthy (htmlContent st) || truthy (cssContent st)));
    [|exact H].
  destruct (clearUpdateTimeout_spec _ H) as (Hj & _ & _ & _ & _ & _ & Hi).
  exact (schedule_spec UpdatePreviewJob _ _ eq_refl Hi Hj).
Qed.

Lemma manualRefreshPreview_Inv st : Inv st -> Inv (manualRefreshPreview st).
Proof.
  intros H. unfold manualRefreshPreview.
  destruct (clearUpdateTimeout_spec _ H) as (_ & _ & _ & _ & _ & _ & Hi).
  apply updatePreview_Inv in Hi.
  exact (add_other_timer RestoreRefreshButton 500 _ eq_refl eq_refl Hi).
Qed.

Lemma startMonitoring_Inv st : Inv st -> Inv (startMonitoring st).
Proof.
  unfold startMonitoring. destruct (previewHasWindow (sinks st)); [|auto]. now apply Inv_same.
Qed.

Lemma monitorCallback_Inv els st : Inv st -> Inv (monitorCallback els st).
Proof.
  unfold monitorCallback. destruct (previewFrame (sinks st)); auto.
  destruct (sample_elements _ _ _) as [m []]; now apply Inv_same.
Qed.

Lemma renderToFrame_Inv k f c st : Inv st -> Inv (renderPreviewContentToFrame k f c st).
Proof. destruct f as [[]|]; cbn; auto; now apply Inv_same. Qed.

Lemma renderPreviewContent_Inv c st : Inv st -> Inv (renderPreviewContent c st).
Proof.
  unfold renderPreviewContent, renderPreviewError.
  destruct (previewFrame (sinks st)); auto; now apply Inv_same.
Qed.

Section Run.
Variable compileString : Sass.Compiler.

Lemma previewFrameCallback_Inv st : Inv st -> Inv (previewFrameCallback compileString st).
Proof.
  intros H. unfold previewFrameCallback.
  destruct (generatePreviewContent _ _ _ _ _) as [[content|e] sass'].
  - assert (H1 : Inv (renderPreviewContent content (set_sass sass' st))).
    { apply renderPreviewContent_Inv. revert H. now apply Inv_same. }
    apply (add_other_timer StartMonitoringJob 100 _ eq_refl eq_refl) in H1.
    cbn [setTimeout snd] in H1. cbn [setTimeout].
    set (st1 := set_host _ _) in *.
    assert (H2 : Inv (match pipFrame (sinks st1) with
                      | Some _ => let (_, h) := requestAnimationFrame (PipFrameWrite content)
                                                  (host st1) in set_host h st1
                      | None => st1 end)).
    { destruct (pipFrame (sinks st1)); [|exact H1]. revert H1. now apply Inv_same. }
    set (st2 := match pipFrame (sinks st1) with Some _ => _ | None => _ end) in *.
    destruct (fullscreenOverlay (sinks st2)); [|exact H2]. revert H2. now apply Inv_same.
  - revert H. now apply Inv_same.
Qed.

Lemma run_task_Inv els t st : Inv st -> Inv (run_task compileString els t st).
Proof.
  intros H. destruct t; cbn [run_task].
  - now apply updatePreview_Inv.
  - exact H.
  - now apply startMonitoring_Inv.
  - now apply previewFrameCallback_Inv.
  - now apply renderToFrame_Inv.
  - destruct (fullscreenOverlay (sinks st)) as [[f|]|]; auto.
    now apply renderToFrame_Inv.
  - now apply monitorCallback_Inv.
Qed.

Lemma fire_Inv ts : forall st, Inv st -> Inv (fire compileString ts st).
Proof.
  induction ts as [|t ts IH]; intros st H; [exact H|]. cbn [fire].
  destruct (existsb _ _); [|now apply IH].
  apply IH, run_task_Inv, remove_timer, H.
Qed.

Lemma tick_Inv st : Inv st -> Inv (tick compileString st).
Proof.
  intros H. unfold tick. apply fire_Inv. revert H. now apply Inv_same.
Qed.

Lemma animationFrame_Inv els st : Inv st -> Inv (animationFrame compileString els st).
Proof.
  intros H. unfold animationFrame.
  assert (H0 : Inv (set_host (take_requests (host st)) st)) by (revert H; now apply Inv_same).
  revert H0. generalize (set_host (take_requests (host st)) st).
  induction (frameRequests (host st)) as [|r rs IH]; intros s Hs; [exact Hs|].
  cbn [fold_left]. apply IH, run_task_Inv, Hs.
Qed.

Lemma stopMonitoring_Inv st : Inv st -> Inv (stopMonitoring st).
Proof.
  unfold stopMonitoring. destruct (rafId (monitor st)) as [id|]; [|auto].
  destruct (0 <? id)%nat; [|auto]. now apply Inv_same.
Qed.

Lemma step_Inv st e : Inv st -> Inv (step compileString st e).
Proof.
  intros H. destruct e; cbn [step].
  - now apply onContentChange_Inv.
  - apply onContentChange_Inv. revert H. now apply Inv_same.
  - now apply manualRefreshPreview_Inv.
  - apply applySettings_Inv. revert H. now apply Inv_same.
  - now apply tick_Inv.
  - now apply animationFrame_Inv.
  - revert H. now apply Inv_same.
  - revert H. now apply Inv_same.
  - revert H. now apply Inv_same.
  - destruct (clearUpdateTimeout_spec _ H) as (_ & _ & _ & _ & _ & _ & Hi).
    now apply stopMonitoring_Inv.
Qed.

Lemma run_Inv evs : forall st, Inv st -> Inv (run compileString evs st).
Proof.
  induction evs as [|e evs IH]; intros st H; [exact H|].
  cbn [run fold_left]. apply IH, step_Inv, H.
Qed.

Lemma initial_Inv : Inv initial.
Proof.
  unfold Inv, pending_jobs, Timers_ok. cbn.
  repeat split; try lia; try discriminate; constructor.
Qed.

End Run.

End SchedulerFacts.

(** ** What one render does *)
Module RenderFacts.
Import JS Sanitizer Assembler View ViewSpec SchedulerFacts.

Section Run.
Variable compileString : Sass.Compiler.

Lemma generate_returns bg html css s :
  exists content s',
    generatePreviewContent compileString bg html css s = (Sass.Returned content, s').
Proof.
  unfold generatePreviewContent, Sass.bind, Sass.get, Sass.ret.
  destruct (Sass.isSassMode s); [|eauto].
  destruct (SassFacts.compileSass_returns compileString css s) as [out H].
  destruct (Sass.compileSass compileString css s) as [[c|e] s']; cbn in H; [eauto|discriminate].
Qed.

Lemma previewFrameCallback_spec st :
  let content := generated compileString st in
  let st' := previewFrameCallback compileString st in
  output st' = output st ++ primary_out (previewFrame (sinks st)) content
  /\ sinks st' = sinks st
  /\ frameRequests (host st')
     = frameRequests (host st)
       ++ match pipFrame (sinks st) with
          | Some _ => [{| requestId := nextRequestId (host st);
                          requestTask := PipFrameWrite content |}]
          | None => []
          end
       ++ match fullscreenOverlay (sinks st) with
          | Some _ => [{| requestId := match pipFrame (sinks st) with
                                       | Some _ => S (nextRequestId (host st))
                                       | None => nextRequestId (host st)
                                       end;
                          requestTask := FullscreenFrameWrite content |}]
          | None => []
          end.
Proof.
  cbv zeta. unfold generated, previewFrameCallback.
  destruct (generate_returns (previewBackground (settings st)) (htmlContent st)
              (cssContent st) (sass st)) as (content & s' & ->).
  cbn [fst]. unfold renderPreviewContent, renderPreviewError, primary_out.
  cbn [sinks set_sass].
  destruct (previewFrame (sinks st)) eqn:Ep; cbn;
    destruct (pipFrame (sinks st)) eqn:Ef; cbn; rewrite ?Ef;
    destruct (fullscreenOverlay (sinks st)) eqn:Eo; cbn; rewrite ?Eo;
    rewrite ?app_nil_r, <- ?app_assoc; auto.
Qed.

End Run.

End RenderFacts.

(** ** The view only puts the compiler in states [compileSass] reaches *)
Module CacheFacts.
Import JS Sass SassSpec Assembler.

Section Run.
Variable compileString : Sass.Compiler.

Lemma generate_state bg html css s :
  snd (generatePreviewContent compileString bg html css s)
  = if isSassMode s then snd (compileSass compileString css s) else s.
Proof.
  unfold generatePreviewContent, bind, get, ret.
  destruct (isSassMode s); [|reflexivity].
  now destruct (compileSass compileString css s) as [[c|e] s'].
Qed.

Lemma run_task_reachable els t st :
  reachable compileString (View.sass st) ->
  reachable compileString (View.sass (View.run_task compileString els t st)).
Proof.
  intros H. destruct t; cbn [View.run_task]; auto.
  - unfold View.startMonitoring. now destruct (View.previewHasWindow (View.sinks st)).
  - unfold View.previewFrameCallback.
    pose proof (generate_state (View.previewBackground (View.settings st))
                  (View.htmlContent st) (View.cssContent st) (View.sass st)) as Hs.
    destruct (generatePreviewContent _ _ _ _ _) as [[content|e] sass']; cbn [snd] in Hs.
    + assert (Hr : reachable compileString sass').
      { rewrite Hs. destruct (isSassMode (View.sass st)); [now constructor | exact H]. }
      unfold View.renderPreviewContent, View.renderPreviewError. cbn [View.sinks View.set_sass].
      destruct (View.previewFrame (View.sinks st)); cbn;
        destruct (View.pipFrame (View.sinks st)); cbn;
        destruct (View.fullscreenOverlay (View.sinks st)); exact Hr.
    + cbn. rewrite Hs. destruct (isSassMode (View.sass st)); [now constructor | exact H].
  - unfold View.renderPreviewContentToFrame.
    now destruct (View.pipFrame (View.sinks st)) as [[]|].
  - unfold View.renderPreviewContentToFrame.
    now destruct (View.fullscreenOverlay (View.sinks st)) as [[[]|]|].
  - unfold View.monitorCallback. destruct (View.previewFrame (View.sinks st)); auto.
    cbv zeta. now destruct (View.sample_elements _ _ _) as [m []].
Qed.

Lemma fire_reachable ts : forall st,
  reachable compileString (View.sass st) ->
  reachable compileString (View.sass (View.fire compileString ts st)).
Proof.
  induction ts as [|t ts IH]; intros st Hs; [exact Hs|]. cbn [View.fire].
  destruct (existsb _ _); [|now apply IH]. apply IH, run_task_reachable. exact Hs.
Qed.

Lemma clearUpdateTimeout_sass st :
  View.sass (View.clearUpdateTimeout st) = View.sass st.
Proof.
  unfold View.clearUpdateTimeout. destruct (View.updateTimeout st) as [id|]; [|reflexivity].
  now destruct (0 <? id)%nat.
Qed.

Lemma onContentChange_sass html css st :
  View.sass (View.onContentChange html css st) = View.sass st.
Proof.
  unfold View.onContentChange. cbv zeta.
  destruct (View.autoRefresh _); [|reflexivity].
  cbn [View.setTimeout View.set_updateTimeout View.set_host View.sass].
  now rewrite clearUpdateTimeout_sass.
Qed.

Lemma step_reachable st e :
  reachable compileString (View.sass st) ->
  reachable compileString (View.sass (View.step compileString st e)).
Proof.
  intros H. destruct e; cbn [View.step]; auto.
  - now rewrite onContentChange_sass.
  - rewrite onContentChange_sass. cbn [View.set_sass View.sass]. now constructor.
  - unfold View.manualRefreshPreview, View.updatePreview. cbn. now rewrite clearUpdateTimeout_sass.
  - unfold View.applySettings. destruct (_ && _); [|exact H].
    cbn. now rewrite clearUpdateTimeout_sass.
  - unfold View.tick. cbv zeta. now apply fire_reachable.
  - unfold View.animationFrame. cbv zeta.
    assert (H0 : reachable compileString
                   (View.sass (View.set_host (View.take_requests (View.host st)) st)))
      by exact H.
    revert H0. generalize (View.set_host (View.take_requests (View.host st)) st) as s.
    induction (View.frameRequests (View.host st)) as [|r rs IH]; intros s Hs; [exact Hs|].
    cbn [fold_left]. apply IH, run_task_reachable. exact Hs.
  - unfold View.stopMonitoring.
    destruct (View.rafId _) as [id|]; [destruct (0 <? id)%nat|]; cbn;
      now rewrite ?clearUpdateTimeout_sass.
Qed.

Lemma run_reachable evs : forall st,
  reachable compileString (View.sass st) ->
  reachable compileString (View.sass (View.run compileString evs st)).
Proof.
  induction evs as [|e evs IH]; intros st H; [exact H|].
  cbn [View.run fold_left]. apply IH, step_reachable, H.
Qed.

Lemma view_reachable evs :
  reachable compileString (View.sass (View.run compileString evs View.initial)).
Proof. apply run_reachable. constructor. Qed.

End Run.
End CacheFacts.

(** ** A burst of edits gives one render *)
Module BurstFacts.
Import JS Sanitizer Assembler View ViewSpec SchedulerFacts RenderFacts.

Lemma same_view_refl st : same_view st st.
Proof. unfold same_view. tauto. Qed.

Lemma same_view_trans a b c : same_view a b -> same_view b c -> same_view a c.
Proof.
  unfold same_view. intros (A1 & A2 & A3 & A4 & A5 & A6 & A7) (B1 & B2 & B3 & B4 & B5 & B6 & B7).
  repeat split; congruence.
Qed.

Section Run.
Variable compileString : Sass.Compiler.

Lemma run_timer_task els t st :
  timer_task t = true ->
  let st' := run_task compileString els t st in
  same_view st st'
  /\ now (host st') = now (host st)
  /\ nextTimerId (host st') = nextTimerId (host st)
  /\ timers (host st') = timers (host st)
  /\ request_tasks st' = request_tasks st ++ spawned (previewHasWindow (sinks st)) t.
Proof.
  intros Ht. destruct t; try discriminate; cbn [run_task spawned]; cbv zeta.
  - unfold updatePreview, request_tasks. cbn. rewrite map_app. repeat split; reflexivity.
  - unfold request_tasks. rewrite app_nil_r. repeat split; reflexivity.
  - unfold startMonitoring, request_tasks. destruct (previewHasWindow (sinks st)).
    + cbn. rewrite map_app. repeat split; reflexivity.
    + rewrite app_nil_r. repeat split; reflexivity.
Qed.

Lemma in_filter_neq d t (ts : list Timer) :
  In d ts -> timerId d <> timerId t ->
  In d (filter (fun t' => negb (timerId t' =? timerId t)%nat) ts).
Proof.
  intros Hin Hne. apply filter_In. split; [exact Hin|].
  apply negb_true_iff, Nat.eqb_neq. exact Hne.
Qed.

Lemma fire_all : forall D st,
  NoDup (map timerId D) ->
  incl D (timers (host st)) ->
  Forall (fun t => timer_task (timerTask t) = true) D ->
  let st' := fire compileString D st in
  same_view st st'
  /\ now (host st') = now (host st)
  /\ nextTimerId (host st') = nextTimerId (host st)
  /\ timers (host st')
     = filter (fun t => negb (existsb (fun d => timerId d =? timerId t)%nat D)) (timers (host st))
  /\ request_tasks st'
     = request_tasks st ++ flat_map (spawned (previewHasWindow (sinks st))) (map timerTask D).
Proof.
  induction D as [|t D IH]; intros st Hnd Hin Hok; cbv zeta.
  - cbn [fire existsb negb flat_map map]. rewrite app_nil_r.
    repeat split; try reflexivity.
    induction (timers (host st)) as [|x l IHl]; [reflexivity|]. cbn. now rewrite <- IHl.
  - cbn [fire]. inversion Hnd as [|x xs Hx Hnd']; subst. inversion Hok as [|y ys Hy Hok']; subst.
    assert (Hpres : existsb (fun t' => (timerId t' =? timerId t)%nat) (timers (host st)) = true).
    { apply existsb_exists. exists t. split; [apply Hin; now left | apply Nat.eqb_refl]. }
    rewrite Hpres.
    set (st0 := set_host (clearTimeout (timerId t) (host st)) st).
    destruct (run_timer_task [] (timerTask t) st0 Hy) as (Hv & Hn & Hi & Ht & Hr).
    set (st1 := run_task compileString [] (timerTask t) st0) in *.
    assert (Hin1 : incl D (timers (host st1))).
    { intros d Hd. rewrite Ht. unfold st0. cbn [set_host host clearTimeout timers].
      apply in_filter_neq; [apply Hin; now right|].
      intros E. apply Hx. rewrite <- E. now apply in_map. }
    destruct (IH st1 Hnd' Hin1 Hok') as (Hv' & Hn' & Hi' & Ht' & Hr').
    assert (Hv0 : same_view st st0) by (unfold same_view, st0; cbn; tauto).
    split; [|split; [|split; [|split]]].
    + eapply same_view_trans; [|exact Hv']. eapply same_view_trans; eauto.
    + now rewrite Hn', Hn.
    + now rewrite Hi', Hi.
    + rewrite Ht', Ht. unfold st0. cbn [set_host host clearTimeout timers].
      clear. induction (timers (host st)) as [|x l IHl]; [reflexivity|].
      cbn [filter existsb]. rewrite (Nat.eqb_sym (timerId t) (timerId x)).
      destruct (timerId x =? timerId t)%nat; cbn [negb orb filter]; [exact IHl|].
      destruct (existsb _ D); cbn [negb]; [exact IHl | now rewrite IHl].
    + rewrite Hr', Hr. cbn [map flat_map]. rewrite <- app_assoc.
      destruct Hv as (_ & _ & _ & _ & Hs & _). rewrite Hs.
      reflexivity.
Qed.

Lemma sort_by_due_perm l : Permutation (sort_by_due l) l.
Proof.
  assert (Hins : forall t l, Permutation (insert_by_due t l) (t :: l)).
  { intros t. induction l0 as [|x l0 IH]; cbn [insert_by_due]; [reflexivity|].
    destruct (due t <? due x)%Z; [reflexivity|].
    rewrite IH. apply perm_swap. }
  induction l as [|t l IH]; [reflexivity|].
  cbn [sort_by_due fold_right]. fold (sort_by_due l). rewrite Hins. now constructor.
Qed.

Lemma filter_perm {A} (p : A -> bool) l l' :
  Permutation l l' -> Permutation (filter p l) (filter p l').
Proof.
  induction 1 as [|x l l' _ IH|x y l|l l' l'' _ IH1 _ IH2]; cbn [filter].
  - reflexivity.
  - destruct (p x); [now constructor | exact IH].
  - destruct (p x), (p y); try reflexivity. apply perm_swap.
  - now transitivity (filter p l').
Qed.

Lemma filter_comm {A} (p q : A -> bool) l : filter p (filter q l) = filter q (filter p l).
Proof.
  induction l as [|x l IH]; [reflexivity|]. cbn [filter].
  destruct (p x) eqn:P, (q x) eqn:Q; cbn [filter]; rewrite ?P, ?Q, IH; reflexivity.
Qed.

Lemma render_spawned w D :
  filter is_render (flat_map (spawned w) (map timerTask D))
  = repeat PreviewFrame (length (jobs D)).
Proof.
  unfold jobs. induction D as [|t D IH]; [reflexivity|].
  cbn [map flat_map filter]. rewrite filter_app, IH.
  destruct (timerTask t); cbn; try reflexivity. now destruct w.
Qed.

Lemma unique_by_id (ts : list Timer) a b :
  NoDup (map timerId ts) -> In a ts -> In b ts -> timerId a = timerId b -> a = b.
Proof.
  induction ts as [|x ts IH]; intros Hnd Ha Hb E; [destruct Ha|].
  inversion Hnd as [|y ys Hx Hnd']; subst.
  destruct Ha as [<-|Ha], Hb as [<-|Hb]; auto.
  - exfalso. apply Hx. rewrite E. now apply in_map.
  - exfalso. apply Hx. rewrite <- E. now apply in_map.
Qed.

Lemma tick_spec st :
  Inv st ->
  let t := (now (host st) + 1)%Z in
  let st' := tick compileString st in
  same_view st st'
  /\ now (host st') = t
  /\ pending_jobs st' = filter (fun tm => negb (is_due t tm)) (pending_jobs st)
  /\ render_requests st'
     = render_requests st ++ repeat PreviewFrame (length (filter (is_due t) (pending_jobs st)))
  /\ Inv st'.
Proof.
  intros Hi. cbv zeta. pose proof (tick_Inv compileString st Hi) as Hi'.
  destruct Hi as (_ & _ & _ & _ & Hnd & _ & Hok).
  unfold tick in *. cbv zeta in *.
  set (st0 := set_host (advance (host st)) st) in *.
  set (D := due_timers (host st0)) in *.
  assert (HD : Permutation D (filter (is_due (now (host st) + 1)) (timers (host st)))).
  { unfold D, due_timers. apply sort_by_due_perm. }
  assert (HinD : forall d, In d D <-> In d (timers (host st)) /\ is_due (now (host st) + 1) d = true).
  { intros d. rewrite <- filter_In. split; apply Permutation_in; [exact HD | now symmetry]. }
  destruct (fire_all D st0) as (Hv & Hn & _ & Ht & Hr).
  - apply (Permutation_NoDup (l := map timerId (filter (is_due (now (host st) + 1))
                                                   (timers (host st))))).
    + apply Permutation_map. now symmetry.
    + now apply NoDup_map_filter.
  - intros d Hd. apply HinD in Hd. apply Hd.
  - rewrite Forall_forall in *. intros d Hd. apply HinD in Hd. now apply Hok.
  - split; [|split; [|split; [|split]]].
    + eapply same_view_trans; [|exact Hv]. unfold same_view, st0. cbn. tauto.
    + rewrite Hn. reflexivity.
    + unfold pending_jobs. rewrite Ht. unfold jobs. rewrite filter_comm.
      change (timers (host st0)) with (timers (host st)).
      apply filter_ext_in. intros tm Htm. apply filter_In in Htm as [Htm _]. f_equal.
      destruct (is_due (now (host st) + 1) tm) eqn:E.
      * apply existsb_exists. exists tm. split; [apply HinD; auto | apply Nat.eqb_refl].
      * destruct (existsb _ D) eqn:X; [|reflexivity].
        apply existsb_exists in X as (d & Hd & Hid). apply Nat.eqb_eq in Hid.
        apply HinD in Hd as [Hd1 Hd2].
        rewrite (unique_by_id _ d tm Hnd Hd1 Htm Hid) in Hd2. congruence.
    + unfold render_requests. rewrite Hr, filter_app, render_spawned. f_equal. f_equal.
      transitivity (length (jobs (filter (is_due (now (host st) + 1)) (timers (host st))))).
      * apply Permutation_length. unfold jobs. now apply filter_perm.
      * unfold pending_jobs, jobs. now rewrite filter_comm.
    + exact Hi'.
Qed.

Lemma run_app a b st :
  run compileString (a ++ b) st = run compileString b (run compileString a st).
Proof. unfold run. apply fold_left_app. Qed.

Lemma run_ticks_S k st :
  run compileString (repeat Tick (S k)) st
  = run compileString (repeat Tick k) (tick compileString st).
Proof. reflexivity. Qed.

Lemma ticks_idle : forall k st,
  Inv st -> pending_jobs st = [] ->
  let st' := run compileString (repeat Tick k) st in
  same_view st st'
  /\ pending_jobs st' = []
  /\ render_requests st' = render_requests st
  /\ Inv st'.
Proof.
  induction k as [|k IH]; intros st Hi Hp; cbv zeta.
  - cbn [repeat run fold_left]. pose proof (same_view_refl st). tauto.
  - rewrite run_ticks_S. destruct (tick_spec st Hi) as (Hv & _ & Hj & Hr & Hi').
    rewrite Hp in Hj, Hr. cbn [filter repeat length] in Hj, Hr. rewrite app_nil_r in Hr.
    destruct (IH _ Hi' Hj) as (Hv' & Hj' & Hr' & Hi'').
    pose proof (same_view_trans _ _ _ Hv Hv'). rewrite Hr', Hr. tauto.
Qed.

Lemma ticks_wait : forall k st J,
  Inv st -> pending_jobs st = [J] ->
  (now (host st) + Z.of_nat k < due J)%Z ->
  let st' := run compileString (repeat Tick k) st in
  same_view st st'
  /\ now (host st') = (now (host st) + Z.of_nat k)%Z
  /\ pending_jobs st' = [J]
  /\ render_requests st' = render_requests st
  /\ Inv st'.
Proof.
  induction k as [|k IH]; intros st J Hi Hp Hlt; cbv zeta.
  - cbn [repeat run fold_left Z.of_nat]. rewrite Z.add_0_r.
    pose proof (same_view_refl st). tauto.
  - rewrite run_ticks_S. destruct (tick_spec st Hi) as (Hv & Hn & Hj & Hr & Hi').
    rewrite Hp in Hj, Hr. cbn [filter] in Hj, Hr.
    assert (Hd : is_due (now (host st) + 1) J = false).
    { unfold is_due. apply Z.leb_gt. lia. }
    rewrite Hd in Hj, Hr. cbn [filter repeat length negb] in Hj, Hr. rewrite app_nil_r in Hr.
    destruct (IH _ J Hi' Hj) as (Hv' & Hn' & Hj' & Hr' & Hi''); [rewrite Hn; lia|].
    pose proof (same_view_trans _ _ _ Hv Hv'). rewrite Hr', Hr, Hn', Hn.
    repeat (split; [first [assumption | reflexivity | lia]|]). assumption.
Qed.

Lemma ticks_fire : forall k st J,
  Inv st -> pending_jobs st = [J] ->
  (0 < k)%nat -> (due J <= now (host st) + Z.of_nat k)%Z ->
  let st' := run compileString (repeat Tick k) st in
  same_view st st'
  /\ pending_jobs st' = []
  /\ render_requests st' = render_requests st ++ [PreviewFrame]
  /\ Inv st'.
Proof.
  induction k as [|k IH]; intros st J Hi Hp Hk Hle; cbv zeta; [lia|].
  rewrite run_ticks_S. destruct (tick_spec st Hi) as (Hv & Hn & Hj & Hr & Hi').
  rewrite Hp in Hj, Hr. cbn [filter] in Hj, Hr.
  destruct (is_due (now (host st) + 1) J) eqn:Hd; cbn [filter repeat length negb] in Hj, Hr.
  - destruct (ticks_idle k _ Hi' Hj) as (Hv' & Hj' & Hr' & Hi'').
    pose proof (same_view_trans _ _ _ Hv Hv'). rewrite Hr', Hr. tauto.
  - rewrite app_nil_r in Hr. unfold is_due in Hd. apply Z.leb_gt in Hd.
    destruct (IH _ J Hi' Hj) as (Hv' & Hj' & Hr' & Hi''); [lia | rewrite Hn; lia |].
    pose proof (same_view_trans _ _ _ Hv Hv'). rewrite Hr', Hr. tauto.
Qed.

Lemma edit_spec html css st :
  Inv st -> autoRefresh (settings st) = true ->
  let st' := step compileString st (Edit html css) in
  output st' = output st /\ settings st' = settings st /\ sinks st' = sinks st
  /\ sass st' = sass st
  /\ htmlContent st' = html /\ cssContent st' = css
  /\ now (host st') = now (host st)
  /\ (exists J, pending_jobs st' = [J]
                /\ due J = (now (host st) + delay_of (refreshDelay (settings st)) html css)%Z)
  /\ render_requests st' = render_requests st
  /\ Inv st'.
Proof.
  intros Hi Ha. cbv zeta. cbn [step].
  pose proof (onContentChange_Inv html css st Hi) as Hi'.
  unfold onContentChange in *. cbv zeta in *.
  change (settings (set_content html css st)) with (settings st) in *. rewrite Ha in *.
  assert (H0 : Inv (set_content html css st)) by (revert Hi; now apply Inv_same).
  destruct (clearUpdateTimeout_spec _ H0) as (Hj & Hn & Ht & Hs & Hh & Hc & _).
  set (st1 := clearUpdateTimeout (set_content html css st)) in *.
  assert (Hrest : output st1 = output st /\ sinks st1 = sinks st /\ sass st1 = sass st
                  /\ frameRequests (host st1) = frameRequests (host st)).
  { unfold st1, clearUpdateTimeout. destruct (updateTimeout (set_content html css st)) as [id|];
      [destruct (0 <? id)%nat|]; cbn; auto. }
  destruct Hrest as (Ho & Hk & Hss & Hf).
  cbn [setTimeout] in *.
  refine (conj _ (conj _ (conj _ (conj _ (conj _ (conj _ (conj _ (conj _ (conj _ Hi')))))))));
    proj; auto.
  - eexists. split.
    + unfold pending_jobs in *. proj. rewrite jobs_app, Hj. reflexivity.
    + cbn [due]. unfold delay_of. now rewrite Ht, Hs, Hh, Hc.
  - unfold render_requests, request_tasks. cbn. now rewrite Hf.
Qed.

Lemma run_other_task els t st :
  is_render t = false ->
  same_view st (run_task compileString els t st)
  /\ timers (host (run_task compileString els t st)) = timers (host st).
Proof.
  intros Ht. destruct t; try discriminate; cbn [run_task].
  - unfold updatePreview, same_view. cbn. tauto.
  - unfold same_view. tauto.
  - unfold startMonitoring, same_view. destruct (previewHasWindow (sinks st)); cbn; tauto.
  - unfold monitorCallback, same_view. destruct (previewFrame (sinks st)); try tauto.
    cbv zeta. destruct (sample_elements _ _ _) as [m []]; cbn; tauto.
Qed.

Lemma fold_other els : forall rs st,
  Forall (fun r => is_render (requestTask r) = false) rs ->
  let st' := fold_left (fun s r => run_task compileString els (requestTask r) s) rs st in
  same_view st st' /\ timers (host st') = timers (host st).
Proof.
  induction rs as [|r rs IH]; intros st Hrs; cbv zeta; cbn [fold_left].
  - split; [apply same_view_refl | reflexivity].
  - inversion Hrs as [|x xs Hr Hrs']; subst.
    destruct (run_other_task els (requestTask r) st Hr) as [Hv Ht].
    destruct (IH (run_task compileString els (requestTask r) st) Hrs') as [Hv' Ht'].
    split; [eapply same_view_trans; eauto | congruence].
Qed.

Lemma split_render (rs : list FrameRequest) :
  filter is_render (map requestTask rs) = [PreviewFrame] ->
  exists r1 r r2,
    rs = r1 ++ r :: r2 /\ requestTask r = PreviewFrame
    /\ Forall (fun r => is_render (requestTask r) = false) r1
    /\ Forall (fun r => is_render (requestTask r) = false) r2.
Proof.
  induction rs as [|x rs IH]; cbn [map filter]; intros H; [discriminate|].
  destruct (is_render (requestTask x)) eqn:E.
  - injection H as Hx Hrest. exists [], x, rs. repeat split; auto.
    clear -Hrest. induction rs as [|y rs IH]; constructor; cbn [map filter] in Hrest;
      destruct (is_render (requestTask y)); try discriminate; auto.
  - destruct (IH H) as (r1 & r & r2 & -> & Hr & H1 & H2).
    exists (x :: r1), r, r2. repeat split; auto.
Qed.

Lemma generated_same st st' :
  same_view st st' -> generated compileString st' = generated compileString st.
Proof.
  intros (_ & Hh & Hc & Hs & _ & Ha & _). unfold generated. now rewrite Hh, Hc, Hs, Ha.
Qed.

Lemma previewFrameCallback_jobs st :
  pending_jobs (previewFrameCallback compileString st) = pending_jobs st.
Proof.
  unfold previewFrameCallback, pending_jobs.
  destruct (generatePreviewContent _ _ _ _ _) as [[content|e] sass']; [|reflexivity].
  unfold renderPreviewContent, renderPreviewError. cbn [sinks set_sass].
  destruct (previewFrame (sinks st)); cbn;
    destruct (pipFrame (sinks st)); cbn; destruct (fullscreenOverlay (sinks st)); cbn;
    rewrite jobs_app; cbn; now rewrite app_nil_r.
Qed.

Lemma frame_spec els st :
  render_requests st = [PreviewFrame] ->
  let st' := animationFrame compileString els st in
  output st' = output st
               ++ primary_out (previewFrame (sinks st)) (generated compileString st)
  /\ pending_jobs st' = pending_jobs st.
Proof.
  unfold render_requests, request_tasks. intros H. cbv zeta.
  destruct (split_render _ H) as (r1 & r & r2 & Hrs & Hr & H1 & H2).
  unfold animationFrame. rewrite Hrs, fold_left_app. cbn [fold_left]. rewrite Hr.
  set (st0 := set_host (take_requests (host st)) st).
  destruct (fold_other els r1 st0 H1) as [Hv1 Ht1].
  set (s1 := fold_left _ r1 st0) in *.
  cbn [run_task].
  destruct (previewFrameCallback_spec compileString s1) as (Ho & Hs & _).
  pose proof (previewFrameCallback_jobs s1) as Hj.
  set (s2 := previewFrameCallback compileString s1) in *.
  destruct (fold_other els r2 s2 H2) as [Hv2 Ht2].
  set (s3 := fold_left _ r2 s2) in *.
  assert (Hv0 : same_view st st0) by (unfold same_view, st0; cbn; tauto).
  pose proof (same_view_trans _ _ _ Hv0 Hv1) as Hv01.
  split.
  - destruct Hv2 as (-> & _). rewrite Ho, (generated_same _ _ Hv01).
    destruct Hv01 as (-> & _ & _ & _ & -> & _). reflexivity.
  - unfold pending_jobs in *. rewrite Ht2, Hj, Ht1. reflexivity.
Qed.

Lemma edits_phase : forall edits st,
  Inv st -> autoRefresh (settings st) = true -> render_requests st = [] ->
  gaps_short (refreshDelay (settings st)) edits ->
  let st' := run compileString (burst_events edits) st in
  Inv st' /\ render_requests st' = []
  /\ output st' = output st /\ settings st' = settings st
  /\ sinks st' = sinks st /\ sass st' = sass st.
Proof.
  induction edits as [|[[html css] gap] edits IH]; intros st Hi Ha Hr Hg; cbv zeta.
  - cbn. tauto.
  - inversion Hg as [|x xs Hgap Hg']; subst. cbn [fst snd] in Hgap.
    cbn [burst_events]. change (Edit html css :: repeat Tick gap ++ burst_events edits)
      with ([Edit html css] ++ repeat Tick gap ++ burst_events edits).
    rewrite !run_app.
    destruct (edit_spec html css st Hi Ha)
      as (Ho & Hs & Hk & Hss & _ & _ & Hn & (J & Hj & Hd) & Hrr & Hi1).
    change (run compileString [Edit html css] st) with (step compileString st (Edit html css)).
    set (s1 := step compileString st (Edit html css)) in *.
    destruct (ticks_wait gap s1 J Hi1 Hj) as ((Ho2 & _ & _ & Hs2 & Hk2 & Hss2 & _) & _ & _ & Hr2 & Hi2).
    { rewrite Hd, Hn. lia. }
    set (s2 := run compileString (repeat Tick gap) s1) in *.
    destruct (IH s2 Hi2) as (Hi3 & Hr3 & Ho3 & Hs3 & Hk3 & Hss3).
    + now rewrite Hs2, Hs.
    + now rewrite Hr2, Hrr.
    + now rewrite Hs2, Hs.
    + repeat (split; [first [assumption | congruence]|]). congruence.
Qed.

Theorem burst_one_render edits html css wait els st :
  Inv st -> autoRefresh (settings st) = true -> render_requests st = [] ->
  gaps_short (refreshDelay (settings st)) edits ->
  (0 < wait)%nat ->
  (delay_of (refreshDelay (settings st)) html css <= Z.of_nat wait)%Z ->
  let st' := run compileString
               (burst_events edits ++ [Edit html css] ++ repeat Tick wait
                ++ [AnimationFrame els]) st in
  output st' = output st
               ++ primary_out (previewFrame (sinks st))
                    (generated compileString (set_content html css st))
  /\ pending_jobs st' = [].
Proof.
  intros Hi Ha Hr Hg Hw Hd. cbv zeta. rewrite !run_app.
  destruct (edits_phase edits st Hi Ha Hr Hg) as (Hi1 & Hr1 & Ho1 & Hs1 & Hk1 & Hss1).
  set (s1 := run compileString (burst_events edits) st) in *.
  assert (Ha1 : autoRefresh (settings s1) = true) by now rewrite Hs1.
  destruct (edit_spec html css s1 Hi1 Ha1)
    as (Ho2 & Hs2 & Hk2 & Hss2 & Hh2 & Hc2 & Hn2 & (J & Hj & HdJ) & Hr2 & Hi2).
  change (run compileString [Edit html css] s1) with (step compileString s1 (Edit html css)).
  set (s2 := step compileString s1 (Edit html css)) in *.
  destruct (ticks_fire wait s2 J Hi2 Hj Hw) as (Hv3 & Hj3 & Hr3 & Hi3).
  { rewrite HdJ, Hn2, Hs1. lia. }
  set (s3 := run compileString (repeat Tick wait) s2) in *.
  change (run compileString [AnimationFrame els] s3) with (animationFrame compileString els s3).
  destruct (frame_spec els s3) as (Ho4 & Hj4).
  { now rewrite Hr3, Hr2, Hr1. }
  split; [|now rewrite Hj4].
  rewrite Ho4. rewrite (generated_same _ _ Hv3).
  destruct Hv3 as (-> & _ & _ & _ & -> & _).
  rewrite Ho2, Ho1, Hk2, Hk1. f_equal. f_equal.
  unfold generated. cbn [set_content settings htmlContent cssContent sass].
  now rewrite Hs2, Hs1, Hh2, Hc2, Hss2, Hss1.
Qed.

End Run.

End BurstFacts.

(** ** Debounce: one pending job, adaptive delay *)
Module ViewClaims.
Import JS Sanitizer Assembler View ViewSpec SchedulerFacts BurstFacts.

Lemma clearUpdateTimeout_keeps st :
  now (host (clearUpdateTimeout st)) = now (host st)
  /\ nextTimerId (host (clearUpdateTimeout st)) = nextTimerId (host st)
  /\ settings (clearUpdateTimeout st) = settings st
  /\ htmlContent (clearUpdateTimeout st) = htmlContent st
  /\ cssContent (clearUpdateTimeout st) = cssContent st.
Proof.
  unfold clearUpdateTimeout. destruct (updateTimeout st) as [id|]; [|auto].
  destruct (0 <? id)%nat; auto.
Qed.

Lemma onContentChange_schedules html css st :
  autoRefresh (settings st) = true ->
  let st' := onContentChange html css st in
  let job := {| timerId := nextTimerId (host st);
                due := (now (host st)
                        + Z.max 0 (adaptiveDelay (Z.of_nat (length html + length css))
                                     (refreshDelay (settings st))))%Z;
                timerTask := UpdatePreviewJob |} in
  updateTimeout st' = Some (nextTimerId (host st))
  /\ timers (host st') = timers (host (clearUpdateTimeout (set_content html css st))) ++ [job].
Proof.
  intros Ha. unfold onContentChange. cbv zeta.
  change (settings (set_content html css st)) with (settings st). rewrite Ha.
  destruct (clearUpdateTimeout_keeps (set_content html css st)) as (Hn & Hi & Hs & Hh & Hc).
  cbn [setTimeout]. proj. rewrite Hn, Hi, Hs, Hh, Hc. proj. auto.
Qed.

(** C9.  On a content change with automatic refresh on, the delay of the
    scheduled job is the configured [refreshDelay] when the markup and
    the style together have at most 5000 code units, and
    [min (2 * refreshDelay) 1000] when they have more; the job is due that
    long after the current time. *)
Theorem adaptive_delay html css st :
  autoRefresh (settings st) = true ->
  let size := Z.of_nat (length html + length css) in
  let base := refreshDelay (settings st) in
  let delay := if (size <=? 5000)%Z then base else Z.min (2 * base) 1000 in
  adaptiveDelay size base = delay
  /\ exists id,
       updateTimeout (onContentChange html css st) = Some id
       /\ In {| timerId := id; due := (now (host st) + Z.max 0 delay)%Z;
                timerTask := UpdatePreviewJob |}
             (timers (host (onContentChange html css st))).
Proof.
  intros Ha. cbv zeta.
  assert (Hd : adaptiveDelay (Z.of_nat (length html + length css)) (refreshDelay (settings st))
               = if (Z.of_nat (length html + length css) <=? 5000)%Z
                 then refreshDelay (settings st)
                 else Z.min (2 * refreshDelay (settings st)) 1000).
  { unfold adaptiveDelay.
    destruct (5000 <? _)%Z eqn:E1; destruct (_ <=? 5000)%Z eqn:E2; try reflexivity.
    - apply Z.ltb_lt in E1. apply Z.leb_le in E2. lia.
    - now rewrite Z.mul_comm.
    - apply Z.ltb_ge in E1. apply Z.leb_gt in E2. lia. }
  split; [exact Hd|].
  destruct (onContentChange_schedules html css st Ha) as [Hu Ht].
  exists (nextTimerId (host st)). split; [exact Hu|].
  rewrite Ht, <- Hd. apply in_or_app. right. now left.
Qed.

Lemma adaptive_delay_witness :
  exists id,
    updateTimeout (onContentChange (js "<p>Hi</p>") (js ".a{color:red}") initial) = Some id
    /\ In {| timerId := id; due := 300; timerTask := UpdatePreviewJob |}
          (timers (host (onContentChange (js "<p>Hi</p>") (js ".a{color:red}") initial))).
Proof.
  exact (proj2 (adaptive_delay (js "<p>Hi</p>") (js ".a{color:red}") initial eq_refl)).
Defined.

Section Run.
Variable compileString : Sass.Compiler.

Lemma edit_pending evs html css :
  let st := run compileString evs initial in
  autoRefresh (settings st) = true ->
  pending_jobs (step compileString st (Edit html css))
  = [{| timerId := nextTimerId (host st);
        due := (now (host st)
                + Z.max 0 (adaptiveDelay (Z.of_nat (length html + length css))
                             (refreshDelay (settings st))))%Z;
        timerTask := UpdatePreviewJob |}].
Proof.
  cbv zeta. intros Ha. cbn [step].
  destruct (onContentChange_schedules html css _ Ha) as [_ Ht].
  unfold pending_jobs. rewrite Ht, jobs_app.
  assert (Hi : Inv (set_content html css (run compileString evs initial))).
  { generalize (run_Inv compileString evs initial initial_Inv). now apply Inv_same. }
  destruct (clearUpdateTimeout_spec _ Hi) as (Hj & _). unfold pending_jobs in Hj.
  now rewrite Hj.
Qed.
End Run.

(** C4.  In every state the view can reach, at most one debounce job is
    pending.  A content change with automatic refresh on leaves exactly
    the job it schedules: whatever was pending has been cancelled.  So a
    burst of edits, each made before the job of the one before is due,
    gives exactly one render once the last job is due and a frame has
    passed, and that render is generated from the texts of the last edit.
    In particular edits at 0, 10 and 20 ms with a delay of 100 ms give one
    render, of the content of the last edit, and nothing is left
    pending. *)
Theorem debounce_single_job compileString :
  (forall evs, (length (pending_jobs (run compileString evs initial)) <= 1)%nat)
  /\ (forall evs html css,
        let st := run compileString evs initial in
        autoRefresh (settings st) = true ->
        pending_jobs (step compileString st (Edit html css))
        = [{| timerId := nextTimerId (host st);
              due := (now (host st)
                      + Z.max 0 (adaptiveDelay (Z.of_nat (length html + length css))
                                   (refreshDelay (settings st))))%Z;
              timerTask := UpdatePreviewJob |}])
  /\ (forall evs edits html css wait els,
        let st := run compileString evs initial in
        autoRefresh (settings st) = true ->
        render_requests st = [] ->
        gaps_short (refreshDelay (settings st)) edits ->
        (0 < wait)%nat ->
        (delay_of (refreshDelay (settings st)) html css <= Z.of_nat wait)%Z ->
        let st' := run compileString
                     (burst_events edits ++ [Edit html css] ++ repeat Tick wait
                      ++ [AnimationFrame els]) st in
        output st' = output st
                     ++ primary_out (previewFrame (sinks st))
                          (generated compileString (set_content html css st))
        /\ pending_jobs st' = [])
  /\ (let st := run compileString burst initial in
      output st = [Wrote Primary (document (js "#ffffff")
                                    (validateAndSanitizeCSS (js ".a{color:red}"))
                                    (validateAndSanitizeHTML (js "<p>abc</p>")))]
      /\ pending_jobs st = []
      /\ frameRequests (host st) = []).
Proof.
  split; [|split; [|split]].
  - intros evs. apply (run_Inv compileString evs initial initial_Inv).
  - apply edit_pending.
  - intros evs edits html css wait els. cbv zeta. intros Ha Hr Hg Hw Hd.
    exact (burst_one_render compileString edits html css wait els _
             (run_Inv compileString evs initial initial_Inv) Ha Hr Hg Hw Hd).
  - vm_compute. auto.
Qed.

Lemma debounce_single_job_witness :
  pending_jobs (step Stub.compileString (run Stub.compileString [] initial)
                  (Edit (js "<p>Hi</p>") (js ".a{color:red}")))
  = [{| timerId := 1; due := 300; timerTask := UpdatePreviewJob |}]
  /\ output (run Stub.compileString
               (burst_events [(js "<p>a</p>", js ".a{}", 10%nat); (js "<p>ab</p>", js ".a{}", 10%nat)]
                ++ [Edit (js "<p>abc</p>") (js ".a{}")] ++ repeat Tick 300
                ++ [AnimationFrame []])
               (run Stub.compileString [] initial))
     = [Wrote Primary (generated Stub.compileString
                         (set_content (js "<p>abc</p>") (js ".a{}") initial))].
Proof.
  split.
  - exact (proj1 (proj2 (debounce_single_job Stub.compileString))
             [] (js "<p>Hi</p>") (js ".a{color:red}") eq_refl).
  - refine (proj1 (proj1 (proj2 (proj2 (debounce_single_job Stub.compileString)))
                     [] [(js "<p>a</p>", js ".a{}", 10%nat); (js "<p>ab</p>", js ".a{}", 10%nat)]
                     (js "<p>abc</p>") (js ".a{}") 300%nat [] eq_refl eq_refl _ _ _)).
    + repeat constructor.
    + lia.
    + vm_compute. discriminate.
Defined.

End ViewClaims.

(** ** Fan-out of a render to the sinks *)
Module RenderClaims.
Import JS Sanitizer Assembler View ViewSpec SchedulerFacts RenderFacts.

(** C8 (the code at the failing input).  The fullscreen preview is
    open when the render runs and is closed before the next animation
    frame.  The render requests a deferred write for each sink that is
    there when it runs, and for no other.  The deferred callback of the
    fullscreen sink reads [this.fullscreenOverlay.querySelector] outside
    any [try] block: with the overlay gone the access throws, and the
    exception leaves the callback, neither caught nor logged.  The same
    course of events for the floating preview ends in the [catch] block of
    [renderPreviewContentToFrame] and is logged.  Both hold whenever the
    sink is gone, whatever the state and the content. *)
Theorem fullscreen_write_not_caught :
  (let at_render := run Stub.compileString fullscreen_torn_down initial in
   let content := generated Stub.compileString at_render in
   fullscreenOverlay (sinks at_render) = Some (Some Healthy)
   /\ output (run Stub.compileString
                [AnimationFrame []; SetFullscreen None; AnimationFrame []] at_render)
      = [Wrote Primary content; Uncaught Fullscreen])
  /\ (let at_render := run Stub.compileString torn_down initial in
      let content := generated Stub.compileString at_render in
      pipFrame (sinks at_render) = Some Healthy
      /\ output (run Stub.compileString [AnimationFrame []; SetPip None; AnimationFrame []]
                   at_render)
         = [Wrote Primary content; ConsoleError Floating])
  /\ (forall compileString st,
        let content := generated compileString st in
        request_tasks (previewFrameCallback compileString st)
        = request_tasks st
          ++ match pipFrame (sinks st) with
             | Some _ => [PipFrameWrite content]
             | None => []
             end
          ++ match fullscreenOverlay (sinks st) with
             | Some _ => [FullscreenFrameWrite content]
             | None => []
             end)
  /\ (forall compileString els content st,
        fullscreenOverlay (sinks st) = None ->
        run_task compileString els (FullscreenFrameWrite content) st
        = emit (Uncaught Fullscreen) st)
  /\ (forall compileString els content st,
        pipFrame (sinks st) = None ->
        run_task compileString els (PipFrameWrite content) st
        = emit (ConsoleError Floating) st).
Proof.
  split; [vm_compute; split; reflexivity|]. split; [vm_compute; split; reflexivity|].
  split; [|split].
  - intros compileString st. cbv zeta.
    destruct (previewFrameCallback_spec compileString st) as (_ & _ & Hr).
    unfold request_tasks. rewrite Hr, !map_app.
    destruct (pipFrame (sinks st)); destruct (fullscreenOverlay (sinks st)); reflexivity.
  - intros compileString els content st Hn. cbn [run_task]. now rewrite Hn.
  - intros compileString els content st Hn. cbn [run_task].
    unfold renderPreviewContentToFrame. now rewrite Hn.
Qed.

End RenderClaims.

(** ** What a poll counts *)
Module SampleFacts.
Import JS View ViewSpec MonitorSpec.

Lemma samples_get_set_same name a m : samples_get name (samples_set name a m) = Some a.
Proof.
  induction m as [|[n a'] m IH]; cbn.
  - now rewrite SassFacts.eqb_str_refl.
  - destruct (eqb_str name n) eqn:E; cbn; rewrite E; auto.
Qed.

Lemma samples_get_set_other name name' a m :
  eqb_str name' name = false ->
  samples_get name' (samples_set name a m) = samples_get name' m.
Proof.
  intros Hne. induction m as [|[n a'] m IH]; cbn.
  - now rewrite Hne.
  - destruct (eqb_str name n) eqn:E; cbn.
    + apply SassFacts.eqb_str_eq in E. subst n. now rewrite Hne.
    + now rewrite IH.
Qed.

Lemma eqb_str_sym a b : eqb_str a b = eqb_str b a.
Proof.
  destruct (eqb_str a b) eqn:E.
  - apply SassFacts.eqb_str_eq in E. subst. symmetry. apply SassFacts.eqb_str_refl.
  - destruct (eqb_str b a) eqn:E'; [|reflexivity].
    apply SassFacts.eqb_str_eq in E'. subst. now rewrite SassFacts.eqb_str_refl in E.
Qed.

Lemma frames_count_frame t n name m :
  frames_of name (count_frame t n m)
  = (frames_of name m + if eqb_str n name then 1 else 0)%Z.
Proof.
  unfold count_frame, frames_of.
  destruct (eqb_str n name) eqn:E.
  - apply SassFacts.eqb_str_eq in E. subst n.
    destruct (samples_get name m) as [a|] eqn:G.
    + rewrite G, samples_get_set_same. reflexivity.
    + rewrite samples_get_set_same, samples_get_set_same. reflexivity.
  - assert (E' : eqb_str name n = false) by (now rewrite eqb_str_sym).
    destruct (samples_get n m) as [a|] eqn:G.
    + rewrite G, samples_get_set_other by exact E'. lia.
    + rewrite samples_get_set_same, !samples_get_set_other by exact E'. lia.
Qed.

Lemma frames_sample_elements t name : forall els m,
  truthy name = true -> eqb_str name (js "none") = false ->
  no_throw els = true ->
  snd (sample_elements t els m) = true
  /\ frames_of name (fst (sample_elements t els m))
     = (frames_of name m + Z.of_nat (sightings name els))%Z.
Proof.
  intros els m Ht Hn. revert m. unfold sightings.
  induction els as [|[|n] els IH]; intros m Hok; cbn [sample_elements].
  - cbn. split; [reflexivity | lia].
  - discriminate.
  - cbn [no_throw forallb] in Hok. cbn [filter shows].
    destruct (eqb_str n name) eqn:E.
    + apply SassFacts.eqb_str_eq in E. subst n. rewrite Ht, Hn. cbn [andb negb].
      destruct (IH (count_frame t name m) Hok) as [-> ->].
      rewrite frames_count_frame, SassFacts.eqb_str_refl. cbn [length].
      split; [reflexivity | lia].
    + destruct (truthy n && negb (eqb_str n (js "none"))).
      * destruct (IH (count_frame t n m) Hok) as [-> ->].
        rewrite frames_count_frame, E. split; [reflexivity | lia].
      * apply IH, Hok.
Qed.

End SampleFacts.

(** ** A poll that fails, and the frames after it *)
Module PollFacts.
Import JS Sanitizer Assembler View ViewSpec SchedulerFacts MonitorSpec SampleFacts.





Section Run.
Variable compileString : Sass.Compiler.











End Run.
End PollFacts.

(** ** The monitor after a failed poll *)
Module MonitorClaims.
Import JS Sanitizer Assembler View ViewSpec SchedulerFacts MonitorSpec SampleFacts PollFacts.




End MonitorClaims.

(** * Part IV: further properties of the code *)

(** ** The sanitizers: what is removed and what is left alone *)
Module SanitizerExtras.
Import JS Regex Shape Includes RegexFacts ShapeFacts ScanFacts Sanitizer SanitizerSpec.
Import MarkupFacts MarkupProof StyleProof Assembler DocumentSpec.
Local Open Scope N_scope.

(** X1.  For every markup, the sanitized markup holds no [<iframe>] block,
    no [<object>] block and no [<embed>] tag: none of the three patterns
    matches anywhere in it. *)
Theorem embedding_elements_removed html :
  test re_iframe (validateAndSanitizeHTML html) = false
  /\ test re_object (validateAndSanitizeHTML html) = false
  /\ test re_embed (validateAndSanitizeHTML html) = false.
Proof.
  pose proof (markup_clean html) as H. rewrite Forall_forall in H.
  repeat split; apply H; unfold dangerousPatternsHTML; simpl; tauto.
Qed.

(** X2.  For every style text, the sanitized style holds no
    [@import url(...)], no [javascript:], no [expression(] and no
    [behavior:], in any letter case and with the white space the patterns
    allow. *)
Theorem style_constructs_removed css :
  test re_import (validateAndSanitizeCSS css) = false
  /\ test re_javascript (validateAndSanitizeCSS css) = false
  /\ test re_expression (validateAndSanitizeCSS css) = false
  /\ test re_behavior (validateAndSanitizeCSS css) = false.
Proof.
  pose proof (style_clean css) as H. rewrite Forall_forall in H.
  repeat split; apply H; unfold dangerousPatternsCSS; simpl; tauto.
Qed.

Lemma markup_fixed html :
  validateAndSanitizeHTML html = html
  <-> truthy (trim html) = true
      /\ Forall (fun re => test re html = false) dangerousPatternsHTML.
Proof.
  split.
  - intros E. split.
    + pose proof (markup_nonblank html) as H. rewrite E, <- blank_forallb in H.
      now apply negb_false_iff in H.
    + pose proof (markup_clean html) as H. now rewrite E in H.
  - intros [Hb Hc]. unfold validateAndSanitizeHTML. rewrite Hb. cbn [negb].
    now apply fold_clean.
Qed.

Lemma style_fixed css :
  validateAndSanitizeCSS css = css
  <-> truthy (trim css) = true
      /\ Forall (fun re => test re css = false) dangerousPatternsCSS.
Proof.
  split.
  - intros E. split.
    + pose proof (style_nonblank css) as H. rewrite E, <- blank_forallb in H.
      now apply negb_false_iff in H.
    + pose proof (style_clean css) as H. now rewrite E in H.
  - intros [Hb Hc]. unfold validateAndSanitizeCSS. rewrite Hb. cbn [negb].
    now apply fold_clean.
Qed.

(** X3.  A text passes a sanitizer unchanged exactly when it is not blank
    and none of the sanitizer's patterns matches in it; and what a
    sanitizer returns is never blank. *)
Theorem sanitizer_fixed_points :
  (forall html,
      validateAndSanitizeHTML html = html
      <-> truthy (trim html) = true
          /\ Forall (fun re => test re html = false) dangerousPatternsHTML)
  /\ (forall css,
      validateAndSanitizeCSS css = css
      <-> truthy (trim css) = true
          /\ Forall (fun re => test re css = false) dangerousPatternsCSS)
  /\ (forall html, truthy (trim (validateAndSanitizeHTML html)) = true)
  /\ (forall css, truthy (trim (validateAndSanitizeCSS css)) = true).
Proof.
  split; [exact markup_fixed|]. split; [exact style_fixed|]. split.
  - intros html. pose proof (markup_nonblank html) as H. rewrite <- blank_forallb in H.
    now apply negb_false_iff in H.
  - intros css. pose proof (style_nonblank css) as H. rewrite <- blank_forallb in H.
    now apply negb_false_iff in H.
Qed.

Lemma starts_with_refl (w t : jsstring) : starts_with w (w ++ t) = true.
Proof. induction w as [|x w IH]; [reflexivity|]. cbn. now rewrite N.eqb_refl. Qed.

(** X4.  The markup patterns are not applied to the style text.  Outside
    Sass mode, a style text that is not blank and in which none of the
    four style patterns matches is put into the document as it is; a
    script block written in the style editor reaches the preview. *)
Theorem style_text_kept compileString bg html css s :
  Sass.isSassMode s = false ->
  truthy (trim css) = true ->
  Forall (fun re => test re css = false) dangerousPatternsCSS ->
  generatePreviewContent compileString bg html css s
  = (Sass.Returned (document bg css (validateAndSanitizeHTML html)), s)
  /\ includes (document bg css (validateAndSanitizeHTML html)) css = true.
Proof.
  intros Hm Hb Hc. split.
  - unfold generatePreviewContent, Sass.bind, Sass.get, Sass.ret. rewrite Hm.
    unfold validateAndSanitizeCSS. rewrite Hb. cbn [negb]. now rewrite fold_clean.
  - unfold document. do 3 apply SanitizerClaims.includes_r. apply SanitizerClaims.includes_l.
    unfold includes. destruct css as [|u css]; [reflexivity|].
    cbn [anywhere]. apply orb_true_iff. left.
    rewrite <- (app_nil_r (u :: css)) at 2. apply starts_with_refl.
Qed.

Lemma style_text_kept_witness :
  test re_script style_with_script = true
  /\ includes (document (js "#ffffff") style_with_script
                 (validateAndSanitizeHTML (js "<p>ok</p>")))
       style_with_script = true.
Proof.
  split; [vm_compute; reflexivity|].
  apply (style_text_kept Stub.compileString (js "#ffffff") (js "<p>ok</p>")
           style_with_script Sass.initial).
  - reflexivity.
  - vm_compute. reflexivity.
  - repeat constructor; vm_compute; reflexivity.
Defined.

End SanitizerExtras.

(** ** The cache seen from the view *)
Module CacheExtras.
Import JS Sass SassSpec SassFacts CacheFacts CacheSpec.

Lemma reachable_served compileString st src :
  reachable compileString st ->
  if isSassMode st && truthy (trim src)
  then match map_get src (sassCache st) with
       | Some css =>
           compileSass compileString src st = (Returned css, st)
           /\ answered_before compileString st src css
       | None =>
           fst (compileSass compileString src st)
           = Returned (answer compileString (length (compilerCalls st)) src)
           /\ compilerCalls (snd (compileSass compileString src st))
              = compilerCalls st ++ [src]
       end
  else compileSass compileString src st = (Returned src, st).
Proof.
  intros Hr.
  destruct (compileSass_cases compileString src st)
    as [[H Hc]|[(c & H & Hm & Hb & Hg)|[(c & H & Hm & Hb & Hg & Hc)|(e & H & Hm & Hb & Hg & Hc)]]];
    rewrite H; cbn [fst snd].
  - destruct Hc as [-> | ->]; [reflexivity | now rewrite andb_false_r].
  - rewrite Hm, Hb, Hg. cbn [andb]. split; [reflexivity|].
    apply map_get_In in Hg. exact (reachable_sound _ _ Hr _ _ Hg).
  - rewrite Hm, Hb, Hg. cbn [andb]. unfold answer. rewrite Hc. split; reflexivity.
  - rewrite Hm, Hb, Hg. cbn [andb]. unfold answer. rewrite Hc. split; reflexivity.
Qed.

(** X5.  Whatever the user and the host do, the cache of the view never
    holds more than eleven entries. *)
Theorem cache_bounded compileString evs :
  (map_size (sassCache (View.sass (View.run compileString evs View.initial))) <= 11)%nat.
Proof. apply (reachable_bound compileString), view_reachable. Qed.

(** X6.  The cache serves only answers the compiler gave.  In every
    state the view can reach, [compileSass] answers a cached text with what
    an earlier call of the compiler returned for that very text, without
    calling the compiler or changing the state; it answers a text that is
    not cached with the outcome of the call it makes now, the compiled
    text or the fallback text when the call throws; and it returns blank
    text and text outside Sass mode as it is. *)
Theorem cache_serves_earlier_answers compileString evs src :
  let st := View.sass (View.run compileString evs View.initial) in
  if isSassMode st && truthy (trim src)
  then match map_get src (sassCache st) with
       | Some css =>
           compileSass compileString src st = (Returned css, st)
           /\ answered_before compileString st src css
       | None =>
           fst (compileSass compileString src st)
           = Returned (answer compileString (length (compilerCalls st)) src)
           /\ compilerCalls (snd (compileSass compileString src st))
              = compilerCalls st ++ [src]
       end
  else compileSass compileString src st = (Returned src, st).
Proof. cbv zeta. apply reachable_served, view_reachable. Qed.

(** X7.  Eviction follows the order of insertion, not of use.  When a new
    text is compiled with eleven or more entries cached, the entry
    inserted first is dropped and the new one is put last; a cache hit
    leaves the cache as it is, so using an entry does not save it. *)
Theorem eviction_is_fifo compileString src css k v m st :
  isSassMode st = true -> truthy (trim src) = true ->
  sassCache st = (k, v) :: m -> (10 <= length m)%nat ->
  map_get src (sassCache st) = None ->
  compileString (length (compilerCalls st)) src = Returned css ->
  sassCache (snd (compileSass compileString src st)) = m ++ [(src, css)]
  /\ (forall src' css', truthy (trim src') = true ->
        map_get src' (sassCache st) = Some css' ->
        snd (compileSass compileString src' st) = st).
Proof.
  intros Hm Hb Hs Hl Hg Hc. split.
  - rewrite (compileSass_miss_ok compileString src st css Hm Hb Hg Hc).
    cbn [snd set_cache sassCache]. rewrite Hs in *. unfold evict, map_size.
    cbn [length map_first_key map_delete]. rewrite eqb_str_refl.
    assert (E : (10 <? S (length m))%nat = true) by (apply Nat.ltb_lt; lia).
    rewrite E. apply map_set_fresh. cbn [map_get] in Hg.
    now destruct (eqb_str src k).
  - intros src' css' Hb' Hg'. now rewrite (compileSass_hit compileString src' st css' Hm Hb' Hg').
Qed.

Lemma eviction_is_fifo_witness :
  sassCache (snd (compileSass Stub.compileString (js ".l{}") full_cache))
  = skipn 1 (sassCache full_cache) ++ [(js ".l{}", js ".l{}")]
  /\ snd (compileSass Stub.compileString (js ".a{}") full_cache) = full_cache.
Proof.
  destruct (eviction_is_fifo Stub.compileString (js ".l{}") (js ".l{}")
              (js ".a{}") (js ".a{}") (skipn 1 (sassCache full_cache)) full_cache) as [H1 H2].
  - reflexivity.
  - reflexivity.
  - vm_compute. reflexivity.
  - apply Nat.leb_le. vm_compute. reflexivity.
  - vm_compute. reflexivity.
  - reflexivity.
  - split; [exact H1|]. apply (H2 (js ".a{}") (js ".a{}")); vm_compute; reflexivity.
Defined.

End CacheExtras.

(** ** The scheduler: manual refresh, large texts, automatic refresh off *)
Module SchedulerExtras.
Import JS Sanitizer Assembler View ViewSpec SchedulerFacts RenderFacts BurstFacts QuietSpec.

Lemma clearUpdateTimeout_rest st :
  output (clearUpdateTimeout st) = output st
  /\ sinks (clearUpdateTimeout st) = sinks st
  /\ sass (clearUpdateTimeout st) = sass st
  /\ monitor (clearUpdateTimeout st) = monitor st
  /\ frameRequests (host (clearUpdateTimeout st)) = frameRequests (host st)
  /\ settings (clearUpdateTimeout st) = settings st
  /\ htmlContent (clearUpdateTimeout st) = htmlContent st
  /\ cssContent (clearUpdateTimeout st) = cssContent st.
Proof.
  unfold clearUpdateTimeout. destruct (updateTimeout st) as [id|];
    [destruct (0 <? id)%nat|]; cbn; tauto.
Qed.

Lemma generated_ext compileString st st' :
  settings st' = settings st -> htmlContent st' = htmlContent st ->
  cssContent st' = cssContent st -> sass st' = sass st ->
  generated compileString st' = generated compileString st.
Proof. intros Hs Hh Hc Ha. unfold generated. now rewrite Hs, Hh, Hc, Ha. Qed.

(** X8.  The delay for a large text is not always longer.  With a
    configured delay above 1000 ms, an edit that leaves more than 5000
    code units is rendered 1000 ms later, sooner than an edit that leaves
    a small text, which waits the full configured delay. *)
Theorem large_content_sooner st html css html' css' :
  Inv st -> autoRefresh (settings st) = true ->
  (1000 < refreshDelay (settings st))%Z ->
  (length html + length css <= 5000)%nat ->
  (5000 < length html' + length css')%nat ->
  exists J J',
    pending_jobs (onContentChange html css st) = [J]
    /\ pending_jobs (onContentChange html' css' st) = [J']
    /\ due J = (now (host st) + refreshDelay (settings st))%Z
    /\ due J' = (now (host st) + 1000)%Z
    /\ (due J' < due J)%Z.
Proof.
  intros Hi Ha Hd Hs Hl.
  destruct (edit_spec (fun _ s => Sass.Returned s) html css st Hi Ha)
    as (_ & _ & _ & _ & _ & _ & _ & (J & Hj & HJ) & _).
  destruct (edit_spec (fun _ s => Sass.Returned s) html' css' st Hi Ha)
    as (_ & _ & _ & _ & _ & _ & _ & (J' & Hj' & HJ') & _).
  cbn [step] in Hj, Hj'. exists J, J'.
  unfold delay_of, adaptiveDelay in HJ, HJ'.
  replace (5000 <? Z.of_nat (length html + length css))%Z with false in HJ
    by (symmetry; apply Z.ltb_ge; lia).
  replace (5000 <? Z.of_nat (length html' + length css'))%Z with true in HJ'
    by (symmetry; apply Z.ltb_lt; lia).
  repeat split; auto; lia.
Qed.

Lemma large_content_sooner_witness :
  let st := run Stub.compileString [ChangeSettings settings_2000] initial in
  exists J J',
    pending_jobs (onContentChange (js "<p>a</p>") [] st) = [J]
    /\ pending_jobs (onContentChange long_text [] st) = [J']
    /\ due J = (now (host st) + refreshDelay (settings st))%Z
    /\ due J' = (now (host st) + 1000)%Z
    /\ (due J' < due J)%Z.
Proof.
  apply (large_content_sooner (run Stub.compileString [ChangeSettings settings_2000] initial)).
  - apply run_Inv, initial_Inv.
  - reflexivity.
  - reflexivity.
  - apply Nat.leb_le. vm_compute. reflexivity.
  - apply Nat.ltb_lt. vm_compute. reflexivity.
Defined.

Section Run.
Variable compileString : Sass.Compiler.

(** X9.  A manual refresh renders whatever the automatic refresh setting
    is: it cancels the pending debounce job, requests one render, and the
    next animation frame writes the document of the current texts to the
    primary frame. *)
Theorem manual_refresh_renders els st :
  Inv st -> render_requests st = [] ->
  let st1 := manualRefreshPreview st in
  pending_jobs st1 = []
  /\ render_requests st1 = [PreviewFrame]
  /\ output (animationFrame compileString els st1)
     = output st ++ primary_out (previewFrame (sinks st)) (generated compileString st).
Proof.
  intros Hi Hr. cbv zeta.
  destruct (clearUpdateTimeout_spec st Hi) as (Hj & _).
  destruct (clearUpdateTimeout_rest st) as (Ho & Hk & Hss & _ & Hf & Hs & Hh & Hc).
  assert (H1 : pending_jobs (manualRefreshPreview st) = []).
  { unfold manualRefreshPreview, updatePreview, pending_jobs in *. cbn.
    rewrite jobs_app, Hj. reflexivity. }
  assert (H2 : render_requests (manualRefreshPreview st) = [PreviewFrame]).
  { unfold manualRefreshPreview, updatePreview, render_requests, request_tasks in *. cbn.
    rewrite map_app, filter_app, Hf, Hr. reflexivity. }
  split; [exact H1|]. split; [exact H2|].
  destruct (frame_spec compileString els _ H2) as [-> _].
  unfold manualRefreshPreview, updatePreview. cbn [setTimeout requestAnimationFrame].
  cbn [output set_host sinks]. rewrite Ho, Hk. f_equal. f_equal.
  apply generated_ext; cbn; auto.
Qed.

(** X10.  Switching automatic refresh off does not cancel a render that
    is already scheduled.  The pending job still fires when it is due, and
    the document it renders holds the texts typed after the switch. *)
Theorem pending_render_survives_switch_off st J s html css k els :
  Inv st -> pending_jobs st = [J] -> render_requests st = [] ->
  autoRefresh s = false ->
  (0 < k)%nat -> (due J <= now (host st) + Z.of_nat k)%Z ->
  let st' := run compileString
               ([ChangeSettings s; Edit html css] ++ repeat Tick k ++ [AnimationFrame els]) st in
  output st'
  = output st ++ primary_out (previewFrame (sinks st))
                   (generated compileString (set_content html css (set_settings s st)))
  /\ pending_jobs st' = [].
Proof.
  intros Hi Hj Hr Hs Hk Hd. cbv zeta. rewrite !run_app.
  assert (E : run compileString [ChangeSettings s; Edit html css] st
              = set_content html css (set_settings s st)).
  { cbn [run fold_left step]. unfold applySettings. cbn [settings set_settings].
    rewrite Hs. cbn [andb]. unfold onContentChange. cbn [settings set_content set_settings].
    now rewrite Hs. }
  rewrite E. set (s1 := set_content html css (set_settings s st)).
  assert (Hi1 : Inv s1) by (revert Hi; now apply Inv_same).
  destruct (ticks_fire compileString k s1 J Hi1 Hj Hk Hd) as (Hv & Hj2 & Hr2 & Hi2).
  set (s2 := run compileString (repeat Tick k) s1) in *.
  change (run compileString [AnimationFrame els] s2) with (animationFrame compileString els s2).
  destruct (frame_spec compileString els s2) as (Ho & Hj3).
  { rewrite Hr2. change (render_requests s1) with (render_requests st). now rewrite Hr. }
  split; [|now rewrite Hj3].
  rewrite Ho, (generated_same compileString _ _ Hv).
  destruct Hv as (-> & _ & _ & _ & -> & _). reflexivity.
Qed.

End Run.

Lemma manual_refresh_renders_witness :
  let st := run Stub.compileString [ChangeSettings settings_off; Edit (js "<p>a</p>") []]
              initial in
  pending_jobs (manualRefreshPreview st) = []
  /\ output (animationFrame Stub.compileString [] (manualRefreshPreview st))
     = [Wrote Primary (generated Stub.compileString st)].
Proof.
  destruct (manual_refresh_renders Stub.compileString []
              (run Stub.compileString [ChangeSettings settings_off; Edit (js "<p>a</p>") []]
                 initial)) as (H1 & _ & H3).
  - apply run_Inv, initial_Inv.
  - reflexivity.
  - split; [exact H1 | exact H3].
Defined.

Lemma pending_render_survives_switch_off_witness :
  let st := run Stub.compileString [Edit (js "<p>a</p>") []] initial in
  output (run Stub.compileString
            ([ChangeSettings settings_off; Edit (js "<p>ab</p>") []] ++ repeat Tick 300
             ++ [AnimationFrame []]) st)
  = [Wrote Primary
       (generated Stub.compileString (set_content (js "<p>ab</p>") [] (set_settings settings_off st)))].
Proof.
  refine (proj1 (pending_render_survives_switch_off Stub.compileString
                   (run Stub.compileString [Edit (js "<p>a</p>") []] initial)
                   {| timerId := 1; due := 300; timerTask := UpdatePreviewJob |}
                   settings_off (js "<p>ab</p>") [] 300 [] _ _ _ _ _ _)).
  - apply run_Inv, initial_Inv.
  - reflexivity.
  - reflexivity.
  - reflexivity.
  - apply Nat.ltb_lt. reflexivity.
  - apply Z.leb_le. reflexivity.
Defined.

End SchedulerExtras.

(** ** With automatic refresh off *)
Module QuietFacts.
Import JS Sanitizer Assembler View ViewSpec SchedulerFacts RenderFacts BurstFacts QuietSpec.

Section Run.
Variable compileString : Sass.Compiler.

Lemma tick_requests st :
  Inv st ->
  exists D,
    incl D (timers (host st))
    /\ request_tasks (tick compileString st)
       = request_tasks st
         ++ flat_map (spawned (previewHasWindow (sinks st))) (map timerTask D).
Proof.
  intros (_ & _ & _ & _ & Hnd & _ & Hok).
  unfold tick. cbv zeta.
  set (st0 := set_host (advance (host st)) st).
  set (D := due_timers (host st0)).
  assert (HD : Permutation D (filter (is_due (now (host st) + 1)) (timers (host st)))).
  { unfold D, due_timers. apply sort_by_due_perm. }
  assert (HinD : forall d, In d D -> In d (timers (host st))).
  { intros d Hd. apply (Permutation_in _ HD) in Hd. now apply filter_In in Hd. }
  destruct (fire_all compileString D st0) as (_ & _ & _ & _ & Hr).
  - apply (Permutation_NoDup (l := map timerId (filter (is_due (now (host st) + 1))
                                                   (timers (host st))))).
    + apply Permutation_map. now symmetry.
    + now apply NoDup_map_filter.
  - exact HinD.
  - rewrite Forall_forall in *. intros d Hd. now apply Hok, HinD.
  - exists D. split; [exact HinD | exact Hr].
Qed.

Lemma no_jobs_spawn_polls w (D ts : list Timer) :
  incl D ts -> jobs ts = [] ->
  forallb is_monitor (flat_map (spawned w) (map timerTask D)) = true.
Proof.
  intros Hin Hj. induction D as [|d D IH]; [reflexivity|].
  cbn [map flat_map]. rewrite forallb_app. apply andb_true_iff. split.
  - assert (Hd : In d ts) by (apply Hin; now left).
    destruct (timerTask d) eqn:E; cbn; try reflexivity.
    + exfalso. assert (In d (jobs ts)) by (apply filter_In; split; [exact Hd | now rewrite E]).
      rewrite Hj in H. destruct H.
    + now destruct w.
  - apply IH. intros x Hx. apply Hin. now right.
Qed.

Lemma forallb_requests (rs : list FrameRequest) :
  forallb is_monitor (map requestTask rs) = forallb (fun r => is_monitor (requestTask r)) rs.
Proof. induction rs as [|r rs IH]; [reflexivity|]. cbn. now rewrite IH. Qed.

Lemma poll_spec els st :
  let st' := monitorCallback els st in
  same_view st st'
  /\ timers (host st') = timers (host st)
  /\ nextTimerId (host st') = nextTimerId (host st)
  /\ (polls_only st = true -> polls_only st' = true).
Proof.
  cbv zeta. unfold monitorCallback, same_view, polls_only, request_tasks.
  destruct (previewFrame (sinks st)); try tauto.
  cbv zeta. destruct (sample_elements _ _ _) as [m []]; cbn; repeat split; auto.
  intros H. now rewrite map_app, forallb_app, H.
Qed.

Lemma polls_fold els : forall rs st,
  forallb (fun r => is_monitor (requestTask r)) rs = true ->
  let st' := fold_left (fun s r => run_task compileString els (requestTask r) s) rs st in
  same_view st st'
  /\ timers (host st') = timers (host st)
  /\ nextTimerId (host st') = nextTimerId (host st)
  /\ (polls_only st = true -> polls_only st' = true).
Proof.
  induction rs as [|r rs IH]; intros st Hrs; cbv zeta; cbn [fold_left].
  - pose proof (same_view_refl st). tauto.
  - cbn [forallb] in Hrs. apply andb_true_iff in Hrs as [Hr Hrs].
    destruct (requestTask r); try discriminate. cbn [run_task].
    destruct (poll_spec els st) as (Hv & Ht & Hn & Hp).
    destruct (IH (monitorCallback els st) Hrs) as (Hv' & Ht' & Hn' & Hp').
    pose proof (same_view_trans _ _ _ Hv Hv') as Hv2.
    split; [exact Hv2|]. split; [congruence|]. split; [congruence|]. auto.
Qed.

Lemma idle_step o st e : passive e = true -> idle o st -> idle o (step compileString st e).
Proof.
  intros He (Hi & Ha & Hj & Hp & Ho). destruct e; try discriminate; cbn [step].
  - unfold onContentChange. cbn [settings set_content]. rewrite Ha.
    assert (Hi' : Inv (set_content html css st)) by (revert Hi; now apply Inv_same).
    unfold idle. tauto.
  - destruct (tick_spec compileString st Hi) as ((Ho' & _ & _ & Hs & _) & _ & Hj' & _ & Hi').
    destruct (tick_requests st Hi) as (D & HD & Hr).
    rewrite Hj in Hj'. cbn [filter] in Hj'.
    assert (Hq : polls_only (tick compileString st) = true).
    { unfold polls_only in *. rewrite Hr, forallb_app, Hp.
      apply (no_jobs_spawn_polls _ _ _ HD). exact Hj. }
    unfold idle. rewrite Hs, Ho'. tauto.
  - unfold animationFrame.
    destruct (polls_fold els (frameRequests (host st))
                (set_host (take_requests (host st)) st))
      as ((Ho' & _ & _ & Hs & _ & _ & Hu) & Ht & Hn & Hq).
    { unfold polls_only, request_tasks in Hp. now rewrite forallb_requests in Hp. }
    set (s' := fold_left _ _ _) in *.
    assert (Hi' : Inv s') by (revert Hi; now apply Inv_same).
    assert (Hj' : pending_jobs s' = []) by (unfold pending_jobs in *; now rewrite Ht).
    assert (Hp' : polls_only s' = true) by now apply Hq.
    unfold idle. rewrite Hs, Ho'. tauto.
Qed.

Lemma polls_no_render st : polls_only st = true -> render_requests st = [].
Proof.
  unfold polls_only, render_requests. induction (request_tasks st) as [|t l IH]; [reflexivity|].
  cbn. intros H. apply andb_true_iff in H as [Ht Hl]. destruct t; try discriminate.
  cbn. now apply IH.
Qed.

(** X11.  With automatic refresh off, no job pending and no render
    requested, editing never renders: after any sequence of edits, clock
    ticks and animation frames nothing more has been written, no render is
    requested and no job is pending. *)
Theorem autorefresh_off_quiet evs : forall st,
  Inv st -> autoRefresh (settings st) = false ->
  pending_jobs st = [] -> polls_only st = true ->
  forallb passive evs = true ->
  output (run compileString evs st) = output st
  /\ render_requests (run compileString evs st) = []
  /\ pending_jobs (run compileString evs st) = [].
Proof.
  intros st Hi Ha Hj Hp Hev.
  assert (H : idle (output st) (run compileString evs st)).
  { assert (H0 : idle (output st) st) by (unfold idle; auto).
    revert H0. generalize (output st) as o. revert st Hi Ha Hj Hp.
    induction evs as [|e evs IH]; intros st _ _ _ _ o H0; [exact H0|].
    cbn [forallb] in Hev. apply andb_true_iff in Hev as [He Hev].
    cbn [run fold_left]. pose proof (idle_step o st e He H0) as H1.
    destruct H1 as (Hi1 & Ha1 & Hj1 & Hp1 & Ho1).
    apply (IH Hev (step compileString st e)); auto. unfold idle; auto. }
  destruct H as (_ & _ & Hj' & Hp' & Ho'). auto using polls_no_render.
Qed.

End Run.

Lemma autorefresh_off_quiet_witness :
  output (run Stub.compileString
            ([Edit (js "<p>a</p>") []] ++ repeat Tick 400 ++ [AnimationFrame []])
            (run Stub.compileString [ChangeSettings settings_off] initial))
  = [].
Proof.
  refine (proj1 (autorefresh_off_quiet Stub.compileString
                   ([Edit (js "<p>a</p>") []] ++ repeat Tick 400 ++ [AnimationFrame []])
                   (run Stub.compileString [ChangeSettings settings_off] initial) _ _ _ _ _)).
  - apply run_Inv, initial_Inv.
  - reflexivity.
  - reflexivity.
  - reflexivity.
  - vm_compute. reflexivity.
Defined.

End QuietFacts.

(** ** The monitor: polling loops add up *)
Module MonitorFacts.
Import JS Sanitizer Assembler View ViewSpec SchedulerFacts MonitorSpec SampleFacts.

Section Run.
Variable compileString : Sass.Compiler.

Lemma polls_run els name : forall rs st,
  previewFrame (sinks st) = Healthy -> previewHasWindow (sinks st) = true ->
  truthy name = true -> eqb_str name (js "none") = false ->
  no_throw els = true ->
  Forall (fun r => requestTask r = MonitorFrame) rs ->
  let st' := fold_left (fun s r => run_task compileString els (requestTask r) s) rs st in
  sinks st' = sinks st
  /\ request_tasks st' = request_tasks st ++ repeat MonitorFrame (length rs)
  /\ frames_of name (animations (monitor st'))
     = (frames_of name (animations (monitor st))
        + Z.of_nat (length rs) * Z.of_nat (sightings name els))%Z.
Proof.
  induction rs as [|r rs IH]; intros st Hf Hw Ht Hn Hok Hrs; cbv zeta; cbn [fold_left].
  - cbn. rewrite app_nil_r. repeat split; lia.
  - inversion Hrs as [|x xs Hr Hrs']; subst. rewrite Hr. cbn [run_task].
    destruct (frames_sample_elements (now (host st)) name els (animations (monitor st)) Ht Hn Hok)
      as [Hs Hc].
    assert (E : monitorCallback els st
                = set_monitor {| animations := fst (sample_elements (now (host st)) els
                                                     (animations (monitor st)));
                                 rafId := Some (nextRequestId (host st)) |}
                    (set_host (snd (requestAnimationFrame MonitorFrame (host st))) st)).
    { unfold monitorCallback. rewrite Hf, Hw. cbv zeta.
      destruct (sample_elements _ _ _) as [m b]. cbn [snd fst] in *. now subst b. }
    rewrite E. set (s1 := set_monitor _ _).
    destruct (IH s1) as (Hk & Hq & Hc'); auto.
    split; [exact Hk|]. split.
    + rewrite Hq. unfold s1, request_tasks. cbn. rewrite map_app, <- app_assoc. reflexivity.
    + rewrite Hc'. unfold s1. cbn [monitor set_monitor animations]. rewrite Hc.
      cbn [length]. lia.
Qed.

(** X12.  Starting the monitor never stops a loop that is already
    polling, so the loops add up, one for each render.  With [n] loops
    polling a readable preview, every frame counts every animated element
    [n] times: the frame count of an animation grows by [n] for each
    element that shows it, all [n] polls are requested again, and
    [startMonitoring] adds one more. *)
Theorem monitor_loops_accumulate els name n st :
  previewFrame (sinks st) = Healthy -> previewHasWindow (sinks st) = true ->
  truthy name = true -> eqb_str name (js "none") = false ->
  no_throw els = true ->
  request_tasks st = repeat MonitorFrame n ->
  let st' := animationFrame compileString els st in
  request_tasks st' = repeat MonitorFrame n
  /\ frames_of name (animations (monitor st'))
     = (frames_of name (animations (monitor st))
        + Z.of_nat n * Z.of_nat (sightings name els))%Z
  /\ request_tasks (startMonitoring st') = repeat MonitorFrame (S n).
Proof.
  intros Hf Hw Ht Hn Hok Hr. cbv zeta. unfold animationFrame.
  assert (Hrs : Forall (fun r => requestTask r = MonitorFrame) (frameRequests (host st))
                /\ length (frameRequests (host st)) = n).
  { unfold request_tasks in Hr. clear -Hr. revert n Hr.
    induction (frameRequests (host st)) as [|r rs IH]; intros [|n] Hr; cbn in Hr;
      try discriminate; [split; [constructor | reflexivity]|].
    injection Hr as Hr1 Hr2. destruct (IH _ Hr2) as [H1 H2].
    split; [now constructor | cbn; now rewrite H2]. }
  destruct Hrs as [Hrs Hl].
  destruct (polls_run els name (frameRequests (host st))
              (set_host (take_requests (host st)) st) Hf Hw Ht Hn Hok Hrs) as (Hk & Hq & Hc).
  set (s' := fold_left _ _ _) in *. rewrite Hl in *.
  assert (Hq' : request_tasks s' = repeat MonitorFrame n) by exact Hq.
  split; [exact Hq'|]. split; [exact Hc|].
  unfold startMonitoring. rewrite Hk. cbn [sinks set_host]. rewrite Hw.
  unfold request_tasks in *. cbn. rewrite map_app, Hq'. cbn [map requestTask].
  clear. induction n as [|n IH]; [reflexivity|]. cbn. now rewrite IH.
Qed.

End Run.

Lemma monitor_loops_accumulate_witness :
  let st := run Stub.compileString two_renders initial in
  request_tasks st = repeat MonitorFrame 2
  /\ frames_of (js "spin")
       (animations (monitor (animationFrame Stub.compileString spin st)))
     = (frames_of (js "spin") (animations (monitor st)) + 2 * 1)%Z.
Proof.
  cbv zeta. split; [vm_compute; reflexivity|].
  apply (monitor_loops_accumulate Stub.compileString spin (js "spin") 2
           (run Stub.compileString two_renders initial));
    vm_compute; reflexivity.
Defined.

End MonitorFacts.

(** ** What is written into the frames *)
Module DocumentFacts.
Import JS Sanitizer Assembler View ViewSpec SchedulerFacts RenderFacts BurstFacts.
Import QuietFacts DocumentSpec.

Lemma clearUpdateTimeout_out st :
  output (clearUpdateTimeout st) = output st
  /\ frameRequests (host (clearUpdateTimeout st)) = frameRequests (host st).
Proof.
  unfold clearUpdateTimeout. destruct (updateTimeout st) as [id|];
    [destruct (0 <? id)%nat|]; cbn; tauto.
Qed.

Lemma onContentChange_out html css st :
  output (onContentChange html css st) = output st
  /\ frameRequests (host (onContentChange html css st)) = frameRequests (host st).
Proof.
  unfold onContentChange. cbv zeta. destruct (autoRefresh _); [|cbn; tauto].
  destruct (clearUpdateTimeout_out (set_content html css st)) as [Ho Hf].
  cbn [setTimeout]. cbn. rewrite Ho, Hf. cbn. tauto.
Qed.

Section Run.
Variable compileString : Sass.Compiler.

Lemma generated_assembled st : assembled (generated compileString st).
Proof.
  unfold generated, generatePreviewContent, Sass.bind, Sass.get, Sass.ret, assembled.
  destruct (Sass.isSassMode (sass st)); [|cbn; eauto].
  destruct (SassFacts.compileSass_returns compileString (cssContent st) (sass st)) as [out H].
  destruct (Sass.compileSass compileString (cssContent st) (sass st)) as [[c|e] s'];
    cbn in *; [eauto | discriminate].
Qed.

Lemma run_task_documents els t st :
  carries_ok t -> documents_ok st -> documents_ok (run_task compileString els t st).
Proof.
  intros Ht [Ho Hr]. unfold documents_ok, request_tasks in *.
  destruct t; cbn [run_task carries_ok] in *.
  - unfold updatePreview. cbn. rewrite map_app. split; [exact Ho|].
    apply Forall_app. split; [exact Hr | repeat constructor].
  - auto.
  - unfold startMonitoring. destruct (previewHasWindow (sinks st)); [|auto]. cbn.
    rewrite map_app. split; [exact Ho|]. apply Forall_app. split; [exact Hr | repeat constructor].
  - destruct (previewFrameCallback_spec compileString st) as (Ho' & _ & Hr').
    pose proof (generated_assembled st) as Ha.
    rewrite Ho', Hr', !map_app. split.
    + apply Forall_app. split; [exact Ho|].
      unfold primary_out. destruct (previewFrame (sinks st)); repeat constructor. exact Ha.
    + apply Forall_app. split; [exact Hr|]. apply Forall_app. split.
      * destruct (pipFrame (sinks st)); repeat constructor. exact Ha.
      * destruct (fullscreenOverlay (sinks st)); repeat constructor. exact Ha.
  - unfold renderPreviewContentToFrame. destruct (pipFrame (sinks st)) as [[]|]; cbn;
      (split; [|exact Hr]); auto; apply Forall_app; split; auto; repeat constructor; exact Ht.
  - unfold renderPreviewContentToFrame. destruct (fullscreenOverlay (sinks st)) as [[[]|]|]; cbn;
      (split; [|exact Hr]); auto; apply Forall_app; split; auto; repeat constructor; exact Ht.
  - unfold monitorCallback. destruct (previewFrame (sinks st)); auto.
    cbv zeta. destruct (sample_elements _ _ _) as [m []]; cbn; [|auto].
    rewrite map_app. split; [exact Ho|]. apply Forall_app. split; [exact Hr | repeat constructor].
Qed.

Lemma spawned_carry w (D : list Timer) :
  Forall carries_ok (flat_map (spawned w) (map timerTask D)).
Proof.
  induction D as [|d D IH]; [constructor|]. cbn [map flat_map]. apply Forall_app. split; [|exact IH].
  destruct (timerTask d); cbn; repeat constructor. destruct w; repeat constructor.
Qed.

Lemma step_documents st e :
  Inv st -> documents_ok st -> documents_ok (step compileString st e).
Proof.
  intros Hi [Ho Hr]. destruct e; cbn [step].
  - destruct (onContentChange_out html css st) as [Ho' Hr'].
    unfold documents_ok, request_tasks in *. now rewrite Ho', Hr'.
  - match goal with |- documents_ok (onContentChange ?h ?c ?s) =>
      destruct (onContentChange_out h c s) as [Ho' Hr'] end.
    unfold documents_ok, request_tasks in *. now rewrite Ho', Hr'.
  - destruct (clearUpdateTimeout_out st) as [Ho' Hr'].
    unfold documents_ok, request_tasks, manualRefreshPreview, updatePreview in *. cbn.
    rewrite Ho', Hr', map_app. split; [exact Ho|].
    apply Forall_app. split; [exact Hr | repeat constructor].
  - unfold applySettings. destruct (_ && _); [|split; assumption].
    destruct (clearUpdateTimeout_out (set_settings s st)) as [Ho' Hr'].
    unfold documents_ok, request_tasks in *. cbn. rewrite Ho', Hr'. cbn. now split.
  - destruct (tick_spec compileString st Hi) as ((Ho' & _) & _).
    unfold documents_ok. rewrite Ho'. split; [exact Ho|].
    destruct (tick_requests compileString st Hi) as (D & _ & ->).
    apply Forall_app. split; [exact Hr | apply spawned_carry].
  - unfold animationFrame.
    assert (H0 : documents_ok (set_host (take_requests (host st)) st))
      by (split; [exact Ho | constructor]).
    revert H0. unfold request_tasks in Hr.
    generalize (set_host (take_requests (host st)) st) as s.
    induction (frameRequests (host st)) as [|r rs IH]; intros s Hs; [exact Hs|].
    cbn [fold_left]. cbn [map] in Hr. inversion Hr as [|x xs Hx Hxs]; subst.
    apply IH; [exact Hxs|]. now apply run_task_documents.
  - split; assumption.
  - split; assumption.
  - split; assumption.
  - destruct (clearUpdateTimeout_out st) as [Ho' Hr'].
    unfold documents_ok, request_tasks, stopMonitoring in *.
    destruct (rafId (monitor (clearUpdateTimeout st))) as [id|];
      [destruct (0 <? id)%nat|]; cbn; rewrite ?Ho', ?Hr'; try (split; assumption).
    split; [exact Ho|]. clear -Hr. induction (frameRequests (host st)) as [|r rs IH];
      [constructor|]. cbn in *. inversion Hr; subst.
    destruct (negb (requestId r =? id)%nat); cbn; auto.
Qed.

Lemma run_documents evs : forall st,
  Inv st -> documents_ok st -> documents_ok (run compileString evs st).
Proof.
  induction evs as [|e evs IH]; intros st Hi Hd; [exact Hd|].
  cbn [run fold_left]. apply IH; [now apply step_Inv | now apply step_documents].
Qed.

(** X13.  Whatever the user and the host do, every document written into
    the primary, the floating or the fullscreen frame is an assembled
    preview document: the fixed shell around a style text and a markup
    that both come out of the sanitizers. *)
Theorem sinks_receive_assembled evs k content :
  In (Wrote k content) (output (run compileString evs initial)) ->
  exists bg css html,
    content = document bg (validateAndSanitizeCSS css) (validateAndSanitizeHTML html).
Proof.
  intros Hin.
  destruct (run_documents evs initial initial_Inv) as [Ho _].
  - split; constructor.
  - rewrite Forall_forall in Ho. exact (Ho _ Hin).
Qed.

End Run.

Lemma sinks_receive_assembled_witness :
  exists bg css html,
    document (js "#ffffff") (js ".a{color:red}") (js "<p>abc</p>")
    = document bg (validateAndSanitizeCSS css) (validateAndSanitizeHTML html).
Proof.
  apply (sinks_receive_assembled Stub.compileString burst Primary).
  vm_compute. left. reflexivity.
Defined.

End DocumentFacts.

(** ** The error page and the export *)
Module ErrorPageFacts.
Import JS Regex Includes Assembler Dom ErrorPage SanitizerExtras.

Lemma escapeHtml_id text : escapeHtml text = text.
Proof.
  unfold escapeHtml, createElement, set_textContent.
  destruct text as [|u text]; [reflexivity|].
  cbn. now rewrite app_nil_r.
Qed.

(** X14.  [escapeHtml] escapes nothing: it returns the text it is given.
    The message of the caught error is therefore put into the markup of
    the error page as it is, whatever characters it holds. *)
Theorem error_message_not_escaped bg error :
  escapeHtml (errorMessage error) = errorMessage error
  /\ errorContent bg error
     = error_head ++ bg ++ error_mid ++ errorMessage error ++ error_tail
  /\ includes (errorContent bg error) (errorMessage error) = true.
Proof.
  split; [apply escapeHtml_id|]. split.
  - unfold errorContent, generateErrorContent. now rewrite escapeHtml_id.
  - unfold errorContent, generateErrorContent. rewrite escapeHtml_id.
    do 3 apply SanitizerClaims.includes_r. apply SanitizerClaims.includes_l.
    unfold includes. destruct (errorMessage error) as [|u m]; [reflexivity|].
    cbn [Shape.anywhere]. apply orb_true_iff. left.
    rewrite <- (app_nil_r (u :: m)) at 2. apply starts_with_refl.
Qed.

End ErrorPageFacts.

Module ExportStyleFacts.
Import JS Regex Shape RegexFacts ShapeFacts ScanFacts Sanitizer StyleProof ExportStyle.

Lemma test_cons re u s : test re s = true -> test re (u :: s) = true.
Proof. intros H. cbn [test]. destruct (match_at re (u :: s)); [reflexivity | exact H]. Qed.

Section Stage.
Variables (re : regex) (repl : jsstring).
Hypothesis match_nonempty : forall s, match_at re s <> Some 0%nat.
Hypothesis repl_matches : forall t, test re (repl ++ t) = true.

Lemma stage_keeps_matching : forall s, test re (replace re repl s) = test re s.
Proof.
  intros s. destruct (test re s) eqn:E; [|now rewrite replace_id].
  revert E. apply (scan_ind re match_nonempty
                     (fun s => test re s = true -> test re (replace re repl s) = true)).
  - cbn [test]. destruct (match_at re []) eqn:M; [|discriminate].
    intros _. rewrite (replace_nil re repl match_nonempty). cbn [test]. now rewrite M.
  - intros u s' M IH H. rewrite (replace_miss re repl u s' M).
    cbn [test] in H. rewrite M in H. apply test_cons. now apply IH.
  - intros s' k M _ _. rewrite (replace_hit re repl match_nonempty s' k M). apply repl_matches.
Qed.
End Stage.

(** X15.  The export's style sanitizer does not remove [javascript:],
    [expression(] and [behavior:]: the comment it writes in place of a
    match holds the pattern again.  A style text matches each of the three
    patterns after its stage exactly when it matched before, and an
    exported style that is not blank still holds [behavior:] when the text
    did before the last stage. *)
Theorem export_style_comments_match :
  (forall s, test re_javascript (replace re_javascript javascript_comment s)
             = test re_javascript s)
  /\ (forall s, test re_expression (replace re_expression expression_comment s)
                = test re_expression s)
  /\ (forall s, test re_behavior (replace re_behavior behavior_comment s) = test re_behavior s)
  /\ (forall css, truthy (trim css) = true ->
        test re_behavior (sanitizeCSS css) = test re_behavior (before_behavior css)).
Proof.
  split; [|split; [|split]].
  - apply stage_keeps_matching; [exact javascript_nonempty|]. intros t. vm_compute. reflexivity.
  - apply stage_keeps_matching; [exact expression_nonempty|]. intros t. vm_compute. reflexivity.
  - apply stage_keeps_matching; [exact behavior_nonempty|]. intros t. vm_compute. reflexivity.
  - intros css Hb. unfold sanitizeCSS. rewrite Hb.
    assert (Hc : truthy css = true) by (destruct css; [discriminate | reflexivity]).
    rewrite Hc. cbn [negb orb].
    apply stage_keeps_matching; [exact behavior_nonempty|]. intros t. vm_compute. reflexivity.
Qed.

Lemma export_style_comments_match_witness :
  test re_behavior (sanitizeCSS (js "a{behavior:url(x.htc)}")) = true.
Proof.
  rewrite (proj2 (proj2 (proj2 export_style_comments_match)) (js "a{behavior:url(x.htc)}")).
  - vm_compute. reflexivity.
  - vm_compute. reflexivity.
Defined.

End ExportStyleFacts.

(** ** The grouped patterns *)
Module RxFacts.
Import JS Rx RxSpec.
Local Open Scope N_scope.

Section Match.
Variable i : bool.

Lemma same_length w : forall s, same i w s = true -> (length w <= length s)%nat.
Proof.
  induction w as [|a w IH]; intros s H; cbn; [lia|].
  destruct s as [|u s]; [discriminate|]. cbn in H.
  apply andb_true_iff in H as [_ H]. apply IH in H. cbn. lia.
Qed.

Lemma bounded_step min max :
  bounded min max = true -> exhausted max = false -> bounded (pred min) (dec max) = true.
Proof.
  destruct max as [[|b]|]; cbn; try discriminate; auto.
  intros H _. apply Nat.leb_le in H. apply Nat.leb_le. lia.
Qed.

Lemma bounded_exhausted min max :
  bounded min max = true -> exhausted max = true -> min = 0%nat.
Proof.
  destruct max as [[|b]|]; cbn; try discriminate. intros H _. apply Nat.leb_le in H. lia.
Qed.

Lemma rep_greedy_sound c k res : forall s min max n,
  bounded min max = true ->
  rep_greedy i c min max k n s = Some res ->
  exists j, (min <= j)%nat /\ (j <= length s)%nat
            /\ forallb (member i c) (firstn j s) = true
            /\ k (n + j)%nat (skipn j s) = Some res.
Proof.
  assert (Hzero : forall s n, k n s = Some res ->
            exists j, (0 <= j)%nat /\ (j <= length s)%nat
                      /\ forallb (member i c) (firstn j s) = true
                      /\ k (n + j)%nat (skipn j s) = Some res).
  { intros s n H. exists 0%nat. rewrite Nat.add_0_r. cbn. repeat split; auto; lia. }
  assert (Hstop : forall s min n,
            match min with O => k n s | S _ => None end = Some res ->
            exists j, (min <= j)%nat /\ (j <= length s)%nat
                      /\ forallb (member i c) (firstn j s) = true
                      /\ k (n + j)%nat (skipn j s) = Some res).
  { intros s [|mn] n H; [now apply Hzero | discriminate]. }
  induction s as [|u s IH]; intros min max n Hb H; cbn [rep_greedy] in H.
  - destruct (exhausted max) eqn:E; [|now apply Hstop].
    rewrite (bounded_exhausted _ _ Hb E). now apply Hzero.
  - destruct (exhausted max) eqn:E.
    { rewrite (bounded_exhausted _ _ Hb E). now apply Hzero. }
    destruct (member i c u) eqn:M; [|now apply Hstop].
    destruct (rep_greedy i c (pred min) (dec max) k (S n) s) as [r|] eqn:R; [|now apply Hstop].
    injection H as <-.
    destruct (IH _ _ _ (bounded_step _ _ Hb E) R) as (j & Hm & Hl & Hf & Hk).
    exists (S j). cbn [firstn forallb skipn length]. rewrite M, Hf.
    replace (n + S j)%nat with (S n + j)%nat by lia.
    repeat split; auto; lia.
Qed.

Lemma rep_lazy_sound c k res : forall s min max n,
  bounded min max = true ->
  rep_lazy i c min max k n s = Some res ->
  exists j, (min <= j)%nat /\ (j <= length s)%nat
            /\ forallb (member i c) (firstn j s) = true
            /\ k (n + j)%nat (skipn j s) = Some res.
Proof.
  assert (Hzero : forall s n, k n s = Some res ->
            exists j, (0 <= j)%nat /\ (j <= length s)%nat
                      /\ forallb (member i c) (firstn j s) = true
                      /\ k (n + j)%nat (skipn j s) = Some res).
  { intros s n H. exists 0%nat. rewrite Nat.add_0_r. cbn. repeat split; auto; lia. }
  induction s as [|u s IH]; intros min max n Hb H; cbn [rep_lazy] in H.
  - destruct (exhausted max) eqn:E.
    { rewrite (bounded_exhausted _ _ Hb E). now apply Hzero. }
    destruct min as [|mn]; [|discriminate].
    destruct (k n []) eqn:K; [|discriminate]. injection H as <-. now apply Hzero.
  - destruct (exhausted max) eqn:E.
    { rewrite (bounded_exhausted _ _ Hb E). now apply Hzero. }
    assert (Hmore : (if member i c u then rep_lazy i c (pred min) (dec max) k (S n) s else None)
                    = Some res ->
                    exists j, (min <= j)%nat /\ (j <= length (u :: s))%nat
                      /\ forallb (member i c) (firstn j (u :: s)) = true
                      /\ k (n + j)%nat (skipn j (u :: s)) = Some res).
    { intros Hm. destruct (member i c u) eqn:M; [|discriminate].
      destruct (IH _ _ _ (bounded_step _ _ Hb E) Hm) as (j & Hj & Hl & Hf & Hk).
      exists (S j). cbn [firstn forallb skipn length]. rewrite M, Hf.
      replace (n + S j)%nat with (S n + j)%nat by lia.
      repeat split; auto; lia. }
    destruct min as [|mn]; [|now apply Hmore].
    destruct (k n (u :: s)) eqn:K; [|now apply Hmore].
    injection H as <-. now apply Hzero.
Qed.

(** Where a match succeeds, the continuation has succeeded further on in
    the same input. *)
Lemma m_sound r : forall k idx s c res,
  well_formed r = true ->
  m i r k idx s c = Some res ->
  exists j c', (min_len r <= j)%nat /\ (j <= length s)%nat
               /\ k (idx + j)%nat (skipn j s) c' = Some res.
Proof.
  induction r as [|cl|cl mn mx g|a IHa b IHb|a IHa b IHb|a IHa|n a IHa|n| |];
    intros k idx s c res Hw H; cbn [m min_len well_formed] in *.
  - exists 0%nat, c. rewrite Nat.add_0_r. cbn. repeat split; auto; lia.
  - destruct s as [|u s]; [discriminate|]. destruct (member i cl u); [|discriminate].
    exists 1%nat, c. rewrite Nat.add_1_r. cbn. repeat split; auto; lia.
  - destruct g.
    + destruct (rep_greedy_sound _ _ _ _ _ _ _ Hw H) as (j & Hj & Hl & _ & Hk). eauto.
    + destruct (rep_lazy_sound _ _ _ _ _ _ _ Hw H) as (j & Hj & Hl & _ & Hk). eauto.
  - apply andb_true_iff in Hw as [Ha Hb].
    destruct (IHa _ _ _ _ _ Ha H) as (j & c1 & Hj & Hl & Hk).
    destruct (IHb _ _ _ _ _ Hb Hk) as (j' & c2 & Hj' & Hl' & Hk').
    exists (j + j')%nat, c2. rewrite length_skipn in Hl'.
    rewrite skipn_skipn in Hk'. rewrite Nat.add_assoc.
    replace (j' + j)%nat with (j + j')%nat in Hk' by lia.
    repeat split; auto; lia.
  - apply andb_true_iff in Hw as [Ha Hb].
    destruct (m i a k idx s c) eqn:E.
    + injection H as <-. destruct (IHa _ _ _ _ _ Ha E) as (j & c1 & Hj & Hl & Hk).
      exists j, c1. repeat split; auto; lia.
    + destruct (IHb _ _ _ _ _ Hb H) as (j & c1 & Hj & Hl & Hk).
      exists j, c1. repeat split; auto; lia.
  - destruct (m i a _ idx s c) eqn:E.
    + injection H as <-. destruct (IHa _ _ _ _ _ Hw E) as (j & c1 & _ & Hl & Hk).
      destruct (idx + j =? idx)%nat; [discriminate|]. exists j, c1. repeat split; auto; lia.
    + exists 0%nat, c. rewrite Nat.add_0_r. cbn. repeat split; auto; lia.
  - destruct (IHa _ _ _ _ _ Hw H) as (j & c1 & Hj & Hl & Hk). eauto.
  - destruct (cap_get n c) as [w|].
    + destruct (same i w s) eqn:E; [|discriminate]. apply same_length in E.
      exists (length w), c. repeat split; auto; lia.
    + exists 0%nat, c. rewrite Nat.add_0_r. cbn. repeat split; auto; lia.
  - destruct (idx =? 0)%nat; [|discriminate].
    exists 0%nat, c. rewrite Nat.add_0_r. cbn. repeat split; auto; lia.
  - destruct s; [|discriminate].
    exists 0%nat, c. rewrite Nat.add_0_r. cbn. repeat split; auto; lia.
Qed.

Lemma match_here_spec r idx s mt :
  well_formed r = true ->
  match_here i r idx s = Some mt ->
  index mt = idx
  /\ (min_len r <= length (matched mt))%nat
  /\ (length (matched mt) <= length s)%nat.
Proof.
  intros Hw H. unfold match_here in H.
  destruct (m i r _ idx s []) as [[idx' c]|] eqn:E; [|discriminate].
  injection H as <-. cbn [index matched].
  destruct (m_sound _ _ _ _ _ _ Hw E) as (j & c' & Hj & Hl & Hk).
  injection Hk as <- <-. rewrite length_firstn.
  replace (idx + j - idx)%nat with j by lia. repeat split; lia.
Qed.

Lemma head_rejects_none r : forall k idx u s c,
  head_rejects i r u = true -> m i r k idx (u :: s) c = None.
Proof.
  induction r as [|cl|cl mn mx g|a IHa b IHb|a IHa b IHb|a IHa|n a IHa|n| |];
    intros k idx u s c H; cbn [m head_rejects] in *; try discriminate.
  - apply negb_true_iff in H. now rewrite H.
  - apply andb_true_iff in H as [Hm Hn]. apply negb_true_iff in Hn.
    apply andb_true_iff in Hm as [Hm Hb]. apply Nat.ltb_lt in Hm.
    assert (E : exhausted mx = false).
    { destruct mx as [[|b]|]; auto. cbn in Hb. apply Nat.leb_le in Hb. lia. }
    destruct mn as [|mn]; [lia|].
    destruct g; cbn [rep_greedy rep_lazy]; now rewrite E, Hn.
  - now apply IHa.
  - apply andb_true_iff in H as [Ha Hb]. now rewrite IHa, IHb.
  - now apply IHa.
Qed.
Lemma m_nil r k idx c :
  well_formed r = true -> (0 < min_len r)%nat -> m i r k idx [] c = None.
Proof.
  intros Hw Hm. destruct (m i r k idx [] c) as [res|] eqn:E; [|reflexivity].
  destruct (m_sound _ _ _ _ _ _ Hw E) as (j & c' & Hj & Hl & _). cbn in Hl. lia.
Qed.

Lemma match_here_nil r idx :
  well_formed r = true -> (0 < min_len r)%nat -> match_here i r idx [] = None.
Proof. intros Hw Hm. unfold match_here. now rewrite m_nil. Qed.

Lemma match_here_rejects r idx u s :
  head_rejects i r u = true -> match_here i r idx (u :: s) = None.
Proof. intros H. unfold match_here. now rewrite head_rejects_none. Qed.

Lemma member_refl a : member i (Chr a) a = true.
Proof. cbn. now rewrite N.eqb_refl. Qed.

(** A literal reads itself. *)
Lemma m_chars (w : jsstring) : forall k idx s c,
  m i (seq (map (fun u => One (Chr u)) w)) k idx (w ++ s) c = k (idx + length w)%nat s c.
Proof.
  induction w as [|a w IH]; intros k idx s c.
  - cbn. now rewrite Nat.add_0_r.
  - cbn [map seq fold_right m app]. rewrite member_refl.
    change (fold_right Seq Eps (map (fun u => One (Chr u)) w))
      with (seq (map (fun u => One (Chr u)) w)).
    rewrite IH. cbn [length]. f_equal. lia.
Qed.

Lemma m_lit (w : string) k idx s c :
  m i (lit w) k idx (js w ++ s) c = k (idx + length (js w))%nat s c.
Proof. apply m_chars. Qed.

(** A greedy star stops at once before a character outside its class. *)
Lemma m_star_stop cl k idx u s c :
  member i cl u = false -> m i (star cl) k idx (u :: s) c = k idx (u :: s) c.
Proof. intros H. cbn. now rewrite H. Qed.

(** A lazy star stops where the rest of the pattern matches. *)
Lemma rep_lazy_now cl max K n s res :
  K n s = Some res -> rep_lazy i cl 0 max K n s = Some res.
Proof.
  intros H. destruct s; cbn [rep_lazy]; destruct (exhausted max); auto; now rewrite H.
Qed.

Lemma rep_lazy_any_skip (K : nat -> jsstring -> option result) : forall b n rest,
  (forall n u s, (u =? lt_sign) = false -> K n (u :: s) = None) ->
  no_lt b = true ->
  rep_lazy i Any 0 None K n (b ++ rest) = rep_lazy i Any 0 None K (n + length b)%nat rest.
Proof.
  intros b n rest HK. revert n. induction b as [|u b IH]; intros n Hb.
  - cbn. now rewrite Nat.add_0_r.
  - cbn [no_lt forallb] in Hb. apply andb_true_iff in Hb as [Hu Hb].
    apply negb_true_iff in Hu.
    cbn [app rep_lazy exhausted member]. rewrite (HK n u _ Hu).
    change (rep_lazy i Any (Nat.pred 0) (dec None) K (S n) (b ++ rest))
      with (rep_lazy i Any 0 None K (S n) (b ++ rest)).
    rewrite IH by exact Hb. cbn [length]. f_equal. lia.
Qed.

Lemma rep_lazy_any_none (K : nat -> jsstring -> option result) : forall b n,
  (forall n u s, (u =? lt_sign) = false -> K n (u :: s) = None) ->
  (forall n, K n [] = None) ->
  no_lt b = true ->
  rep_lazy i Any 0 None K n b = None.
Proof.
  intros b n HK Hnil. revert n. induction b as [|u b IH]; intros n Hb.
  - cbn. now rewrite Hnil.
  - cbn [no_lt forallb] in Hb. apply andb_true_iff in Hb as [Hu Hb].
    apply negb_true_iff in Hu.
    cbn [rep_lazy exhausted member]. rewrite (HK n u _ Hu).
    change (rep_lazy i Any (Nat.pred 0) (dec None) K (S n) b)
      with (rep_lazy i Any 0 None K (S n) b).
    now apply IH.
Qed.

Lemma rep_lazy_any_step (K : nat -> jsstring -> option result) n u s :
  K n (u :: s) = None ->
  rep_lazy i Any 0 None K n (u :: s) = rep_lazy i Any 0 None K (S n) s.
Proof. intros H. cbn [rep_lazy exhausted member]. now rewrite H. Qed.

Lemma same_refl w s : same i w (w ++ s) = true.
Proof. induction w as [|a w IH]; [reflexivity|]. cbn. now rewrite N.eqb_refl, IH. Qed.

Section Replace.
Variables (r : rx) (f : Match -> jsstring).
Hypothesis r_wf : well_formed r = true.
Hypothesis r_nonempty : (0 < min_len r)%nat.

Lemma replace_from_nil idx : replace_from i r f 0 idx [] = [].
Proof. cbn. now rewrite match_here_nil. Qed.

Lemma replace_from_skip k : forall idx s,
  replace_from i r f k idx s = replace_from i r f 0 (idx + k) (skipn k s).
Proof.
  induction k as [|k IH]; intros idx s.
  - now rewrite Nat.add_0_r.
  - destruct s as [|u s].
    + cbn [skipn]. rewrite replace_from_nil. reflexivity.
    + cbn [skipn]. change (replace_from i r f (S k) idx (u :: s))
        with (replace_from i r f k (S idx) s). rewrite IH. f_equal. lia.
Qed.

Lemma replace_from_miss idx u s :
  match_here i r idx (u :: s) = None ->
  replace_from i r f 0 idx (u :: s) = u :: replace_from i r f 0 (S idx) s.
Proof. intros H. cbn [replace_from]. now rewrite H. Qed.

Lemma replace_from_hit idx s mt :
  match_here i r idx s = Some mt ->
  replace_from i r f 0 idx s
  = f mt ++ replace_from i r f 0 (idx + length (matched mt))
              (skipn (length (matched mt)) s).
Proof.
  intros H. destruct (match_here_spec _ _ _ _ r_wf H) as (_ & Hmin & Hmax).
  destruct s as [|u s]; [cbn in Hmax; lia|].
  cbn [replace_from]. rewrite H.
  destruct (length (matched mt)) as [|k] eqn:L; [lia|].
  rewrite replace_from_skip. cbn [skipn].
  replace (S idx + k)%nat with (idx + S k)%nat by lia. reflexivity.
Qed.

Lemma replace_from_keep a : forall idx rest,
  forallb (head_rejects i r) a = true ->
  replace_from i r f 0 idx (a ++ rest) = a ++ replace_from i r f 0 (idx + length a) rest.
Proof.
  induction a as [|u a IH]; intros idx rest H.
  - cbn. now rewrite Nat.add_0_r.
  - cbn [forallb] in H. apply andb_true_iff in H as [Hu Ha].
    cbn [app]. rewrite replace_from_miss by now apply match_here_rejects.
    rewrite IH by exact Ha. cbn [length app].
    replace (S idx + length a)%nat with (idx + S (length a))%nat by lia. reflexivity.
Qed.

Lemma replace_from_clean a idx :
  forallb (head_rejects i r) a = true -> replace_from i r f 0 idx a = a.
Proof.
  intros H. rewrite <- (app_nil_r a) at 1. rewrite replace_from_keep by exact H.
  now rewrite replace_from_nil, app_nil_r.
Qed.
End Replace.

Section Exec.
Variable r : rx.
Hypothesis r_wf : well_formed r = true.
Hypothesis r_nonempty : (0 < min_len r)%nat.

(** The loop over [exec] ends, and the matches lie one after the other
    in the input. *)
Lemma exec_from_chain : forall s skip idx,
  (skip <= length s)%nat ->
  exists l, exec_from i r skip idx s = Some l
            /\ chain (idx + skip) l (idx + length s).
Proof.
  induction s as [|u s IH]; intros skip idx Hs.
  - cbn in Hs. assert (skip = 0%nat) by lia. subst skip. cbn [exec_from].
    rewrite match_here_nil by assumption. exists []. cbn. split; [reflexivity | lia].
  - destruct skip as [|k].
    + cbn [exec_from]. destruct (match_here i r idx (u :: s)) as [mt|] eqn:E.
      * destruct (match_here_spec _ _ _ _ r_wf E) as (Hi & Hmin & Hmax).
        destruct (length (matched mt)) as [|k] eqn:L; [lia|].
        cbn [length] in Hmax.
        destruct (IH k (S idx)) as (l & Hl & Hc); [lia|].
        rewrite Hl. exists (mt :: l). split; [reflexivity|].
        cbn [chain]. unfold ends. rewrite Hi, L. cbn [length].
        repeat split; try lia.
        replace (idx + S k)%nat with (S idx + k)%nat by lia.
        replace (idx + S (length s))%nat with (S idx + length s)%nat by lia. exact Hc.
      * destruct (IH 0%nat (S idx)) as (l & Hl & Hc); [lia|].
        exists l. split; [exact Hl|]. cbn [length].
        replace (idx + S (length s))%nat with (S idx + length s)%nat by lia.
        clear -Hc. destruct l as [|mt l]; cbn [chain] in *; [lia|].
        destruct Hc as (H1 & H2 & H3). repeat split; auto; lia.
    + cbn [exec_from]. cbn [length] in Hs.
      destruct (IH k (S idx)) as (l & Hl & Hc); [lia|].
      exists l. split; [exact Hl|]. cbn [length].
      replace (idx + S k)%nat with (S idx + k)%nat by lia.
      replace (idx + S (length s))%nat with (S idx + length s)%nat by lia. exact Hc.
Qed.

(** What holds of every match holds of every match the loop finds. *)
Lemma exec_from_Forall (P : Match -> Prop) :
  (forall idx s mt, match_here i r idx s = Some mt -> P mt) ->
  forall s skip idx l, exec_from i r skip idx s = Some l -> Forall P l.
Proof.
  intros HP. induction s as [|u s IH]; intros skip idx l H.
  - destruct skip; cbn [exec_from] in H.
    + rewrite match_here_nil in H by assumption. injection H as <-. constructor.
    + injection H as <-. constructor.
  - destruct skip as [|k]; cbn [exec_from] in H.
    + destruct (match_here i r idx (u :: s)) as [mt|] eqn:E.
      * destruct (length (matched mt)) as [|k]; [discriminate|].
        destruct (exec_from i r k (S idx) s) as [l'|] eqn:E'; [|discriminate].
        injection H as <-. constructor; [now apply (HP _ _ _ E) | now apply (IH _ _ _ E')].
      * now apply (IH _ _ _ H).
    + now apply (IH _ _ _ H).
Qed.
End Exec.

End Match.

Lemma swapcase_lt u : (swapcase u =? lt_sign) = (u =? lt_sign).
Proof.
  unfold swapcase, lt_sign.
  destruct ((65 <=? u) && (u <=? 90)) eqn:A.
  - apply andb_true_iff in A as [A1 A2]. apply N.leb_le in A1, A2.
    transitivity false; [apply N.eqb_neq | symmetry; apply N.eqb_neq]; lia.
  - destruct ((97 <=? u) && (u <=? 122)) eqn:B; [|reflexivity].
    apply andb_true_iff in B as [B1 B2]. apply N.leb_le in B1, B2.
    transitivity false; [apply N.eqb_neq | symmetry; apply N.eqb_neq]; lia.
Qed.

Lemma member_lt i u : member i (Chr lt_sign) u = (u =? lt_sign).
Proof.
  cbn [member]. rewrite (N.eqb_sym lt_sign (swapcase u)), swapcase_lt, (N.eqb_sym lt_sign u).
  destruct (u =? lt_sign), i; reflexivity.
Qed.

(** A pattern that starts with [<] finds nothing in a text without it. *)
Lemma no_lt_rejects i r a :
  (forall u, head_rejects i r u = negb (u =? lt_sign)) ->
  no_lt a = true -> forallb (head_rejects i r) a = true.
Proof.
  intros Hr. unfold no_lt. induction a as [|u a IH]; [reflexivity|].
  cbn [forallb]. rewrite Hr. intros H. apply andb_true_iff in H as [-> H]. now apply IH.
Qed.

Lemma forallb_rev {A} (p : A -> bool) (s : list A) : forallb p (rev s) = forallb p s.
Proof.
  induction s as [|u s IH]; [reflexivity|].
  cbn. rewrite forallb_app, IH. cbn. rewrite andb_true_r. apply andb_comm.
Qed.

Lemma forallb_trimStart (p : code_unit -> bool) s :
  forallb p s = true -> forallb p (trimStart s) = true.
Proof.
  induction s as [|u s IH]; [auto|]. cbn [trimStart].
  destruct (isWhiteSpace u); [|auto]. cbn. intros H. apply andb_true_iff in H as [_ H]. auto.
Qed.

Lemma forallb_trim (p : code_unit -> bool) s :
  forallb p s = true -> forallb p (trim s) = true.
Proof.
  intros H. unfold trim, trimEnd. rewrite forallb_rev. apply forallb_trimStart.
  rewrite forallb_rev. now apply forallb_trimStart.
Qed.

Lemma no_lt_app a b : no_lt (a ++ b) = no_lt a && no_lt b.
Proof. apply forallb_app. Qed.

End RxFacts.

Module CaptureFacts.
Import JS Rx RxSpec RxFacts.
Local Open Scope nat_scope.

Section Inv.
Variable i : bool.

Lemma split_at {A} (j : nat) (s : list A) :
  j <= length s -> s = firstn j s ++ skipn j s /\ length (firstn j s) = j.
Proof. intros H. split; [symmetry; apply firstn_skipn | apply firstn_length_le; exact H]. Qed.

Lemma rep_inv cl mn mx g k idx s c res :
  bounded mn mx = true ->
  m i (Rep cl mn mx g) k idx s c = Some res ->
  exists p rest, s = p ++ rest /\ mn <= length p /\ forallb (member i cl) p = true
                 /\ k (idx + length p) rest c = Some res.
Proof.
  intros Hb H. cbn [m] in H.
  assert (Hj : exists j, mn <= j /\ j <= length s
                         /\ forallb (member i cl) (firstn j s) = true
                         /\ k (idx + j) (skipn j s) c = Some res).
  { destruct g.
    - destruct (rep_greedy_sound _ _ _ _ _ _ _ _ Hb H) as (j & Hj & Hl & Hc & Hk). eauto.
    - destruct (rep_lazy_sound _ _ _ _ _ _ _ _ Hb H) as (j & Hj & Hl & Hc & Hk). eauto. }
  destruct Hj as (j & Hj & Hl & Hc & Hk). destruct (split_at j s Hl) as (Hs & Hn).
  exists (firstn j s), (skipn j s). rewrite Hn. auto.
Qed.

Lemma group_rep_inv n cl mn mx g k idx s c res :
  bounded mn mx = true ->
  m i (Group n (Rep cl mn mx g)) k idx s c = Some res ->
  exists p rest, s = p ++ rest /\ mn <= length p /\ forallb (member i cl) p = true
                 /\ k (idx + length p) rest (cap_set n p c) = Some res.
Proof.
  intros Hb H. cbn [m] in H.
  assert (Hj : exists j, mn <= j /\ j <= length s
                         /\ forallb (member i cl) (firstn j s) = true
                         /\ k (idx + j) (skipn j s) (cap_set n (firstn (idx + j - idx) s) c)
                            = Some res).
  { destruct g.
    - destruct (rep_greedy_sound _ _ _ _ _ _ _ _ Hb H) as (j & Hj & Hl & Hc & Hk). eauto 6.
    - destruct (rep_lazy_sound _ _ _ _ _ _ _ _ Hb H) as (j & Hj & Hl & Hc & Hk). eauto 6. }
  destruct Hj as (j & Hj & Hl & Hc & Hk). destruct (split_at j s Hl) as (Hs & Hn).
  replace (idx + j - idx) with j in Hk by lia.
  exists (firstn j s), (skipn j s). rewrite Hn. auto.
Qed.

Lemma chars_inv (w : jsstring) : forall k idx s c res,
  m i (seq (map (fun u => One (Chr u)) w)) k idx s c = Some res ->
  k (idx + length w) (skipn (length w) s) c = Some res.
Proof.
  induction w as [|a w IH]; intros k idx s c res H.
  - cbn in *. now rewrite Nat.add_0_r.
  - cbn [map seq fold_right m] in H. destruct s as [|u s]; [discriminate|].
    destruct (member i (Chr a) u); [|discriminate].
    apply IH in H. cbn [length skipn].
    replace (idx + S (length w)) with (S idx + length w) by lia. exact H.
Qed.

Lemma lit_inv (w : string) k idx s c res :
  m i (lit w) k idx s c = Some res ->
  k (idx + length (js w)) (skipn (length (js w)) s) c = Some res.
Proof. apply chars_inv. Qed.

Lemma seq_lit_inv (w : string) b k idx s c res :
  m i (Seq (lit w) b) k idx s c = Some res ->
  m i b k (idx + length (js w)) (skipn (length (js w)) s) c = Some res.
Proof. apply (lit_inv w (m i b k)). Qed.

Lemma seq_rep_inv cl mn mx g b k idx s c res :
  bounded mn mx = true ->
  m i (Seq (Rep cl mn mx g) b) k idx s c = Some res ->
  exists p rest, s = p ++ rest /\ mn <= length p /\ forallb (member i cl) p = true
                 /\ m i b k (idx + length p) rest c = Some res.
Proof. apply (rep_inv cl mn mx g (m i b k)). Qed.

Lemma seq_group_inv n cl mn mx g b k idx s c res :
  bounded mn mx = true ->
  m i (Seq (Group n (Rep cl mn mx g)) b) k idx s c = Some res ->
  exists p rest, s = p ++ rest /\ mn <= length p /\ forallb (member i cl) p = true
                 /\ m i b k (idx + length p) rest (cap_set n p c) = Some res.
Proof. apply (group_rep_inv n cl mn mx g (m i b k)). Qed.

Lemma seq_group_unfold n a b k idx s c :
  m i (Seq (Group n a) b) k idx s c
  = m i a (fun idx' s' c' => m i b k idx' s' (cap_set n (firstn (idx' - idx) s) c')) idx s c.
Proof. reflexivity. Qed.

End Inv.
End CaptureFacts.

(** ** The markup of the export *)
Module ExportFacts.
Import JS Rx RxSpec RxFacts ExportMarkup.
Local Open Scope N_scope.

Lemma firstn_exact {A} (a b : list A) : firstn (length a) (a ++ b) = a.
Proof. rewrite firstn_app, Nat.sub_diag, firstn_all. cbn. apply app_nil_r. Qed.

Lemma skipn_exact {A} (a b : list A) : skipn (length a) (a ++ b) = b.
Proof. rewrite skipn_app, Nat.sub_diag, skipn_all. reflexivity. Qed.

Lemma firstn_mid (p b c t : jsstring) n :
  n = (length p + length b + length c)%nat -> firstn n (p ++ b ++ c ++ t) = p ++ b ++ c.
Proof.
  intros ->. rewrite !app_assoc. rewrite <- !length_app, <- app_assoc. apply firstn_exact.
Qed.

Lemma closing_rejects i (w : string) k n u s c :
  (exists w', js w = lt_sign :: w') ->
  (u =? lt_sign) = false ->
  m i (lit w) k n (u :: s) c = None.
Proof.
  intros [w' Hw] Hu. apply head_rejects_none. unfold lit. rewrite Hw.
  cbn [map seq fold_right head_rejects]. now rewrite member_lt, Hu.
Qed.

Lemma script_here idx b t :
  no_lt b = true ->
  match_here true re_script idx (js "<script>" ++ b ++ js "</script>" ++ t)
  = Some {| index := idx;
            matched := js "<script>" ++ b ++ js "</script>";
            groups := [(1%nat, b)] |}.
Proof.
  intros Hb. unfold match_here, re_script, seq. cbn [fold_right m].
  change (js "<script>") with (js "<script" ++ [62]). rewrite <- app_assoc.
  rewrite m_lit. cbn [app]. rewrite m_star_stop by reflexivity.
  cbn [m]. change (member true gt 62) with true. cbv iota.
  unfold star_lazy. cbn [m].
  rewrite rep_lazy_any_skip; [| |exact Hb].
  2:{ intros n u s Hu. now apply closing_rejects; [eexists; reflexivity|]. }
  erewrite rep_lazy_now.
  2:{ cbn [m]. rewrite m_lit. cbn [m]. reflexivity. }
  cbv beta iota. f_equal. f_equal.
  - apply (firstn_mid (js "<script" ++ [62]) b (js "</script>") t).
    rewrite length_app. cbn [length]. lia.
  - unfold cap_set. do 2 f_equal.
    replace (S (idx + length (js "<script")) + length b - S (idx + length (js "<script")))%nat
      with (length b) by lia.
    apply firstn_exact.
Qed.
Lemma skipn_mid (p b c t : jsstring) n :
  n = (length p + length b + length c)%nat -> skipn n (p ++ b ++ c ++ t) = t.
Proof.
  intros ->. rewrite !app_assoc. rewrite <- !length_app. apply skipn_exact.
Qed.

Lemma starts_lt_rejects (r : rx) u :
  (forall v, head_rejects true r v = negb (member true (Chr lt_sign) v)) ->
  head_rejects true r u = negb (u =? lt_sign).
Proof. intros H. now rewrite H, member_lt. Qed.

(** A pattern that starts with [<] and does not go on with [!] leaves a
    text alone in which [<] occurs only at the start of a comment. *)
Lemma comment_untouched (r : rx) (f : Match -> jsstring) rest :
  well_formed r = true -> (0 < min_len r)%nat ->
  (forall v, head_rejects true r v = negb (member true (Chr lt_sign) v)) ->
  (forall k idx s c, m true r k idx (lt_sign :: 33 :: s) c = None) ->
  no_lt rest = true ->
  replace_fn true r f (lt_sign :: 33 :: rest) = lt_sign :: 33 :: rest.
Proof.
  intros Hw Hn Hh Hm Hr. unfold replace_fn.
  rewrite replace_from_miss by (unfold match_here; now rewrite Hm).
  f_equal. apply (replace_from_clean true r f Hw Hn).
  apply (no_lt_rejects true r (33 :: rest)).
  - intros u. now apply starts_lt_rejects.
  - exact Hr.
Qed.

(** X16.  The export keeps the text of a script: a block
    [<script>b</script>] in which [b] holds no [<] is replaced by a comment
    that holds [b] without the white space around it, and the text after
    the block, when it holds no [<] either, stays as it is. *)
Theorem export_keeps_script_text b t :
  no_lt b = true -> no_lt t = true ->
  sanitizeHTML (js "<script>" ++ b ++ js "</script>" ++ t)
  = js "<!-- Script removed for security: " ++ trim b ++ js " -->" ++ t.
Proof.
  intros Hb Ht. unfold sanitizeHTML.
  assert (Hs : negb (truthy (js "<script>" ++ b ++ js "</script>" ++ t))
               || negb (truthy (trim (js "<script>" ++ b ++ js "</script>" ++ t))) = false).
  { rewrite MarkupFacts.blank_forallb. reflexivity. }
  rewrite Hs. cbv zeta.
  assert (H1 : replace_fn true re_script script_comment
                 (js "<script>" ++ b ++ js "</script>" ++ t)
               = js "<!-- Script removed for security: " ++ trim b ++ js " -->" ++ t).
  { assert (Hne : (0 < min_len re_script)%nat) by (apply Nat.ltb_lt; reflexivity).
    unfold replace_fn.
    rewrite (replace_from_hit true re_script script_comment eq_refl Hne 0%nat _ _
               (script_here 0%nat b t Hb)).
    cbn [matched]. rewrite skipn_mid by (rewrite !length_app; lia).
    rewrite (replace_from_clean true re_script script_comment eq_refl Hne).
    - unfold script_comment, group. cbn [groups cap_get Nat.eqb].
      now rewrite <- !app_assoc.
    - apply (no_lt_rejects true re_script t); [|exact Ht].
      intros u. apply starts_lt_rejects. intros v. reflexivity. }
  rewrite H1.
  assert (Hrest : no_lt (js "-- Script removed for security: " ++ trim b ++ js " -->" ++ t)
                  = true).
  { rewrite !no_lt_app, Ht. unfold no_lt at 2. rewrite forallb_trim by exact Hb. reflexivity. }
  change (js "<!-- Script removed for security: " ++ trim b ++ js " -->" ++ t)
    with (lt_sign :: 33 :: js "-- Script removed for security: " ++ trim b ++ js " -->" ++ t).
  unfold replace_str.
  rewrite (comment_untouched re_iframe); auto; try reflexivity.
  2:{ apply Nat.ltb_lt. reflexivity. }
  rewrite (comment_untouched re_object_embed); auto; try reflexivity.
  2:{ apply Nat.ltb_lt. reflexivity. }
  rewrite (comment_untouched re_embed); auto; try reflexivity.
  apply Nat.ltb_lt. reflexivity.
Qed.

Lemma export_keeps_script_text_witness :
  sanitizeHTML (js "<script> alert(1) </script> done")
  = js "<!-- Script removed for security: alert(1) --> done".
Proof.
  exact (export_keeps_script_text (js " alert(1) ") (js " done") eq_refl eq_refl).
Defined.

(** The rest of an [<object>] or [<embed>] block, when the closing tag
    repeats the opening one. *)
Lemma after_tag_here (w : jsstring) k idx b t c res :
  no_lt b = true -> cap_get 1 c = Some w ->
  k (idx + 1 + length b + 2 + length w + 1)%nat t c = Some res ->
  m true after_tag k idx (62 :: b ++ js "</" ++ w ++ js ">" ++ t) c = Some res.
Proof.
  intros Hb Hc Hk. unfold after_tag, seq. cbn [fold_right m].
  rewrite m_star_stop by reflexivity. cbn [m].
  change (member true (Chr 62) 62) with true. cbv iota.
  unfold star_lazy. cbn [m].
  rewrite rep_lazy_any_skip; [| |exact Hb].
  2:{ intros n u s Hu. now apply closing_rejects; [eexists; reflexivity|]. }
  apply rep_lazy_now.
  rewrite m_lit. cbn [m]. rewrite Hc, same_refl, skipn_exact.
  rewrite m_lit. cbn [m]. rewrite <- Hk. f_equal.
  change (length (js "</")) with 2%nat. change (length (js ">")) with 1%nat. lia.
Qed.

(** The same, when the closing tag is another one. *)
Lemma after_tag_fails (w w' : jsstring) k idx b t c :
  no_lt b = true -> no_lt (w' ++ t) = true -> cap_get 1 c = Some w ->
  same true w (w' ++ js ">" ++ t) = false ->
  m true after_tag k idx (62 :: b ++ js "</" ++ w' ++ js ">" ++ t) c = None.
Proof.
  intros Hb Ht Hc Hs. unfold after_tag, seq. cbn [fold_right m].
  rewrite m_star_stop by reflexivity. cbn [m].
  change (member true (Chr 62) 62) with true. cbv iota.
  unfold star_lazy. cbn [m].
  assert (HK : forall n u s, (u =? lt_sign) = false ->
                 m true (lit "</") (m true (Ref 1) (m true (lit ">") (m true Eps
                   (fun n0 s' c0 => k n0 s' c0)))) n (u :: s) c = None).
  { intros n u s Hu. now apply closing_rejects; [eexists; reflexivity|]. }
  rewrite rep_lazy_any_skip; [|exact HK|exact Hb].
  change (js "</" ++ w' ++ js ">" ++ t) with (lt_sign :: 47 :: w' ++ js ">" ++ t).
  rewrite rep_lazy_any_step.
  2:{ change (lt_sign :: 47 :: w' ++ js ">" ++ t) with (js "</" ++ w' ++ js ">" ++ t).
      rewrite m_lit. cbn [m]. now rewrite Hc, Hs. }
  apply rep_lazy_any_none.
  - exact HK.
  - intros n. reflexivity.
  - rewrite no_lt_app in Ht. apply andb_true_iff in Ht as [Hw Ht].
    change (no_lt (47 :: w' ++ 62 :: t) = true). cbn [no_lt forallb].
    change (forallb (fun u => negb (u =? lt_sign)) (w' ++ 62 :: t))
      with (no_lt (w' ++ 62 :: t)).
    rewrite no_lt_app, Hw. cbn [no_lt forallb]. exact Ht.
Qed.

Section Blocks.
Variables (r : rx) (f : Match -> jsstring).
Hypothesis r_wf : well_formed r = true.
Hypothesis r_nonempty : (0 < min_len r)%nat.
Hypothesis r_head : forall v, head_rejects true r v = negb (member true (Chr lt_sign) v).

(** The scanner passes a [<] that the pattern cannot go on from, and the
    text up to the next [<]. *)
Lemma lt_block c a rest idx :
  (forall k idx s cp, m true r k idx (lt_sign :: c :: s) cp = None) ->
  no_lt (c :: a) = true ->
  replace_from true r f 0 idx (lt_sign :: c :: a ++ rest)
  = lt_sign :: c :: a ++ replace_from true r f 0 (idx + 2 + length a) rest.
Proof.
  intros Hm Ha.
  rewrite replace_from_miss by (unfold match_here; now rewrite Hm).
  change (c :: a ++ rest) with ((c :: a) ++ rest).
  assert (Hk : forallb (head_rejects true r) (c :: a) = true).
  { apply no_lt_rejects; [|exact Ha]. intros u. now apply starts_lt_rejects. }
  rewrite replace_from_keep by (exact Hk || assumption).
  cbn [app length]. do 3 f_equal.
  replace (S idx + S (length a))%nat with (idx + 2 + length a)%nat by lia. reflexivity.
Qed.

Lemma two_blocks c1 a c2 rest :
  (forall k idx s cp, m true r k idx (lt_sign :: c1 :: s) cp = None) ->
  (forall k idx s cp, m true r k idx (lt_sign :: c2 :: s) cp = None) ->
  no_lt (c1 :: a) = true -> no_lt (c2 :: rest) = true ->
  replace_fn true r f (lt_sign :: c1 :: a ++ lt_sign :: c2 :: rest)
  = lt_sign :: c1 :: a ++ lt_sign :: c2 :: rest.
Proof.
  intros H1 H2 Ha Hr. unfold replace_fn. rewrite lt_block by assumption.
  rewrite <- (app_nil_r rest) at 1. rewrite lt_block by assumption.
  now rewrite replace_from_nil, app_nil_r.
Qed.
End Blocks.

Lemma tag_here (w : jsstring) idx b t :
  w = js "object" \/ w = js "embed" ->
  no_lt b = true ->
  match_here true re_object_embed idx (js "<" ++ w ++ js ">" ++ b ++ js "</" ++ w ++ js ">" ++ t)
  = Some {| index := idx;
            matched := js "<" ++ w ++ js ">" ++ b ++ js "</" ++ w ++ js ">";
            groups := [(1%nat, w)] |}.
Proof.
  intros Hw Hb.
  change re_object_embed
    with (Seq (lit "<") (Seq (Group 1 (Alt (lit "object") (lit "embed"))) after_tag)).
  unfold match_here. cbn [m]. rewrite m_lit. cbn [m].
  set (k0 := fun (idx' : nat) (_ : jsstring) (c : caps) => Some (idx', c)).
  set (n1 := (idx + length (js "<"))%nat).
  assert (Hend : forall c,
            m true after_tag k0 (n1 + length w) (js ">" ++ b ++ js "</" ++ w ++ js ">" ++ t)
              (cap_set 1 (firstn (n1 + length w - n1)
                            (w ++ js ">" ++ b ++ js "</" ++ w ++ js ">" ++ t)) c)
            = Some ((n1 + length w + 1 + length b + 2 + length w + 1)%nat,
                    cap_set 1 w c)).
  { intros c. replace (n1 + length w - n1)%nat with (length w) by lia.
    rewrite firstn_exact.
    apply (after_tag_here w k0 (n1 + length w) b t (cap_set 1 w c)); [exact Hb| |reflexivity].
    cbn. reflexivity. }
  assert (Hres : match m true (lit "object")
                         (fun idx' s' c' =>
                            m true after_tag k0 idx' s'
                              (cap_set 1 (firstn (idx' - n1)
                                 (w ++ js ">" ++ b ++ js "</" ++ w ++ js ">" ++ t)) c'))
                         n1 (w ++ js ">" ++ b ++ js "</" ++ w ++ js ">" ++ t) [] with
                 | Some r => Some r
                 | None => m true (lit "embed")
                             (fun idx' s' c' =>
                                m true after_tag k0 idx' s'
                                  (cap_set 1 (firstn (idx' - n1)
                                     (w ++ js ">" ++ b ++ js "</" ++ w ++ js ">" ++ t)) c'))
                             n1 (w ++ js ">" ++ b ++ js "</" ++ w ++ js ">" ++ t) []
                 end
                 = Some ((n1 + length w + 1 + length b + 2 + length w + 1)%nat, [(1%nat, w)])).
  { destruct Hw as [-> | ->].
    - rewrite m_lit. now rewrite Hend.
    - change (m true (lit "object") ?K n1 (js "embed" ++ ?s) []) with (@None result).
      rewrite m_lit. now rewrite Hend. }
  rewrite Hres. f_equal. f_equal.
  rewrite !app_assoc. rewrite <- !app_assoc.
  replace (n1 + length w + 1 + length b + 2 + length w + 1 - idx)%nat
    with (length (js "<" ++ w ++ js ">" ++ b ++ js "</" ++ w ++ js ">")).
  - rewrite (app_assoc (js "<")), !app_assoc. rewrite <- !app_assoc.
    replace (js "<" ++ w ++ js ">" ++ b ++ js "</" ++ w ++ js ">" ++ t)
      with ((js "<" ++ w ++ js ">" ++ b ++ js "</" ++ w ++ js ">") ++ t)
      by (now rewrite <- !app_assoc).
    apply firstn_exact.
  - unfold n1. rewrite !length_app. cbn [length].
    change (length (js "<")) with 1%nat. change (length (js ">")) with 1%nat.
    change (length (js "</")) with 2%nat. lia.
Qed.

Ltac side :=
  first [ assumption | reflexivity | apply Nat.ltb_lt; reflexivity | intros; reflexivity ].

Lemma nonblank_tag (w rest : jsstring) :
  negb (truthy (lt_sign :: w ++ rest)) || negb (truthy (trim (lt_sign :: w ++ rest))) = false.
Proof. rewrite MarkupFacts.blank_forallb. reflexivity. Qed.

Lemma closed_block_replaced (w : jsstring) c a b t :
  w = js "object" \/ w = js "embed" ->
  w = c :: a ->
  (forall k idx s cp, m true re_script k idx (lt_sign :: c :: s) cp = None) ->
  (forall k idx s cp, m true re_iframe k idx (lt_sign :: c :: s) cp = None) ->
  no_lt w = true -> no_lt b = true -> no_lt t = true ->
  sanitizeHTML (js "<" ++ w ++ js ">" ++ b ++ js "</" ++ w ++ js ">" ++ t)
  = js "<!-- " ++ w ++ js " removed for security -->" ++ t.
Proof.
  intros Hw Hc Hs Hi Hnw Hb Ht. unfold sanitizeHTML.
  change (js "<" ++ w ++ js ">" ++ b ++ js "</" ++ w ++ js ">" ++ t)
    with (lt_sign :: w ++ js ">" ++ b ++ js "</" ++ w ++ js ">" ++ t).
  rewrite nonblank_tag. cbv zeta. unfold replace_str.
  assert (Hshape : lt_sign :: w ++ js ">" ++ b ++ js "</" ++ w ++ js ">" ++ t
                   = lt_sign :: c :: (a ++ js ">" ++ b) ++ lt_sign :: 47 :: w ++ js ">" ++ t).
  { rewrite Hc. cbn [app]. now rewrite <- app_assoc. }
  assert (Ha : no_lt (c :: a ++ js ">" ++ b) = true).
  { change (c :: a ++ js ">" ++ b) with ((c :: a) ++ js ">" ++ b). rewrite <- Hc.
    now rewrite !no_lt_app, Hnw, Hb. }
  assert (Hr : no_lt (47 :: w ++ js ">" ++ t) = true).
  { change (47 :: w ++ js ">" ++ t) with (js "/" ++ w ++ js ">" ++ t).
    now rewrite !no_lt_app, Hnw, Ht. }
  assert (Hpass : forall r f,
            well_formed r = true -> (0 < min_len r)%nat ->
            (forall v, head_rejects true r v = negb (member true (Chr lt_sign) v)) ->
            (forall k idx s cp, m true r k idx (lt_sign :: c :: s) cp = None) ->
            (forall k idx s cp, m true r k idx (lt_sign :: 47 :: s) cp = None) ->
            replace_fn true r f (lt_sign :: w ++ js ">" ++ b ++ js "</" ++ w ++ js ">" ++ t)
            = lt_sign :: w ++ js ">" ++ b ++ js "</" ++ w ++ js ">" ++ t).
  { intros r f H1 H2 H3 H4 H5. rewrite Hshape. now apply two_blocks. }
  rewrite (Hpass re_script script_comment) by side.
  rewrite (Hpass re_iframe) by side.
  assert (Hne : (0 < min_len re_object_embed)%nat) by (apply Nat.ltb_lt; reflexivity).
  pose proof (tag_here w 0%nat b t Hw Hb) as Hm.
  change (js "<" ++ w ++ js ">" ++ b ++ js "</" ++ w ++ js ">" ++ t)
    with (lt_sign :: w ++ js ">" ++ b ++ js "</" ++ w ++ js ">" ++ t) in Hm.
  unfold replace_fn at 2.
  rewrite (replace_from_hit true re_object_embed _ eq_refl Hne 0%nat _ _ Hm).
  cbn [matched].
  replace (skipn _ _) with t.
  2:{ symmetry.
      replace (lt_sign :: w ++ js ">" ++ b ++ js "</" ++ w ++ js ">" ++ t)
        with ((js "<" ++ w ++ js ">" ++ b ++ js "</" ++ w ++ js ">") ++ t)
        by (now rewrite <- !app_assoc).
      apply skipn_exact. }
  rewrite (replace_from_clean true re_object_embed _ eq_refl Hne).
  2:{ apply (no_lt_rejects true re_object_embed t); [|exact Ht].
      intros u. apply starts_lt_rejects. intros v. reflexivity. }
  match goal with
  | |- context [substitute ?n ?tpl ?mt] =>
      change (substitute n tpl mt) with (js "<!-- " ++ w ++ js " removed for security -->")
  end.
  rewrite <- !app_assoc.
  change (js "<!-- " ++ w ++ js " removed for security -->" ++ t)
    with (lt_sign :: 33 :: js "-- " ++ w ++ js " removed for security -->" ++ t).
  apply comment_untouched; try side.
  now rewrite !no_lt_app, Hnw, Ht.
Qed.

Lemma object_not_closed idx b t :
  no_lt b = true -> no_lt t = true ->
  match_here true re_object_embed idx
    (js "<" ++ js "object" ++ js ">" ++ b ++ js "</" ++ js "embed" ++ js ">" ++ t) = None.
Proof.
  intros Hb Ht.
  change re_object_embed
    with (Seq (lit "<") (Seq (Group 1 (Alt (lit "object") (lit "embed"))) after_tag)).
  unfold match_here. cbn [m]. rewrite m_lit. cbn [m].
  rewrite m_lit.
  replace (idx + length (js "<") + length (js "object") - (idx + length (js "<")))%nat
    with (length (js "object")) by lia.
  rewrite firstn_exact.
  change (js ">" ++ b ++ js "</" ++ js "embed" ++ js ">" ++ t)
    with (62 :: b ++ js "</" ++ js "embed" ++ js ">" ++ t).
  rewrite (after_tag_fails (js "object") (js "embed")); [reflexivity|exact Hb| | |].
  - now rewrite no_lt_app, Ht.
  - reflexivity.
  - reflexivity.
Qed.

Lemma open_block_kept b t :
  no_lt b = true -> no_lt t = true ->
  sanitizeHTML (js "<object>" ++ b ++ js "</embed>" ++ t)
  = js "<object>" ++ b ++ js "</embed>" ++ t.
Proof.
  intros Hb Ht. unfold sanitizeHTML.
  change (js "<object>" ++ b ++ js "</embed>" ++ t)
    with (lt_sign :: js "object>" ++ b ++ js "</embed>" ++ t).
  rewrite nonblank_tag. cbv zeta. unfold replace_str.
  assert (Hshape : lt_sign :: js "object>" ++ b ++ js "</embed>" ++ t
                   = lt_sign :: 111 :: (js "bject>" ++ b) ++ lt_sign :: 47 :: js "embed>" ++ t).
  { cbn [app]. now rewrite <- app_assoc. }
  assert (Ha : no_lt (111 :: js "bject>" ++ b) = true).
  { change (111 :: js "bject>" ++ b) with (js "object>" ++ b). now rewrite no_lt_app, Hb. }
  assert (Hr : no_lt (47 :: js "embed>" ++ t) = true).
  { change (47 :: js "embed>" ++ t) with (js "/embed>" ++ t). now rewrite no_lt_app, Ht. }
  assert (Hpass : forall r f,
            well_formed r = true -> (0 < min_len r)%nat ->
            (forall v, head_rejects true r v = negb (member true (Chr lt_sign) v)) ->
            (forall k idx s cp, m true r k idx (lt_sign :: 111 :: s) cp = None) ->
            (forall k idx s cp, m true r k idx (lt_sign :: 47 :: s) cp = None) ->
            replace_fn true r f (lt_sign :: js "object>" ++ b ++ js "</embed>" ++ t)
            = lt_sign :: js "object>" ++ b ++ js "</embed>" ++ t).
  { intros r f H1 H2 H3 H4 H5. rewrite Hshape. now apply two_blocks. }
  rewrite (Hpass re_script script_comment) by side.
  rewrite (Hpass re_iframe) by side.
  assert (Hne : (0 < min_len re_object_embed)%nat) by (apply Nat.ltb_lt; reflexivity).
  assert (H3 : forall f, replace_fn true re_object_embed f
                 (lt_sign :: js "object>" ++ b ++ js "</embed>" ++ t)
               = lt_sign :: js "object>" ++ b ++ js "</embed>" ++ t).
  { intros f. unfold replace_fn.
    rewrite replace_from_miss by exact (object_not_closed 0%nat b t Hb Ht).
    f_equal.
    rewrite (replace_from_keep true re_object_embed f Hne (js "object>")) by reflexivity.
    f_equal.
    replace (js "</embed>" ++ t) with (lt_sign :: 47 :: (js "embed>" ++ t) ++ [])
      by (now rewrite app_nil_r).
    assert (Hkb : forallb (head_rejects true re_object_embed) b = true).
    { apply no_lt_rejects; [|exact Hb].
      intros u. apply starts_lt_rejects. intros v. reflexivity. }
    rewrite replace_from_keep by (exact Hkb || side).
    f_equal.
    rewrite lt_block by side.
    now rewrite replace_from_nil by side. }
  rewrite H3.
  now rewrite (Hpass re_embed) by side.
Qed.

(** X17.  In the export an [<object>] or [<embed>] block is replaced by a
    comment that names the tag when its closing tag repeats the opening
    one; an [<object>] block closed by [</embed>] is left in the export as
    it is.  (The body [b] and the text [t] after the block hold no [<].) *)
Theorem export_object_needs_same_closing_tag b t :
  no_lt b = true -> no_lt t = true ->
  sanitizeHTML (js "<object>" ++ b ++ js "</object>" ++ t)
  = js "<!-- object removed for security -->" ++ t
  /\ sanitizeHTML (js "<embed>" ++ b ++ js "</embed>" ++ t)
     = js "<!-- embed removed for security -->" ++ t
  /\ sanitizeHTML (js "<object>" ++ b ++ js "</embed>" ++ t)
     = js "<object>" ++ b ++ js "</embed>" ++ t.
Proof.
  intros Hb Ht. split; [|split].
  - apply (closed_block_replaced (js "object") 111 (js "bject") b t); try side. now left.
  - apply (closed_block_replaced (js "embed") 101 (js "mbed") b t); try side. now right.
  - now apply open_block_kept.
Qed.

Lemma export_object_needs_same_closing_tag_witness :
  sanitizeHTML (js "<object>x</object>y") = js "<!-- object removed for security -->y"
  /\ sanitizeHTML (js "<embed>x</embed>y") = js "<!-- embed removed for security -->y"
  /\ sanitizeHTML (js "<object>x</embed>y") = js "<object>x</embed>y".
Proof.
  exact (export_object_needs_same_closing_tag (js "x") (js "y") eq_refl eq_refl).
Defined.

End ExportFacts.

Module FilenameFacts.
Import JS Rx RxSpec RxFacts ExportMarkup FilenameSpec.
Local Open Scope N_scope.

Lemma replace_forbidden (f : Match -> jsstring) :
  (forall mt, f mt = [45]) ->
  forall s idx, replace_from false (One forbidden) f 0 idx s = map dash s.
Proof.
  intros Hf. induction s as [|u s IH]; intros idx; [reflexivity|].
  cbn [replace_from map]. unfold match_here. cbn [m]. unfold dash at 1.
  destruct (member false forbidden u).
  - replace (S idx - idx)%nat with 1%nat by lia. cbn [firstn matched length].
    rewrite Hf. cbn [app]. f_equal. apply IH.
  - f_equal. apply IH.
Qed.

Lemma forbidden_spec u :
  member false forbidden u = true ->
  u = 60 \/ u = 62 \/ u = 58 \/ u = 34 \/ u = 47 \/ u = 92 \/ u = 124 \/ u = 63 \/ u = 42.
Proof.
  unfold forbidden. cbn [member]. rewrite !andb_false_l, !orb_false_r.
  rewrite !orb_true_iff, !N.eqb_eq. intuition auto.
Qed.

Lemma dash_allowed u : member false forbidden (dash u) = false.
Proof.
  unfold dash. destruct (member false forbidden u) eqn:E; [reflexivity | exact E].
Qed.

Lemma dash_keeps u c :
  In c (js ".html") -> lower u = c -> lower (dash u) = c.
Proof.
  intros Hc Hu. unfold dash. destruct (member false forbidden u) eqn:E; [|exact Hu].
  exfalso. apply forbidden_spec in E.
  assert (lower u = u).
  { unfold lower. destruct ((65 <=? u) && (u <=? 90)) eqn:R; [|reflexivity].
    apply andb_true_iff in R as [R1 R2]. apply N.leb_le in R1, R2. lia. }
  rewrite H in Hu. subst c. cbn in Hc. lia.
Qed.

Lemma lower_dash_suffix : forall t w,
  incl w (js ".html") -> map lower t = w -> map lower (map dash t) = w.
Proof.
  induction t as [|u t IH]; intros w Hw H; [exact H|].
  destruct w as [|c w]; [discriminate|]. cbn [map] in *. injection H as Hu Ht.
  f_equal.
  - apply dash_keeps; [apply Hw; now left | exact Hu].
  - apply IH; [|exact Ht]. intros x Hx. apply Hw. now right.
Qed.

Lemma endsWith_dash s :
  endsWith_lower s (js ".html") = true -> endsWith_lower (map dash s) (js ".html") = true.
Proof.
  unfold endsWith_lower. rewrite length_map. intros H.
  apply andb_true_iff in H as [Hl He]. rewrite Hl. cbn [andb].
  apply SassFacts.eqb_str_eq in He. apply SassFacts.eqb_str_eq.
  rewrite !skipn_map. apply lower_dash_suffix; [apply incl_refl | exact He].
Qed.

Lemma endsWith_appended s : endsWith_lower (s ++ js ".html") (js ".html") = true.
Proof.
  unfold endsWith_lower. rewrite length_app.
  replace (length s + length (js ".html") - length (js ".html"))%nat with (length s) by lia.
  rewrite skipn_app, Nat.sub_diag, skipn_all. cbn [skipn app].
  apply andb_true_iff. split; [apply Nat.leb_le; lia | reflexivity].
Qed.

(** X18.  The name [saveWithCustomName] saves under holds none of the
    characters [< > : double quote / \ | ? *], ends with [.html] in some
    letter case, and is as long as the name given or five characters
    longer. *)
Theorem export_filename_safe filename :
  let name := finalFilename filename in
  forallb (fun u => negb (member false forbidden u)) name = true
  /\ endsWith_lower name (js ".html") = true
  /\ (length name = length filename \/ length name = length filename + 5)%nat.
Proof.
  cbv zeta. unfold finalFilename, replace_str, replace_fn. rewrite replace_forbidden by reflexivity.
  split; [|split].
  - rewrite forallb_forall. intros u Hu. apply in_map_iff in Hu as (v & <- & _).
    now rewrite dash_allowed.
  - destruct (endsWith_lower filename (js ".html")) eqn:E; cbn [negb].
    + now apply endsWith_dash.
    + apply endsWith_dash, endsWith_appended.
  - rewrite length_map. destruct (endsWith_lower filename (js ".html")); cbn [negb].
    + now left.
    + right. now rewrite length_app.
Qed.

End FilenameFacts.

Module PreviewFacts.
Import JS Rx ExportMarkup.
Local Open Scope nat_scope.

Lemma firstn_prefix {A} n (a b : list A) : n <= length a -> firstn n (a ++ b) = firstn n a.
Proof.
  intros H. rewrite firstn_app. replace (n - length a) with 0 by lia.
  cbn [firstn]. apply app_nil_r.
Qed.

(** X19.  [getHTMLPreview] shows nothing of the user's text: the head of
    the document up to the comment before the user's style is longer than
    500 code units, so the preview is the first 500 code units of that
    head, followed by three dots, whatever the markup and the style
    are. *)
Theorem export_preview_shows_no_content timestamp htmlContent cssContent :
  getHTMLPreview timestamp htmlContent cssContent
  = firstn 500 (export_head ++ timestamp ++ export_base) ++ js "...".
Proof.
  unfold getHTMLPreview, generateCompleteHTML. cbv zeta.
  set (rest := ExportStyle.sanitizeCSS cssContent ++ export_body_open
               ++ sanitizeHTML htmlContent ++ export_tail).
  replace (export_head ++ timestamp ++ export_base ++ rest)
    with ((export_head ++ timestamp ++ export_base) ++ rest)
    by (now rewrite <- !app_assoc).
  assert (Hl : 500 <= length (export_head ++ timestamp ++ export_base)).
  { rewrite !length_app.
    change (length export_head) with 246. change (length export_base) with 489. lia. }
  assert (Hlt : (500 <? length ((export_head ++ timestamp ++ export_base) ++ rest)) = true).
  { apply Nat.ltb_lt. rewrite length_app. 
    rewrite !length_app in *. change (length export_head) with 246 in *.
    change (length export_base) with 489 in *. lia. }
  rewrite Hlt. now rewrite firstn_prefix.
Qed.

End PreviewFacts.

(** ** Animations and Sass variables *)
Module AnimationFacts.
Import JS Rx RxSpec RxFacts CaptureFacts Animations AnimationSpec.
Local Open Scope nat_scope.

Lemma keyframes_hidden l : filter shown (map keyframes_entry l) = [].
Proof. induction l as [|mt l IH]; [reflexivity | exact IH]. Qed.

Lemma chain_from lo lo' l hi : lo' <= lo -> chain lo l hi -> chain lo' l hi.
Proof.
  destruct l as [|mt l]; cbn [chain]; [lia|]. intros H (H1 & H2 & H3). repeat split; auto; lia.
Qed.

Lemma chain_bounds : forall l lo hi, chain lo l hi -> lo <= hi.
Proof.
  induction l as [|mt l IH]; intros lo hi; cbn [chain]; [tauto|].
  intros (H1 & H2 & H3). apply IH in H3. lia.
Qed.

Lemma animation_shown idx s mt :
  match_here false animationRegex idx s = Some mt -> shown (animation_entry mt) = true.
Proof.
  unfold match_here.
  destruct (m false animationRegex _ idx s []) as [[idx' c]|] eqn:E; [|discriminate].
  intros H. injection H as <-.
  change animationRegex
    with (Seq (lit "animation") (Seq (Rep Space 0 None true) (Seq (lit ":")
           (Seq (Rep Space 0 None true) (Seq (Group 1 (Rep ident 1 None true))
             (Seq (Rep Space 1 None true)
               (Seq (Group 2 (Seq (Rep number 1 None true) (Seq (lit "s") Eps))) Eps))))))) in E.
  apply seq_lit_inv in E.
  apply seq_rep_inv in E as (p1 & r1 & _ & _ & _ & E); [|reflexivity].
  apply seq_lit_inv in E.
  apply seq_rep_inv in E as (p2 & r2 & _ & _ & _ & E); [|reflexivity].
  apply seq_group_inv in E as (p3 & r3 & _ & _ & _ & E); [|reflexivity].
  apply seq_rep_inv in E as (p4 & r4 & _ & _ & _ & E); [|reflexivity].
  rewrite seq_group_unfold in E.
  apply seq_rep_inv in E as (p5 & r5 & Hs & Hj & Hn & E); [|reflexivity].
  apply seq_lit_inv in E. cbn [m] in E. injection E as _ <-.
  unfold shown, animation_entry, group. cbn [duration groups cap_get cap_set Nat.eqb].
  destruct p5 as [|u p5]; [cbn in Hj; lia|].
  cbn [forallb] in Hn. apply andb_true_iff in Hn as [Hu _].
  rewrite Hs. 
  match goal with |- context [firstn ?n _] =>
    replace n with (S (length p5 + 1)) by (cbn [length]; lia) end.
  cbn [app firstn]. apply negb_true_iff.
  destruct (eqb_str _ _) eqn:Eq; [|reflexivity].
  apply SassFacts.eqb_str_eq in Eq. injection Eq as -> _. discriminate Hu.
Qed.

Lemma filter_shown l :
  Forall (fun mt => shown (animation_entry mt) = true) l ->
  filter shown (map animation_entry l) = map animation_entry l.
Proof.
  induction 1 as [|mt l H _ IH]; [reflexivity|]. cbn [map filter]. now rewrite H, IH.
Qed.

Lemma chain_ends : forall l lo hi,
  chain lo l hi ->
  Forall (fun p => lo < p <= hi) (map ends l) /\ Sorted.StronglySorted lt (map ends l).
Proof.
  induction l as [|mt l IH]; intros lo hi H; cbn [map].
  - split; constructor.
  - cbn [chain] in H. destruct H as (H1 & H2 & H3).
    destruct (IH _ _ H3) as (Hb & Hs). pose proof (chain_bounds _ _ _ H3) as Hhi.
    split.
    + constructor; [lia|]. eapply Forall_impl; [|exact Hb]. cbv beta. intros p Hp. lia.
    + constructor; [exact Hs|]. eapply Forall_impl; [|exact Hb]. cbv beta. intros p Hp. lia.
Qed.

(** X20.  Both loops of [findAnimations] end on every text, and
    [createAnimationDecorations] puts one timeline widget at the end of
    every [animation: name duration] the second loop finds and none for a
    [@keyframes] rule.  The positions are handed over in strictly
    increasing order and lie within the text. *)
Theorem animation_widgets_in_order text :
  exists found,
    exec_all false animationRegex text = Some found
    /\ widget_positions text = Some (map ends found)
    /\ Sorted.StronglySorted lt (map ends found)
    /\ Forall (fun p => 0 < p <= length text) (map ends found).
Proof.
  unfold widget_positions, findAnimations.
  destruct (exec_from_chain false keyframesRegex eq_refl
              ltac:(apply Nat.ltb_lt; reflexivity) text 0 0 ltac:(lia)) as (ks & Hk & _).
  destruct (exec_from_chain false animationRegex eq_refl
              ltac:(apply Nat.ltb_lt; reflexivity) text 0 0 ltac:(lia)) as (an & Ha & Hc).
  unfold exec_all. rewrite Hk, Ha. exists an. split; [reflexivity|].
  change (fun a : Animation => negb (eqb_str (duration a) (js "keyframes"))) with shown.
  rewrite filter_app, keyframes_hidden. cbn [app].
  rewrite filter_shown.
  2:{ apply (exec_from_Forall false animationRegex eq_refl ltac:(apply Nat.ltb_lt; reflexivity)
               _ animation_shown _ _ _ _ Ha). }
  rewrite map_map. cbn [to animation_entry]. 
  destruct (chain_ends _ _ _ Hc) as (Hb & Hs). split; [reflexivity|]. split; [exact Hs | exact Hb].
Qed.

End AnimationFacts.

Module SassVariableFacts.
Import JS Rx RxSpec RxFacts CaptureFacts SassVariables SassVariableSpec.
Local Open Scope N_scope.

Lemma not_semicolon_spec u : member false not_semicolon u = negb (u =? 59).
Proof.
  unfold not_semicolon. cbn [member]. rewrite andb_false_l, orb_false_r.
  now rewrite N.eqb_sym.
Qed.

Lemma match_tidy idx s mt : match_here false regex idx s = Some mt -> tidy (entry mt) = true.
Proof.
  unfold match_here.
  destruct (m false regex _ idx s []) as [[idx' c]|] eqn:E; [|discriminate].
  intros H. injection H as <-.
  change regex
    with (Seq (lit "$") (Seq (Group 1 (Rep name_char 1 None true))
           (Seq (Rep Space 0 None true) (Seq (lit ":") (Seq (Rep Space 0 None true)
             (Seq (Group 2 (Rep not_semicolon 1 None true)) (Seq (lit ";") Eps))))))) in E.
  apply seq_lit_inv in E.
  apply seq_group_inv in E as (p1 & r1 & _ & Hj1 & Hn1 & E); [|reflexivity].
  apply seq_rep_inv in E as (p2 & r2 & _ & _ & _ & E); [|reflexivity].
  apply seq_lit_inv in E.
  apply seq_rep_inv in E as (p3 & r3 & _ & _ & _ & E); [|reflexivity].
  apply seq_group_inv in E as (p4 & r4 & _ & Hj4 & Hn4 & E); [|reflexivity].
  apply seq_lit_inv in E. cbn [m] in E. injection E as _ <-.
  unfold tidy, entry, group. cbn [groups cap_get cap_set Nat.eqb label value app].
  change (js "$" ++ p1) with (36 :: p1). cbv iota.
  rewrite Hn1. apply andb_true_iff. split.
  - rewrite andb_true_r. apply Nat.ltb_lt. exact Hj1.
  - apply forallb_trim. rewrite forallb_forall in *. intros u Hu.
    rewrite <- not_semicolon_spec. now apply Hn4.
Qed.

(** X21.  The loop of [extractSassVariables] ends on every text.  Every
    variable it returns has a label made of [$] and at least one of the
    characters [a-z], [A-Z], [_] and [-], and a value without a
    semicolon. *)
Theorem sass_variables_tidy content :
  exists variables,
    extractSassVariables content = Some variables
    /\ Forall (fun v => tidy v = true) variables.
Proof.
  unfold extractSassVariables, exec_all.
  destruct (exec_from_chain false regex eq_refl
              ltac:(apply Nat.ltb_lt; reflexivity) content 0%nat 0%nat ltac:(lia))
    as (l & Hl & _).
  rewrite Hl. cbn [option_map]. eexists. split; [reflexivity|].
  apply Forall_map.
  apply (exec_from_Forall false regex eq_refl ltac:(apply Nat.ltb_lt; reflexivity)
           (fun mt => tidy (entry mt) = true) match_tidy _ _ _ _ Hl).
Qed.

End SassVariableFacts.

(** ** The settings *)
Module SettingsFacts.
Import JS Rx Settings SettingsSpec Floats.
Local Open Scope N_scope.

Lemma SFcompare_antisym a b : SFcompare b a = option_map CompOpp (SFcompare a b).
Proof.
  destruct a as [sa|sa| |sa ma ea], b as [sb|sb| |sb mb eb]; cbn; try reflexivity;
    try (destruct sa; reflexivity); try (destruct sb; reflexivity);
    try (destruct sa, sb; reflexivity).
  destruct sa, sb; cbn; try reflexivity.
  - rewrite (Z.compare_antisym ea eb). destruct (ea ?= eb)%Z; cbn; try reflexivity.
    change (Pos.compare_cont Eq mb ma) with (Pos.compare mb ma).
    change (Pos.compare_cont Eq ma mb) with (Pos.compare ma mb).
    rewrite (Pos.compare_antisym ma mb). now destruct (Pos.compare ma mb).
  - rewrite (Z.compare_antisym ea eb). destruct (ea ?= eb)%Z; cbn; try reflexivity.
    change (Pos.compare_cont Eq mb ma) with (Pos.compare mb ma).
    change (Pos.compare_cont Eq ma mb) with (Pos.compare ma mb).
    rewrite (Pos.compare_antisym ma mb). reflexivity.
Qed.

Lemma leb_not_ltb x y : PrimFloat.leb x y = true -> PrimFloat.ltb y x = false.
Proof.
  rewrite leb_spec, ltb_spec. unfold SFleb, SFltb.
  rewrite (SFcompare_antisym (Prim2SF x) (Prim2SF y)).
  destruct (SFcompare (Prim2SF x) (Prim2SF y)) as [[]|]; cbn; congruence.
Qed.

Section Library.
Variable toLowerCase : jsstring -> jsstring.
Variable less_than_one : value -> bool.

Lemma number_setting_range v lo hi d x :
  in_range lo hi d = true -> number_setting v lo hi d = Some x -> in_range lo hi x = true.
Proof.
  intros Hd. destruct v; cbn [number_setting reported conversion_throws];
    try (intros H; injection H as <-; exact Hd).
  - destruct (PrimFloat.leb lo x0 && PrimFloat.leb x0 hi) eqn:E; intros H; injection H as <-;
      [exact E | exact Hd].
  - destruct convertible; [intros H; injection H as <-; exact Hd | discriminate].
Qed.

Lemma enum_setting_allowed v allowed d x :
  existsb (eqb_str d) allowed = true -> enum_setting v allowed d = Some x ->
  existsb (eqb_str x) allowed = true.
Proof.
  intros Hd. destruct v; cbn [enum_setting reported conversion_throws];
    try (intros H; injection H as <-; exact Hd).
  - destruct (existsb (eqb_str s) allowed) eqn:E; intros H; injection H as <-;
      [exact E | exact Hd].
  - destruct convertible; [intros H; injection H as <-; exact Hd | discriminate].
Qed.

Lemma default_color : isValidColor toLowerCase (js "#ffffff") = true.
Proof. reflexivity. Qed.

Lemma color_setting_valid v x :
  color_setting toLowerCase v (js "#ffffff") = Some x -> isValidColor toLowerCase x = true.
Proof.
  destruct v; cbn [color_setting reported conversion_throws];
    try (intros H; injection H as <-; apply default_color).
  - destruct (isValidColor toLowerCase s) eqn:E; intros H; injection H as <-;
      [exact E | apply default_color].
  - destruct convertible; [intros H; injection H as <-; apply default_color | discriminate].
Qed.

Lemma version_setting_positive v : PrimFloat.ltb 0 (version_setting v 1) = true.
Proof.
  destruct v; try reflexivity. cbn [version_setting].
  destruct (PrimFloat.ltb 0 x) eqn:E; [exact E | reflexivity].
Qed.

Lemma defaults_valid loaded now :
  valid toLowerCase (with_time now (DEFAULT_SETTINGS loaded)) = true.
Proof. reflexivity. Qed.

Lemma validated_valid loaded now settings :
  valid toLowerCase (validateSettings toLowerCase loaded now settings) = true.
Proof.
  unfold validateSettings.
  destruct (validated_settings toLowerCase loaded now settings) as [v|] eqn:E;
    [|apply defaults_valid].
  unfold validated_settings in E. cbv zeta in E.
  cbn [autoRefresh refreshDelay fontSize lineHeight showLineNumbers previewPosition editorRatio
       theme previewBackground enableAutocomplete enableCodeFolding version DEFAULT_SETTINGS]
    in E.
  destruct (boolean_setting (Raw.autoRefresh settings) true); [|discriminate].
  destruct (boolean_setting (Raw.showLineNumbers settings) true); [|discriminate].
  destruct (boolean_setting (Raw.enableAutocomplete settings) true); [|discriminate].
  destruct (boolean_setting (Raw.enableCodeFolding settings) true); [|discriminate].
  destruct (number_setting (Raw.refreshDelay settings) 100 2000 300) as [x1|] eqn:E1;
    [|discriminate].
  destruct (number_setting (Raw.fontSize settings) 10 24 14) as [x2|] eqn:E2; [|discriminate].
  destruct (number_setting (Raw.lineHeight settings) 1 2 f1_4) as [x3|] eqn:E3; [|discriminate].
  destruct (number_setting (Raw.editorRatio settings) f0_1 f0_9 f0_6) as [x4|] eqn:E4;
    [|discriminate].
  destruct (enum_setting (Raw.previewPosition settings) _ _) as [x5|] eqn:E5; [|discriminate].
  destruct (enum_setting (Raw.theme settings) _ _) as [x6|] eqn:E6; [|discriminate].
  destruct (color_setting toLowerCase (Raw.previewBackground settings) _) as [x7|] eqn:E7;
    [|discriminate].
  injection E as <-. unfold valid.
  cbn [refreshDelay fontSize lineHeight editorRatio previewPosition theme previewBackground
       version].
  apply number_setting_range in E1, E2, E3, E4; try reflexivity.
  apply enum_setting_allowed in E5, E6; try reflexivity.
  apply color_setting_valid in E7.
  rewrite E1, E2, E3, E4, E5, E6, E7, version_setting_positive.
  reflexivity.
Qed.

(** One value that cannot be converted among those that are checked
    sends [validateSettings] into its [catch] block. *)
Lemma validated_settings_throw loaded now settings :
  existsb conversion_throws (checked settings) = true ->
  validated_settings toLowerCase loaded now settings = None.
Proof.
  unfold checked, validated_settings. cbv zeta. cbn [existsb]. rewrite orb_false_r.
  repeat match goal with
         | |- context [boolean_setting ?v ?d] =>
             let E := fresh "E" in
             destruct (conversion_throws v) eqn:E;
             [destruct v as [| | | | |[]]; try discriminate E; reflexivity|];
             destruct (boolean_setting v d); [|reflexivity]
         | |- context [number_setting ?v ?lo ?hi ?d] =>
             let E := fresh "E" in
             destruct (conversion_throws v) eqn:E;
             [destruct v as [| | | | |[]]; try discriminate E; reflexivity|];
             destruct (number_setting v lo hi d); [|reflexivity]
         | |- context [enum_setting ?v ?al ?d] =>
             let E := fresh "E" in
             destruct (conversion_throws v) eqn:E;
             [destruct v as [| | | | |[]]; try discriminate E; reflexivity|];
             destruct (enum_setting v al d); [|reflexivity]
         | |- context [color_setting ?f ?v ?d] =>
             let E := fresh "E" in
             destruct (conversion_throws v) eqn:E;
             [destruct v as [| | | | |[]]; try discriminate E; reflexivity|];
             destruct (color_setting f v d); [|reflexivity]
         end.
  cbn [orb]. discriminate.
Qed.

Lemma number_errors_none lo hi x type range :
  in_range lo hi x = true -> number_errors (Number x) lo hi type range = [].
Proof.
  unfold in_range. intros H. apply andb_true_iff in H as [H1 H2].
  cbn [number_errors]. now rewrite (leb_not_ltb _ _ H1), (leb_not_ltb _ _ H2).
Qed.

Lemma valid_no_errors s :
  valid toLowerCase s = true -> getValidationErrors toLowerCase (as_partial s) = [].
Proof.
  unfold valid. rewrite !andb_true_iff.
  intros [[[[[[[H1 H2] H3] H4] H5] H6] H7] H8].
  unfold getValidationErrors, as_partial.
  cbn [Raw.autoRefresh Raw.refreshDelay Raw.fontSize Raw.lineHeight Raw.editorRatio
       Raw.previewPosition Raw.theme Raw.previewBackground].
  rewrite !number_errors_none by assumption.
  cbn [enum_errors]. now rewrite H5, H6, H7.
Qed.

(** X22.  Whatever object it is given, [validateSettings] returns
    settings in which every number is within its range, the preview
    position and the theme are among the allowed names, the background is
    a color [isValidColor] accepts and the version is positive; they pass
    [getValidationErrors] without a message, and carry the time of the
    call.  When one of the eleven values it checks is an object or an
    array that cannot be converted to a string, building the message
    throws, and what it returns is the default settings. *)
Theorem validated_settings_valid loaded now settings :
  let validated := validateSettings toLowerCase loaded now settings in
  valid toLowerCase validated = true
  /\ getValidationErrors toLowerCase (as_partial validated) = []
  /\ lastUpdated validated = now
  /\ (existsb conversion_throws (checked settings) = true ->
      validated = with_time now (DEFAULT_SETTINGS loaded)).
Proof.
  cbv zeta. split; [apply validated_valid|]. split; [|split].
  - apply valid_no_errors, validated_valid.
  - unfold validateSettings.
    destruct (validated_settings toLowerCase loaded now settings) as [v|] eqn:E;
      [|reflexivity].
    unfold validated_settings in E. cbv zeta in E.
    repeat match type of E with
           | match ?c with Some _ => _ | None => None end = Some _ =>
               destruct c; [|discriminate E]
           end.
    now injection E as <-.
  - intros H. unfold validateSettings. now rewrite validated_settings_throw.
Qed.

Lemma validated_version loaded now settings x :
  Raw.version settings = Number x -> PrimFloat.eqb x 1 = true ->
  PrimFloat.eqb (version (validateSettings toLowerCase loaded now settings)) 1 = true.
Proof.
  intros Hv Hx. unfold validateSettings.
  destruct (validated_settings toLowerCase loaded now settings) as [v|] eqn:E;
    [|reflexivity].
  unfold validated_settings in E. cbv zeta in E.
  repeat match type of E with
         | match ?c with Some _ => _ | None => None end = Some _ =>
             destruct c; [|discriminate E]
         end.
  injection E as <-. cbn [version DEFAULT_SETTINGS]. rewrite Hv. cbn [version_setting].
  destruct (PrimFloat.ltb 0 x); [exact Hx | reflexivity].
Qed.

(** X23.  Whatever [loadData] gives, [migrateSettings] returns valid
    settings of version 1, whether or not the stored version converts to a
    number below 1; when it cannot be converted to a number at all, the
    comparison throws and the default settings are returned. *)
Theorem migrated_settings_current loaded t1 t2 t3 settings :
  let migrated := migrateSettings toLowerCase less_than_one loaded t1 t2 t3 settings in
  valid toLowerCase migrated = true
  /\ PrimFloat.eqb (version migrated) 1 = true
  /\ (forall r, settings = Object r -> conversion_throws (Raw.version r) = true ->
        migrated = DEFAULT_SETTINGS loaded).
Proof.
  cbv zeta. split; [|split].
  - destruct settings as [|r]; cbn [migrateSettings]; [reflexivity|].
    cbn [version DEFAULT_SETTINGS].
    destruct (is_number _ 1); [apply validated_valid|].
    destruct (conversion_throws _); [reflexivity | apply validated_valid].
  - destruct settings as [|r]; cbn [migrateSettings]; [reflexivity|].
    cbn [version DEFAULT_SETTINGS].
    destruct (is_number _ 1) eqn:E.
    + destruct (truthy_value (Raw.version r)); [|discriminate E].
      destruct (Raw.version r) as [| | |x| |c] eqn:Hv; try discriminate E.
      now apply (validated_version _ _ _ x).
    + destruct (conversion_throws _); [reflexivity|].
      now apply (validated_version _ _ _ 1%float).
  - intros r -> Hc. cbn [migrateSettings].
    destruct (Raw.version r) as [| | | | |[]]; try discriminate Hc. reflexivity.
Qed.

(** X24.  [saveSettings] changes nothing but the time stamp of valid
    settings. *)
Theorem save_keeps_valid_settings loaded t1 t2 s :
  valid toLowerCase s = true ->
  saveSettings toLowerCase loaded t1 t2 s = stamped t2 s.
Proof.
  unfold valid, in_range. rewrite !andb_true_iff.
  intros [[[[[[[[H1 H1'] [H2 H2']] [H3 H3']] [H4 H4']] H5] H6] H7] H8].
  unfold saveSettings, stamped, validateSettings, validated_settings, as_partial.
  cbn [Raw.autoRefresh Raw.refreshDelay Raw.fontSize Raw.lineHeight Raw.editorRatio
       Raw.previewPosition Raw.theme Raw.previewBackground Raw.showLineNumbers
       Raw.enableAutocomplete Raw.enableCodeFolding Raw.version
       autoRefresh refreshDelay fontSize lineHeight showLineNumbers previewPosition
       editorRatio theme previewBackground enableAutocomplete enableCodeFolding version
       boolean_setting number_setting enum_setting color_setting version_setting].
  now rewrite H1, H1', H2, H2', H3, H3', H4, H4', H5, H6, H7, H8.
Qed.

End Library.

Lemma validated_settings_valid_witness :
  validateSettings ascii_lower (js "t0") (js "t1") broken_theme
  = with_time (js "t1") (DEFAULT_SETTINGS (js "t0")).
Proof.
  exact (proj2 (proj2 (proj2 (validated_settings_valid ascii_lower (js "t0") (js "t1")
                                broken_theme))) eq_refl).
Defined.

Lemma migrated_settings_current_witness :
  migrateSettings ascii_lower (fun _ => false) (js "t0") (js "t1") (js "t2") (js "t3")
    (Object broken_version)
  = DEFAULT_SETTINGS (js "t0").
Proof.
  exact (proj2 (proj2 (migrated_settings_current ascii_lower (fun _ => false) (js "t0")
                         (js "t1") (js "t2") (js "t3") (Object broken_version)))
           broken_version eq_refl eq_refl).
Defined.

Lemma save_keeps_valid_settings_witness :
  saveSettings ascii_lower (js "t0") (js "t1") (js "t2") (DEFAULT_SETTINGS (js "t0"))
  = stamped (js "t2") (DEFAULT_SETTINGS (js "t0")).
Proof. apply save_keeps_valid_settings. reflexivity. Defined.

End SettingsFacts.
